(** * QuasarClient: transaction submission and confirmation

    A shallow embedding of [src/client/client.ts] (class [QuasarClient]):
    [signTransaction], [signTransactions], [sendTransaction],
    [sendSignedTransaction] and [sendTransactions], and the operations
    built on them, [initQuasarGroup], [getQuasarGroup], [addBaseToken] and
    [addLeverageToken].

    The collaborators that the file imports are not part of it and are
    treated as an environment:
    - [@solana/web3.js] ([Transaction] methods, [Connection] calls) is an
      interface record ([Web3]) and a record of endpoint answers
      ([Connection]);
    - [./utils] ([awaitTransactionSignatureConfirmation],
      [simulateTransaction], [sleep]) is seen through the outcome of the
      promise each call returns;
    - the constructors, the instruction builders of [./instruction], the
      layouts and the two account helpers of [./utils] that the operations
      use are an interface record ([Toolkit]).

    An [async] function is a sequence of segments separated by [await].
    The part of [sendTransaction] before the broadcast loop starts is
    sequential and is a function ([sendTransaction_prelude]); the part
    after it is two cooperatively scheduled activities that share the
    local variable [done], and is a step function on a [State]
    ([step]) driven by a list of scheduler [Action]s. *)

From stdpp Require Import base strings list functions pretty.
From Stdlib Require Import ZArith Floats.
Local Open Scope string_scope.
Local Open Scope Z_scope.
Local Open Scope list_scope.

Set Default Proof Using "Type".
Set Warnings "-register-all".

(** ** JavaScript values *)

(** The values that travel through the code as payloads: what a promise
    rejects with, and the [err] member of a simulation response.  [JNum n]
    is the Number value of the integer [n]; numbers with a fraction are left
    out.  The properties of an object are kept in the order in which the
    engine enumerates them. *)
Inductive JsValue : Type :=
| JUndefined
| JNull
| JBool (b : bool)
| JNum (n : Z)
| JStr (s : string)
| JArr (items : list JsValue)
| JObj (fields : list (string * JsValue))
| JError (message : string)      (* [new Error(message)] *)
| JTypeError.                    (* a [TypeError] raised by the engine *)

(** Truthiness, as used by [if (x)] and [a && b]. *)
Definition truthy (v : JsValue) : bool :=
  match v with
  | JUndefined | JNull => false
  | JBool b => b
  | JNum n => negb (n =? 0)
  | JStr s => negb (String.eqb s EmptyString)
  | JArr _ | JObj _ | JError _ | JTypeError => true
  end.

Fixpoint assoc (k : string) (fields : list (string * JsValue)) : option JsValue :=
  match fields with
  | [] => None
  | (k', v) :: rest => if String.eqb k k' then Some v else assoc k rest
  end.

(** Property read [v.k].  [None] stands for the [TypeError] that reading a
    property of [undefined] or [null] raises; a missing property reads as
    [undefined]. *)
Definition get_prop (v : JsValue) (k : string) : option JsValue :=
  match v with
  | JUndefined | JNull => None
  | JObj fields => Some (default JUndefined (assoc k fields))
  | JError m => Some (if String.eqb k "message" then JStr m else JUndefined)
  | _ => Some JUndefined
  end.

(** *** Conversion to a string *)

(** [ToString(v)], as in [`${v}`], completes normally.  An object is
    converted by its [toString] method: [Object.prototype.toString] when the
    object has no property of that name of its own, and otherwise the value
    of that property, which is never callable here.  In that case [valueOf]
    is tried, which gives no primitive value either, and the conversion
    throws a [TypeError].  An array is converted by [join], which converts
    each element that is not [undefined] or [null]. *)
Fixpoint ToString_completes (v : JsValue) : bool :=
  match v with
  | JArr items =>
      let fix all (l : list JsValue) : bool :=
        match l with
        | [] => true
        | x :: r => ToString_completes x && all r
        end in
      all items
  | JObj fields =>
      match assoc "toString" fields with
      | Some _ => false
      | None => true
      end
  | _ => true
  end.

(** *** Numbers *)

(** The Number value of an integer: the binary64 value nearest to it, ties
    to even, an infinity beyond the range. *)
Definition Number (z : Z) : float := SF2Prim (binary_normalize prec emax z 0 false).


(** Trailing zeros taken off a string of digits. *)
Fixpoint strip_zeros (s : string) : string :=
  match s with
  | EmptyString => EmptyString
  | String c rest =>
      match strip_zeros rest with
      | EmptyString => if Ascii.eqb c (Ascii.ascii_of_nat 48) then EmptyString else String c EmptyString
      | rest' => String c rest'
      end
  end.

(** The decimal numeral of a positive integer [v], as [Number::toString]
    writes it: in full up to 21 digits, with an exponent beyond. *)
Definition numeral (v : Z) : string :=
  let digits := pretty v in
  let n := String.length digits in
  if (n <=? 21)%nat then digits
  else
    match strip_zeros digits with
    | String c EmptyString => String c ("e+" +:+ pretty (Z.of_nat n - 1))
    | String c rest => String c ("." +:+ rest +:+ "e+" +:+ pretty (Z.of_nat n - 1))
    | EmptyString => digits
    end.

(** The shortest numeral that reads back as the double [m * 2^e], [e >= 1]:
    [shortest m e k] tries [k], [k+1], ... significant digits, [fuel] times
    at most, and takes the multiple of the power of ten nearest to the
    double when it lies in the rounding interval of the double. *)
Fixpoint shortest (m e : Z) (digits : Z) (k : Z) (fuel : nat) : Z :=
  let d := m * 2 ^ e in
  match fuel with
  | O => d
  | S fuel' =>
      let unit := 10 ^ (digits - k) in
      let below := d / unit * unit in
      let above := below + unit in
      let low := if m =? 2 ^ 52 then 2 ^ e else 2 ^ (e + 1) in
      let high := 2 ^ (e + 1) in
      let inside (v : Z) : bool :=
        if Z.even m then (4 * d - low <=? 4 * v) && (4 * v <=? 4 * d + high)
        else (4 * d - low <? 4 * v) && (4 * v <? 4 * d + high) in
      let nearer_below :=
        (d - below <? above - d) ||
        ((d - below =? above - d) && Z.even (below / unit)) in
      match inside below, inside above with
      | true, true => if nearer_below then below else above
      | true, false => below
      | false, true => above
      | false, false => shortest m e digits (k + 1) fuel'
      end
  end.

(** [Number::toString] of the Number value of an integer; [None] when that
    value is an infinity. *)
Definition Number_toString (n : Z) : option string :=
  if Z.abs n <=? 2 ^ 53 then Some (pretty n)
  else
    match binary_normalize prec emax (Z.abs n) 0 false with
    | S754_finite _ m e =>
        let digits := Z.of_nat (String.length (pretty (Z.pos m * 2 ^ e))) in
        let v := shortest (Z.pos m) e digits 1 (Z.to_nat digits) in
        Some ((if n <? 0 then "-" else "") +:+ numeral v)
    | _ => None
    end.

(** *** [JSON.stringify] *)

Definition dquote : Ascii.ascii := Ascii.ascii_of_nat 34.
Definition backslash : Ascii.ascii := Ascii.ascii_of_nat 92.

Definition hex_digit (n : nat) : Ascii.ascii :=
  Ascii.ascii_of_nat (if n <? 10 then 48 + n else 87 + n)%nat.

Definition one (c : Ascii.ascii) : string := String c EmptyString.

Definition escape_char (c : Ascii.ascii) : string :=
  let n := Ascii.nat_of_ascii c in
  if (n =? 34)%nat then String backslash (one dquote)
  else if (n =? 92)%nat then String backslash (one backslash)
  else if (n =? 8)%nat then String backslash "b"
  else if (n =? 9)%nat then String backslash "t"
  else if (n =? 10)%nat then String backslash "n"
  else if (n =? 12)%nat then String backslash "f"
  else if (n =? 13)%nat then String backslash "r"
  else if (n <? 32)%nat then
    String backslash ("u00" +:+ String (hex_digit (n / 16)%nat) (one (hex_digit (n mod 16)%nat)))
  else one c.

Fixpoint escape (s : string) : string :=
  match s with
  | EmptyString => EmptyString
  | String c rest => escape_char c +:+ escape rest
  end.

Definition quote (s : string) : string :=
  String dquote (escape s +:+ one dquote).

(** [None] is the result [undefined] that [JSON.stringify] gives for
    [undefined] itself; inside an array [undefined] prints as [null] and a
    property whose value is [undefined] is left out. *)
Fixpoint JSON_stringify (v : JsValue) : option string :=
  match v with
  | JUndefined => None
  | JNull => Some "null"
  | JBool true => Some "true"
  | JBool false => Some "false"
  | JNum n => Some (default "null" (Number_toString n))
  | JStr s => Some (quote s)
  | JArr items =>
      let fix elems (l : list JsValue) : list string :=
        match l with
        | [] => []
        | x :: r => default "null" (JSON_stringify x) :: elems r
        end in
      Some ("[" +:+ String.concat "," (elems items) +:+ "]")
  | JObj fields =>
      let fix members (l : list (string * JsValue)) : list string :=
        match l with
        | [] => []
        | (k, x) :: r =>
            match JSON_stringify x with
            | Some sx => (quote k +:+ ":" +:+ sx) :: members r
            | None => members r
            end
        end in
      Some ("{" +:+ String.concat "," (members fields) +:+ "}")
  | JError _ | JTypeError => Some "{}"
  end.

(** [new Error(x)]: the message is [x] converted to a string, and the empty
    string when [x] is [undefined]. *)
Definition new_Error (message : option string) : JsValue :=
  JError (default EmptyString message).

(** ** Strings: [startsWith] and [slice] *)

Definition startsWith (line tag : string) : bool := String.prefix tag line.

Fixpoint slice (n : nat) (s : string) : string :=
  match n, s with
  | O, _ => s
  | S n', String _ rest => slice n' rest
  | S _, EmptyString => EmptyString
  end.

Definition program_log_tag : string := "Program log: ".

(** ** The failure diagnostician *)

(** [SimulatedTransactionResponse]: the members that the code reads. *)
Record SimulatedTransactionResponse : Type := {
  sim_err : JsValue;
  sim_logs : option (list string);
}.

(** The loop [for (let i = logs.length - 1; i >= 0; --i)]: [scan_logs logs n]
    examines the indices [n-1], ..., [0] in that order and gives the message
    of the first [throw] that the loop reaches. *)
Fixpoint scan_logs (logs : list string) (n : nat) : option string :=
  match n with
  | O => None
  | S i =>
      match logs !! i with
      | Some line =>
          if startsWith line program_log_tag
          then Some ("Transaction failed: " +:+ slice (String.length program_log_tag) line)
          else scan_logs logs i
      | None => scan_logs logs i
      end
  end.

(** The statements after the inner [try]/[catch] of the [catch (err)] block:
    what is thrown, given the value left in [simulateResult] ([None] is the
    initial [null]). *)
Definition diagnose (simulateResult : option SimulatedTransactionResponse) : JsValue :=
  match simulateResult with
  | Some r =>
      if truthy (sim_err r) then
        match sim_logs r with
        | Some logs =>
            match scan_logs logs (length logs) with
            | Some m => new_Error (Some m)
            | None => new_Error (JSON_stringify (sim_err r))
            end
        | None => new_Error (JSON_stringify (sim_err r))
        end
      else new_Error (Some "Transaction failed")
  | None => new_Error (Some "Transaction failed")
  end.

(** ** Promises, the object store and the external interfaces *)

(** How a promise settles.  Anything can be thrown, so a rejection carries
    a [JsValue]. *)
Inductive Outcome (A : Type) : Type :=
| Fulfilled (a : A)
| Rejected (e : JsValue).
Arguments Fulfilled {A} a.
Arguments Rejected {A} e.

Definition PublicKey : Type := string.
Definition Bytes : Type := list Byte.byte.

(** [Account] of web3.js: local key material. *)
Record Account : Type := {
  acc_publicKey : PublicKey;
  acc_secretKey : string;
}.

(** The state of a [Transaction] object.  Only [recentBlockhash] is
    assigned by the client directly; the other members are read and
    written by the library methods. *)
Record Transaction : Type := {
  instructions : list string;
  recentBlockhash : option string;
  signerKeys : list PublicKey;
  signatures : list (PublicKey * string);
}.

Definition with_recentBlockhash (b : string) (t : Transaction) : Transaction :=
  {| instructions := instructions t; recentBlockhash := Some b;
     signerKeys := signerKeys t; signatures := signatures t |}.

(** Transaction objects are shared and mutated in place: a variable holds a
    reference ([loc]) and the store maps every reference to the current state
    of its object. *)
Definition loc : Type := positive.
Definition Heap : Type := loc → Transaction.

(** [WalletAdapter]: the members that the client uses.  The two signing
    methods are asynchronous calls into code the client does not control:
    they may mutate any transaction object and resolve to any transaction
    object, or reject. *)
Record WalletAdapter : Type := {
  wallet_publicKey : PublicKey;
  connected : bool;
  wallet_signTransaction : Heap → loc → Heap * Outcome loc;
  wallet_signAllTransactions : Heap → list loc → Heap * Outcome (list loc);
}.

(** [payer: Account | WalletAdapter]. *)
Inductive Payer : Type :=
| PAccount (a : Account)
| PWallet (w : WalletAdapter).

Definition payer_publicKey (p : Payer) : PublicKey :=
  match p with
  | PAccount a => acc_publicKey a
  | PWallet w => wallet_publicKey w
  end.

(** [payer?.connected] is truthy: an [Account] has no such member. *)
Definition payer_connected (p : Payer) : option WalletAdapter :=
  match p with
  | PAccount _ => None
  | PWallet w => if connected w then Some w else None
  end.

(** [!(payer instanceof Account)]: the payer is then the wallet. *)
Definition not_instanceof_Account (p : Payer) : option WalletAdapter :=
  match p with
  | PAccount _ => None
  | PWallet w => Some w
  end.

(** An element of the argument list of [transaction.sign(...)]. *)
Inductive Signer : Type :=
| SAccount (a : Account)
| SWallet (w : WalletAdapter)
| SUndefined.

Definition payer_as_signer (p : Payer) : Signer :=
  match p with
  | PAccount a => SAccount a
  | PWallet w => SWallet w
  end.

(** [[payer].concat(signers)]; [concat(undefined)] appends [undefined]. *)
Definition concat_signers (p : Payer) (signers : option (list Account)) : list Signer :=
  payer_as_signer p ::
  match signers with
  | Some l => SAccount <$> l
  | None => [SUndefined]
  end.

(** The methods of web3.js's [Transaction] that the client calls, as
    functions on the state of the receiver; every one of them may throw. *)
Record Web3 : Type := {
  setSigners : list PublicKey → Transaction → Transaction + JsValue;
  partialSign : list Account → Transaction → Transaction + JsValue;
  sign : list Signer → Transaction → Transaction + JsValue;
  serialize : Transaction → Bytes + JsValue;
}.

Record SendOptions : Type := { skipPreflight : bool }.

(** [TransactionConfirmationStatus]. *)
Inductive ConfirmLevel : Type := processed | confirmed | finalized.

(** What the RPC endpoint answers to the calls that the client awaits. *)
Record Connection : Type := {
  getRecentBlockhash : option string → Outcome string;
  sendRawTransaction : Bytes → SendOptions → Outcome string;
}.

(** ** The call log *)

(** Every call that leaves the client, in program order, together with the
    two accesses to the variable [done] that the claims speak about. *)
Inductive Event : Type :=
| EvGetRecentBlockhash (commitment : option string)
| EvSetRecentBlockhash (tx : loc) (blockhash : string)
| EvSetSigners (tx : loc) (keys : list PublicKey)
| EvPartialSign (tx : loc) (signers : list Account)
| EvSign (tx : loc) (signers : list Signer)
| EvWalletSignTransaction (tx : loc)
| EvWalletSignAllTransactions (txs : list loc)
| EvSerialize (tx : loc)
| EvCallback
| EvSendRawTransaction (raw : Bytes) (opts : SendOptions)
| EvSleep (ms : Z)
| EvAwaitConfirmation (txid : string) (timeout : Z) (level : ConfirmLevel)
| EvSimulate (tx : loc) (commitment : string)
| EvLoopTest (observed : bool)   (* the loop reads [done] in its test *)
| EvSetDone (previous : bool).   (* [done = true]; [previous] is the value overwritten *)

(** ** Sequential segments: a state and exception monad *)

Record World : Type := { heap : Heap; calls : list Event }.

(** The world at the start of a call: the store as it is, an empty log. *)
Definition fresh (h : Heap) : World := {| heap := h; calls := [] |}.

Definition Task (A : Type) : Type := World → World * Outcome A.

Definition ret {A} (a : A) : Task A := fun w => (w, Fulfilled a).
Definition throw {A} (e : JsValue) : Task A := fun w => (w, Rejected e).
Definition bind {A B} (m : Task A) (k : A → Task B) : Task B :=
  fun w =>
    match m w with
    | (w', Fulfilled a) => k a w'
    | (w', Rejected e) => (w', Rejected e)
    end.

#[global] Instance Task_ret : MRet Task := @ret.
#[global] Instance Task_bind : MBind Task := fun A B k m => bind m k.

Definition emit (e : Event) : Task unit :=
  fun w => ({| heap := heap w; calls := calls w ++ [e] |}, Fulfilled tt).

(** [try { m } catch (e) { h e }]. *)
Definition try_catch {A} (m : Task A) (h : JsValue → Task A) : Task A :=
  fun w =>
    match m w with
    | (w', Fulfilled a) => (w', Fulfilled a)
    | (w', Rejected e) => h e w'
    end.

(** Awaiting an endpoint call whose answer is [o]. *)
Definition await {A} (o : Outcome A) : Task A := fun w => (w, o).

(** A method call [transaction.m(...)]: the receiver is updated in place,
    unless the method throws. *)
Definition method (tx : loc) (m : Transaction → Transaction + JsValue) : Task unit :=
  fun w =>
    match m (heap w tx) with
    | inl t' => ({| heap := <[tx := t']> (heap w); calls := calls w |}, Fulfilled tt)
    | inr e => (w, Rejected e)
    end.

(** A method call that returns a value and leaves the receiver as it is. *)
Definition query {A} (tx : loc) (m : Transaction → A + JsValue) : Task A :=
  fun w =>
    match m (heap w tx) with
    | inl a => (w, Fulfilled a)
    | inr e => (w, Rejected e)
    end.

(** A call into code that the client does not control (the wallet, a
    callback): it may do anything to the objects it can reach. *)
Definition foreign_call {A B} (f : Heap → A → Heap * Outcome B) (a : A) : Task B :=
  fun w => let '(h', o) := f (heap w) a in ({| heap := h'; calls := calls w |}, o).

Fixpoint forEach {A} (f : A → Task unit) (l : list A) : Task unit :=
  match l with
  | [] => ret tt
  | x :: rest => f x ;; forEach f rest
  end.

(** ** The signer coordinator *)

Section Signing.
Context (web3 : Web3) (connection : Connection).

(** The statements of [signTransaction] before [if (payer?.connected)]:
    the blockhash is fetched and assigned, the signers are set, and the
    additional signers, if any, sign. *)
Definition attach_signers (transaction : loc) (payer : Payer)
    (signers : list Account) : Task unit :=
  emit (EvGetRecentBlockhash None) ;;
  blockhash ← await (getRecentBlockhash connection None);
  emit (EvSetRecentBlockhash transaction blockhash) ;;
  method transaction (fun t => inl (with_recentBlockhash blockhash t)) ;;
  emit (EvSetSigners transaction (payer_publicKey payer :: (acc_publicKey <$> signers))) ;;
  method transaction (setSigners web3 (payer_publicKey payer :: (acc_publicKey <$> signers))) ;;
  if (0 <? length signers)%nat
  then emit (EvPartialSign transaction signers) ;;
       method transaction (partialSign web3 signers)
  else ret tt.

(** [signTransaction({ transaction, payer, signers })].  The result is the
    value the promise resolves to: the wallet's answer on the wallet path,
    [undefined] ([None]) on the local path. *)
Definition signTransaction (transaction : loc) (payer : Payer)
    (signers : list Account) : Task (option loc) :=
  attach_signers transaction payer signers ;;
  match payer_connected payer with
  | Some wallet =>
      emit (EvWalletSignTransaction transaction) ;;
      signed ← foreign_call (wallet_signTransaction wallet) transaction;
      ret (Some signed)
  | None =>
      emit (EvSign transaction (concat_signers payer (Some signers))) ;;
      method transaction (sign web3 (concat_signers payer (Some signers))) ;;
      ret None
  end.

(** An element of [transactionsAndSigners]; [signers] is optional. *)
Record TransactionAndSigners : Type := {
  tas_transaction : loc;
  tas_signers : option (list Account);
}.

(** The statements of [signTransactions] before
    [if (!(payer instanceof Account))]; this [forEach] destructures with the
    default [signers = []]. *)
Definition attach_all_signers (transactionsAndSigners : list TransactionAndSigners)
    (payer : Payer) : Task unit :=
  emit (EvGetRecentBlockhash (Some "max")) ;;
  blockhash ← await (getRecentBlockhash connection (Some "max"));
  forEach (fun item =>
    let transaction := tas_transaction item in
    let signers := default [] (tas_signers item) in
    emit (EvSetRecentBlockhash transaction blockhash) ;;
    method transaction (fun t => inl (with_recentBlockhash blockhash t)) ;;
    emit (EvSetSigners transaction (payer_publicKey payer :: (acc_publicKey <$> signers))) ;;
    method transaction (setSigners web3 (payer_publicKey payer :: (acc_publicKey <$> signers))) ;;
    if (0 <? length signers)%nat
    then emit (EvPartialSign transaction signers) ;;
         method transaction (partialSign web3 signers)
    else ret tt) transactionsAndSigners.

(** [signTransactions({ transactionsAndSigners, payer })].  The second
    [forEach] destructures without a default for [signers]. *)
Definition signTransactions (transactionsAndSigners : list TransactionAndSigners)
    (payer : Payer) : Task (option (list loc)) :=
  attach_all_signers transactionsAndSigners payer ;;
  match not_instanceof_Account payer with
  | Some wallet =>
      emit (EvWalletSignAllTransactions (tas_transaction <$> transactionsAndSigners)) ;;
      signed ← foreign_call (wallet_signAllTransactions wallet)
                  (tas_transaction <$> transactionsAndSigners);
      ret (Some signed)
  | None =>
      forEach (fun item =>
        emit (EvSign (tas_transaction item) (concat_signers payer (tas_signers item))) ;;
        method (tas_transaction item) (sign web3 (concat_signers payer (tas_signers item))))
        transactionsAndSigners ;;
      ret None
  end.
End Signing.

(** ** One submission *)

(** [getUnixTs()]: the clock reading [new Date().getTime()], an integer
    number of milliseconds, divided by 1000 in binary64. *)
Definition getUnixTs (clock_ms : Z) : float :=
  PrimFloat.div (Number clock_ms) (Number 1000).

(** The two submit operations have the same shape and differ in four
    constants. *)
Inductive Kind : Type :=
| Initial      (* [sendTransaction] *)
| PreSigned.   (* [sendSignedTransaction] *)

(** The argument of the first [sleep] of the broadcast loop. *)
Definition warmup_ms (k : Kind) : Z :=
  match k with Initial => 1000 | PreSigned => 500 end.

(** The argument of the [sleep] at the end of the loop body. *)
Definition cadence_ms (k : Kind) : Z :=
  match k with Initial => 2000 | PreSigned => 500 end.

(** The right-hand side of the loop's comparison: [timeout / 1000] in
    [sendTransaction], [timeout] in [sendSignedTransaction]. *)
Definition loop_bound (k : Kind) (timeout : Z) : float :=
  match k with
  | Initial => PrimFloat.div (Number timeout) (Number 1000)
  | PreSigned => Number timeout
  end.

(** The commitment passed to [simulateTransaction]. *)
Definition simulate_commitment (k : Kind) : string :=
  match k with Initial => "processed" | PreSigned => "single" end.

(** What a call has fixed once its first [sendRawTransaction] has resolved:
    the [const]s and parameters that the two activities close over. *)
Record Submission : Type := {
  sub_kind : Kind;
  sub_transaction : loc;
  sub_rawTransaction : Bytes;
  sub_startTime : float;
  sub_txid : string;
  sub_timeout : Z;
  sub_confirmLevel : ConfirmLevel;
}.

(** The condition of the [while]:
    [!done && getUnixTs() - startTime < bound]. *)
Definition loop_continues (s : Submission) (done : bool) (clock_ms : Z) : bool :=
  negb done &&
  PrimFloat.ltb (PrimFloat.sub (getUnixTs clock_ms) (sub_startTime s))
                (loop_bound (sub_kind s) (sub_timeout s)).

Inductive LoopPc : Type :=
| LWarmup      (* suspended in the first [await sleep] *)
| LSleeping    (* suspended in the [await sleep] that ends the loop body *)
| LExited.     (* the [while] has been left *)

Inductive MainPc : Type :=
| MAwaitConfirmation   (* suspended in [await awaitTransactionSignatureConfirmation] *)
| MAwaitSimulation     (* suspended in [await simulateTransaction] *)
| MSettled (r : Outcome string).   (* the promise of the call has settled *)

Record State : Type := {
  world : World;
  done : bool;
  loop : LoopPc;
  main : MainPc;
}.

Definition log (e : Event) (st : State) : State :=
  {| world := {| heap := heap (world st); calls := calls (world st) ++ [e] |};
     done := done st; loop := loop st; main := main st |}.

Definition set_loop (pc : LoopPc) (st : State) : State :=
  {| world := world st; done := done st; loop := pc; main := main st |}.

Definition set_main (pc : MainPc) (st : State) : State :=
  {| world := world st; done := done st; loop := loop st; main := pc |}.

Definition mutate (tx : loc) (f : Transaction → Transaction) (st : State) : State :=
  {| world := {| heap := <[tx := f (heap (world st) tx)]> (heap (world st));
                 calls := calls (world st) |};
     done := done st; loop := loop st; main := main st |}.

(** [finally { done = true }]. *)
Definition finally_block (st : State) : State :=
  let st := log (EvSetDone (done st)) st in
  {| world := world st; done := true; loop := loop st; main := main st |}.

(** The [try] statement completes, normally or by a [throw]: the [finally]
    block runs and the completion becomes the outcome of the call. *)
Definition complete (r : Outcome string) (st : State) : State :=
  set_main (MSettled r) (finally_block st).

(** What the scheduler and the environment decide. *)
Inductive Action : Type :=
| ALoopWake (clock_ms : Z)
    (* the pending [sleep] of the loop resolves; the clock reads [clock_ms] *)
| AConfirmation (o : Outcome unit)
    (* the promise of [awaitTransactionSignatureConfirmation] settles *)
| ASimulation (o : Outcome (option SimulatedTransactionResponse))
              (effect : Transaction → Transaction).
    (* the promise of [simulateTransaction] settles: [o] is the [value] member
       of the response ([None] when there is none to read), [effect] is what
       the call did to the transaction object it was given *)

Section Submit.
Context (s : Submission).

(** The options of every [sendRawTransaction] in the file. *)
Definition send_options : SendOptions := {| skipPreflight := true |}.

(** The loop resumes: from the test of the [while] to the next [await],
    or out of the loop. *)
Definition loop_wake (clock_ms : Z) (st : State) : State :=
  let observed := done st in
  let st := log (EvLoopTest observed) st in
  if loop_continues s observed clock_ms then
    set_loop LSleeping
      (log (EvSleep (cadence_ms (sub_kind s)))
        (log (EvSendRawTransaction (sub_rawTransaction s) send_options) st))
  else set_loop LExited st.

(** The awaited confirmation settles: the rest of the [try] block, or the
    [catch (err)] block up to its [await]. *)
Definition on_confirmation (o : Outcome unit) (st : State) : State :=
  match o with
  | Fulfilled _ => complete (Fulfilled (sub_txid s)) st
  | Rejected err =>
      match get_prop err "timeout" with
      | None => complete (Rejected JTypeError) st
      | Some t =>
          if truthy t then
            complete
              (Rejected (new_Error (Some "Timed out awaiting confirmation on transaction")))
              st
          else
            set_main MAwaitSimulation
              (log (EvSimulate (sub_transaction s) (simulate_commitment (sub_kind s))) st)
      end
  end.

(** The awaited simulation settles: the inner [try]/[catch] leaves
    [simulateResult], and the rest of the [catch (err)] block throws. *)
Definition on_simulation (o : Outcome (option SimulatedTransactionResponse))
    (effect : Transaction → Transaction) (st : State) : State :=
  let simulateResult :=
    match o with
    | Fulfilled value => value
    | Rejected _ => None
    end in
  complete (Rejected (diagnose simulateResult)) (mutate (sub_transaction s) effect st).

Definition step (st : State) (a : Action) : option State :=
  match a with
  | ALoopWake clock_ms =>
      match loop st with
      | LExited => None
      | LWarmup | LSleeping => Some (loop_wake clock_ms st)
      end
  | AConfirmation o =>
      match main st with
      | MAwaitConfirmation => Some (on_confirmation o st)
      | _ => None
      end
  | ASimulation o effect =>
      match main st with
      | MAwaitSimulation => Some (on_simulation o effect st)
      | _ => None
      end
  end.

Fixpoint run (st : State) (schedule : list Action) : option State :=
  match schedule with
  | [] => Some st
  | a :: rest =>
      match step st a with
      | Some st' => run st' rest
      | None => None
      end
  end.

(** [let done = false], the start of the loop up to its first [await], and
    the call of the confirmation watcher. *)
Definition start (w : World) : State :=
  log (EvAwaitConfirmation (sub_txid s) (sub_timeout s) (sub_confirmLevel s))
    (log (EvSleep (warmup_ms (sub_kind s)))
      {| world := w; done := false; loop := LWarmup; main := MAwaitConfirmation |}).
End Submit.

(** [postSignTxCallback]: a synchronous call into the caller's code. *)
Definition Callback : Type := Heap → Heap * Outcome unit.

(** The statement [if (postSignTxCallback) { try { ... } catch (e) { ... } }]
    of [sendTransaction].  The [catch] block logs a template literal that
    holds the value it caught: the value is converted to a string, and that
    conversion can throw. *)
Definition run_callback (postSignTxCallback : option Callback) : Task unit :=
  match postSignTxCallback with
  | Some callback =>
      try_catch (emit EvCallback ;; foreign_call (fun h _ => callback h) tt)
                (fun e => if ToString_completes e then ret tt else throw JTypeError)
  | None => ret tt
  end.

Section Client.
Context (web3 : Web3) (connection : Connection).

(** [transaction.serialize()]. *)
Definition call_serialize (tx : loc) : Task Bytes :=
  emit (EvSerialize tx) ;; query tx (serialize web3).

(** [sendTransaction] up to and including the first
    [await sendRawTransaction]; [clock_ms] is the clock reading that
    [getUnixTs()] sees. *)
Definition sendTransaction_prelude (clock_ms : Z) (transaction : loc) (payer : Payer)
    (additionalSigners : list Account) (timeout : option Z)
    (confirmLevel : option ConfirmLevel) (postSignTxCallback : option Callback)
    : Task Submission :=
  signTransaction web3 connection transaction payer additionalSigners ;;
  rawTransaction ← call_serialize transaction;
  let startTime := getUnixTs clock_ms in
  run_callback postSignTxCallback ;;
  emit (EvSendRawTransaction rawTransaction send_options) ;;
  txid ← await (sendRawTransaction connection rawTransaction send_options);
  ret {| sub_kind := Initial; sub_transaction := transaction;
         sub_rawTransaction := rawTransaction; sub_startTime := startTime;
         sub_txid := txid; sub_timeout := default 30000 timeout;
         sub_confirmLevel := default processed confirmLevel |}.

(** [sendSignedTransaction] up to and including the first
    [await sendRawTransaction]. *)
Definition sendSignedTransaction_prelude (clock_ms : Z) (signedTransaction : loc)
    (timeout : option Z) (confirmLevel : option ConfirmLevel) : Task Submission :=
  rawTransaction ← call_serialize signedTransaction;
  let startTime := getUnixTs clock_ms in
  emit (EvSendRawTransaction rawTransaction send_options) ;;
  txid ← await (sendRawTransaction connection rawTransaction send_options);
  ret {| sub_kind := PreSigned; sub_transaction := signedTransaction;
         sub_rawTransaction := rawTransaction; sub_startTime := startTime;
         sub_txid := txid; sub_timeout := default 30000 timeout;
         sub_confirmLevel := default processed confirmLevel |}.
End Client.

(** A call that has gone as far as its schedule takes it. *)
Inductive Run : Type :=
| NotStarted (w : World) (e : JsValue)
    (* the prelude threw: the call rejected before [done] was declared *)
| Started (s : Submission) (st : State).

(** Runs a prelude and then the two activities under a schedule, from the
    store [h]; [None] if the schedule asks for a step that is not enabled.
    A prelude that throws starts no activity, and the schedule is not
    consulted. *)
Definition submit (prelude : Task Submission) (schedule : list Action) (h : Heap)
    : option Run :=
  match prelude (fresh h) with
  | (w', Rejected e) => Some (NotStarted w' e)
  | (w', Fulfilled s) => Started s <$> run s (start s w') schedule
  end.

Definition sendTransaction (web3 : Web3) (connection : Connection) (clock_ms : Z)
    (transaction : loc) (payer : Payer) (additionalSigners : list Account)
    (timeout : option Z) (confirmLevel : option ConfirmLevel)
    (postSignTxCallback : option Callback) : list Action → Heap → option Run :=
  submit (sendTransaction_prelude web3 connection clock_ms transaction payer
            additionalSigners timeout confirmLevel postSignTxCallback).

Definition sendSignedTransaction (web3 : Web3) (connection : Connection) (clock_ms : Z)
    (signedTransaction : loc) (timeout : option Z) (confirmLevel : option ConfirmLevel)
    : list Action → Heap → option Run :=
  submit (sendSignedTransaction_prelude web3 connection clock_ms signedTransaction
            timeout confirmLevel).

(** The outcome of the promise that the call returned, if it has settled. *)
Definition settled (r : Run) : option (Outcome string) :=
  match r with
  | NotStarted _ e => Some (Rejected e)
  | Started _ st =>
      match main st with
      | MSettled o => Some o
      | _ => None
      end
  end.

Definition run_calls (r : Run) : list Event :=
  match r with
  | NotStarted w _ => calls w
  | Started _ st => calls (world st)
  end.

(** ** The batch *)

(** [Promise.all] over promises of transaction ids.  [promises !! i] is how
    the [i]-th input settles ([None]: it never does) and [order] lists the
    inputs in the order in which they settle.  [values] and [remaining] are
    the list of results and the counter of the algorithm; an entry [None] of
    [values] is an input whose reaction has not run yet. *)
Fixpoint all_react (promises : list (option (Outcome string))) (order : list nat)
    (values : list (option string)) (remaining : nat)
    : option (Outcome (list string)) :=
  match order with
  | [] => None
  | i :: rest =>
      match promises !! i with
      | Some (Some (Rejected e)) => Some (Rejected e)
      | Some (Some (Fulfilled v)) =>
          match values !! i with
          | Some None =>
              let values' := <[i := Some v]> values in
              if (remaining =? 1)%nat then Some (Fulfilled (omap id values'))
              else all_react promises rest values' (remaining - 1)
          | _ => all_react promises rest values remaining
          end
      | _ => all_react promises rest values remaining
      end
  end.

Definition Promise_all (promises : list (option (Outcome string))) (order : list nat)
    : option (Outcome (list string)) :=
  match promises with
  | [] => Some (Fulfilled [])
  | _ => all_react promises order (replicate (length promises) None) (length promises)
  end.

(** What surrounds the [i]-th submission of a batch: the answers of the
    endpoint to it, the clock, its schedule and the store it works on. *)
Record SlotEnv : Type := {
  slot_connection : Connection;
  slot_clock_ms : Z;
  slot_schedule : list Action;
  slot_heap : Heap;
}.

Section Batch.
Context (web3 : Web3) (payer : Payer) (additionalSigners : list Account).

(** The call [this.sendTransaction(tx, payer, additionalSigners, timeout,
    confirmLevel)] made by the [map] for the [i]-th element. *)
Definition slot_run (timeout : Z) (confirmLevel : ConfirmLevel) (env : nat → SlotEnv)
    (i : nat) (tx : loc) : option Run :=
  sendTransaction web3 (slot_connection (env i)) (slot_clock_ms (env i)) tx payer
    additionalSigners (Some timeout) (Some confirmLevel) None
    (slot_schedule (env i)) (slot_heap (env i)).

(** [sendTransactions(transactions, payer, additionalSigners, timeout,
    confirmLevel)]; [order] is the order in which the submissions settle.
    [None]: the returned promise is still pending. *)
Definition sendTransactions (transactions : list loc) (timeout : option Z)
    (confirmLevel : option ConfirmLevel) (env : nat → SlotEnv) (order : list nat)
    : option (Outcome (list string)) :=
  let timeout := default 30000 timeout in
  let confirmLevel := default confirmed confirmLevel in
  Promise_all
    (imap (fun i tx => slot_run timeout confirmLevel env i tx ≫= settled) transactions)
    order.
End Batch.

(** ** Building a transaction and submitting it *)

(** [Keypair] of web3.js. *)
Record Keypair : Type := {
  kp_publicKey : PublicKey;
  kp_secretKey : string;
}.

(** What the promise of [createAccountInstruction] resolves to. *)
Record AccountInstruction : Type := {
  ai_keypair : Keypair;
  ai_instruction : string;
}.

(** [QuasarGroup]: the member that the client reads. *)
Record QuasarGroup : Type := { qg_signerKey : PublicKey }.

(** [I80F48] of the mango client; the client hands it on unread. *)
Definition I80F48 : Type := Z.

(** What the client imports to build its transactions.  Constructors and
    instruction builders are synchronous and may throw; the helpers of
    [./utils] and [connection.getAccountInfo] are asynchronous and are seen
    through the outcome of their promise.  [getAccountInfo] gives the [data]
    member of the account, or [None] when the endpoint answers [null].
    [makeInitQuasarGroupInstruction] takes the nonce as a number: the
    [new BN(...)] around it is evaluated at the same point, as part of the
    call. *)
Record Toolkit : Type := {
  new_Transaction : Transaction;
  add : list string → Transaction → Transaction + JsValue;
  new_Account : string → Account + JsValue;
  new_Keypair : Keypair;
  getAccountInfo : PublicKey → Outcome (option Bytes);
  makeInitQuasarGroupInstruction :
    PublicKey → PublicKey → PublicKey → PublicKey → PublicKey → Z → string + JsValue;
  makeAddBaseTokenInstruction :
    PublicKey → PublicKey → PublicKey → PublicKey → PublicKey → string + JsValue;
  makeAddLeverageTokenInstruction :
    PublicKey → PublicKey → PublicKey → PublicKey → PublicKey → PublicKey → PublicKey →
    PublicKey → PublicKey → PublicKey → I80F48 → string + JsValue;
  createAccountInstruction : PublicKey → Z → PublicKey → Outcome AccountInstruction;
  createSignerKeyAndNonce : PublicKey → PublicKey → Outcome (PublicKey * Z);
  QuasarGroupLayout_span : Z;
  MangoAccountLayout_span : Z;
  QuasarGroupLayout_decode : option Bytes → JsValue + JsValue;
  new_QuasarGroup : PublicKey → JsValue → QuasarGroup + JsValue;
}.

(** A synchronous call that returns a value or throws. *)
Definition eval {A} (x : A + JsValue) : Task A :=
  fun w =>
    match x with
    | inl a => (w, Fulfilled a)
    | inr e => (w, Rejected e)
    end.

(** [new Transaction()]: the new object is given the reference [tx]. *)
Definition allocate (init : Transaction) (tx : loc) : Task unit :=
  fun w => ({| heap := <[tx := init]> (heap w); calls := calls w |}, Fulfilled tt).

(** What a call of [initQuasarGroup] has come to. *)
Inductive GroupInit : Type :=
| SetupFailed (e : JsValue)
    (* a statement before the first [sendTransaction] threw *)
| FirstOnly (first : Run)
    (* the first submission has not resolved: the second one is not built *)
| Both (key : PublicKey) (first second : Run).
    (* the first submission resolved; [second] is the rest of the call *)

Section Operations.
Context (web3 : Web3) (connection : Connection) (toolkit : Toolkit) (programId : PublicKey).

(** [getQuasarGroup(quasarGroup)]. *)
Definition getQuasarGroup (quasarGroup : PublicKey) : Task QuasarGroup :=
  accountInfo ← await (getAccountInfo toolkit quasarGroup);
  decoded ← eval (QuasarGroupLayout_decode toolkit accountInfo);
  eval (new_QuasarGroup toolkit quasarGroup decoded).

(** [addBaseToken] up to its [sendTransaction]; [tx] is the reference of
    [addBaseTokenTransaction]. *)
Definition addBaseToken_transaction (quasarGroupPk mintPk oraclePk : PublicKey)
    (admin : Payer) (tx : loc) : Task unit :=
  addBaseTokenInstruction ←
    eval (makeAddBaseTokenInstruction toolkit programId quasarGroupPk mintPk oraclePk
            (payer_publicKey admin));
  allocate (new_Transaction toolkit) tx ;;
  method tx (add toolkit [addBaseTokenInstruction]).

(** [addBaseToken(quasarGroupPk, mintPk, oraclePk, admin)]: the promise it
    returns is the one of its [sendTransaction]. *)
Definition addBaseToken (clock_ms : Z) (quasarGroupPk mintPk oraclePk : PublicKey)
    (admin : Payer) (tx : loc) : list Action → Heap → option Run :=
  submit (addBaseToken_transaction quasarGroupPk mintPk oraclePk admin tx ;;
          sendTransaction_prelude web3 connection clock_ms tx admin [] None None None).

(** [addLeverageToken] up to its [sendTransaction]: the result is the list
    [signers]; [tx] is the reference of [addLeverageTokenTransaction]. *)
Definition addLeverageToken_transaction
    (quasarGroupPk baseTokenMintPk mangoProgram mangoGroup mangoPerpMarket : PublicKey)
    (admin : Payer) (targetLeverage : I80F48) (tx : loc) : Task (list Account) :=
  let mintKeypair := new_Keypair toolkit in
  mangoAccountInstruction ←
    await (createAccountInstruction toolkit (payer_publicKey admin)
             (MangoAccountLayout_span toolkit) mangoProgram);
  quasarGroup ← getQuasarGroup quasarGroupPk;
  addLeverageTokenInstruction ←
    eval (makeAddLeverageTokenInstruction toolkit programId quasarGroupPk
            (kp_publicKey mintKeypair) baseTokenMintPk mangoProgram mangoGroup
            (kp_publicKey (ai_keypair mangoAccountInstruction)) mangoPerpMarket
            (payer_publicKey admin) (qg_signerKey quasarGroup) targetLeverage);
  allocate (new_Transaction toolkit) tx ;;
  method tx (add toolkit [ai_instruction mangoAccountInstruction;
                          addLeverageTokenInstruction]) ;;
  mangoAccount ← eval (new_Account toolkit
                         (kp_secretKey (ai_keypair mangoAccountInstruction)));
  mint ← eval (new_Account toolkit (kp_secretKey mintKeypair));
  ret [mangoAccount; mint].

(** [addLeverageToken(...)], as far as its [sendTransaction] goes. *)
Definition addLeverageToken (clock_ms : Z)
    (quasarGroupPk baseTokenMintPk mangoProgram mangoGroup mangoPerpMarket : PublicKey)
    (admin : Payer) (targetLeverage : I80F48) (tx : loc)
    : list Action → Heap → option Run :=
  submit (signers ← addLeverageToken_transaction quasarGroupPk baseTokenMintPk
                      mangoProgram mangoGroup mangoPerpMarket admin targetLeverage tx;
          sendTransaction_prelude web3 connection clock_ms tx admin signers
            None None None).

(** The promise of [addLeverageToken]: [mintKeypair.publicKey] once the
    awaited submission has resolved. *)
Definition addLeverageToken_outcome (r : Run) : option (Outcome PublicKey) :=
  match settled r with
  | Some (Fulfilled _) => Some (Fulfilled (kp_publicKey (new_Keypair toolkit)))
  | Some (Rejected e) => Some (Rejected e)
  | None => None
  end.

(** [initQuasarGroup] up to its first [sendTransaction]; [tx] is the
    reference of [createAccountsTransaction]. *)
Definition initQuasarGroup_setup (payer : Payer) (tx : loc)
    : Task (AccountInstruction * (PublicKey * Z) * Account) :=
  accountInstruction ←
    await (createAccountInstruction toolkit (payer_publicKey payer)
             (QuasarGroupLayout_span toolkit) programId);
  keyAndNonce ←
    await (createSignerKeyAndNonce toolkit programId
             (kp_publicKey (ai_keypair accountInstruction)));
  allocate (new_Transaction toolkit) tx ;;
  method tx (add toolkit [ai_instruction accountInstruction]) ;;
  signer ← eval (new_Account toolkit (kp_secretKey (ai_keypair accountInstruction)));
  ret (accountInstruction, keyAndNonce, signer).

(** The statements between the two submissions of [initQuasarGroup]; [tx]
    is the reference of [initQuasarGroupTransaction]. *)
Definition initQuasarGroup_transaction (mangoProgram : PublicKey) (payer : Payer)
    (accountInstruction : AccountInstruction) (keyAndNonce : PublicKey * Z) (tx : loc)
    : Task unit :=
  initQuasarGroupInstruction ←
    eval (makeInitQuasarGroupInstruction toolkit programId
            (kp_publicKey (ai_keypair accountInstruction)) (fst keyAndNonce)
            (payer_publicKey payer) mangoProgram (snd keyAndNonce));
  allocate (new_Transaction toolkit) tx ;;
  method tx (add toolkit [initQuasarGroupInstruction]).

(** [initQuasarGroup(mangoProgram, payer)].  The two submissions have their
    own clock readings and schedules; the second one starts from the store
    that the first one left. *)
Definition initQuasarGroup (mangoProgram : PublicKey) (payer : Payer)
    (clock1_ms clock2_ms : Z) (tx1 tx2 : loc) (schedule1 schedule2 : list Action)
    (h : Heap) : option GroupInit :=
  match initQuasarGroup_setup payer tx1 (fresh h) with
  | (_, Rejected e) => Some (SetupFailed e)
  | (w, Fulfilled (accountInstruction, keyAndNonce, signer)) =>
      first ← sendTransaction web3 connection clock1_ms tx1 payer [signer]
                None None None schedule1 (heap w);
      match first, settled first with
      | Started _ st, Some (Fulfilled _) =>
          second ← submit
            (initQuasarGroup_transaction mangoProgram payer accountInstruction
               keyAndNonce tx2 ;;
             sendTransaction_prelude web3 connection clock2_ms tx2 payer []
               None None None)
            schedule2 (heap (world st));
          Some (Both (kp_publicKey (ai_keypair accountInstruction)) first second)
      | _, _ => Some (FirstOnly first)
      end
  end.
End Operations.

(** The promise of [initQuasarGroup]. *)
Definition initQuasarGroup_outcome (g : GroupInit) : option (Outcome PublicKey) :=
  match g with
  | SetupFailed e => Some (Rejected e)
  | FirstOnly first =>
      match settled first with
      | Some (Rejected e) => Some (Rejected e)
      | _ => None
      end
  | Both key _ second =>
      match settled second with
      | Some (Fulfilled _) => Some (Fulfilled key)
      | Some (Rejected e) => Some (Rejected e)
      | None => None
      end
  end.

(** ** A small instance of the environment, to run the model *)

Module Demo.
Definition with_signers (keys : list PublicKey) (t : Transaction) : Transaction :=
  {| instructions := instructions t; recentBlockhash := recentBlockhash t;
     signerKeys := keys; signatures := [] |}.

Definition add_signature (t : Transaction) (k : PublicKey) : Transaction :=
  {| instructions := instructions t; recentBlockhash := recentBlockhash t;
     signerKeys := signerKeys t;
     signatures := signatures t ++ [(k, "sig:" +:+ k)] |}.

Definition signer_key (x : Signer) : option PublicKey :=
  match x with
  | SAccount a => Some (acc_publicKey a)
  | SWallet _ | SUndefined => None
  end.

Definition signed_by (t : Transaction) (k : PublicKey) : bool :=
  bool_decide (k ∈ (fst <$> signatures t)).

(** A library that signs by appending a mark per key, refuses to sign with
    anything that is not an [Account], and serializes only a transaction
    that every required signer has signed. *)
Definition web3 : Web3 := {|
  setSigners keys t := inl (with_signers keys t);
  partialSign accounts t := inl (foldl add_signature t (acc_publicKey <$> accounts));
  sign signers t :=
    match mapM signer_key signers with
    | Some keys => inl (foldl add_signature (with_signers (signerKeys t) t) keys)
    | None => inr JTypeError
    end;
  serialize t :=
    if forallb (signed_by t) (signerKeys t)
    then inl (String.list_byte_of_string
                (String.concat "," (instructions t) +:+ "|" +:+
                 default "-" (recentBlockhash t) +:+ "|" +:+
                 String.concat "," (snd <$> signatures t)))
    else inr (JError "Signature verification failed");
|}.

Definition connection : Connection := {|
  getRecentBlockhash _ := Fulfilled "hash1";
  sendRawTransaction raw _ := Fulfilled ("txid" +:+ pretty (length raw));
|}.

Definition alice : Account := {| acc_publicKey := "alice"; acc_secretKey := "a-secret" |}.
Definition bob : Account := {| acc_publicKey := "bob"; acc_secretKey := "b-secret" |}.

Definition blank : Transaction :=
  {| instructions := ["transfer"]; recentBlockhash := None;
     signerKeys := []; signatures := [] |}.

Definition heap0 : Heap := fun _ => blank.

(** A wallet that signs the object it is given, in place. *)
Definition wallet_in_place (is_connected : bool) : WalletAdapter := {|
  wallet_publicKey := "wallet";
  connected := is_connected;
  wallet_signTransaction h tx := (<[tx := add_signature (h tx) "wallet"]> h, Fulfilled tx);
  wallet_signAllTransactions h txs :=
    (foldl (fun h tx => <[tx := add_signature (h tx) "wallet"]> h) h txs, Fulfilled txs);
|}.

(** A wallet that leaves its argument alone and answers with a signed
    copy, stored at reference [9]. *)
Definition wallet_copy : WalletAdapter := {|
  wallet_publicKey := "wallet";
  connected := true;
  wallet_signTransaction h tx := (<[9%positive := add_signature (h tx) "wallet"]> h, Fulfilled 9%positive);
  wallet_signAllTransactions h txs := (h, Fulfilled txs);
|}.

Definition on_chain_error : JsValue :=
  JObj [("InstructionError", JArr [JNum 0; JObj [("Custom", JNum 1)]])].

Definition sample_logs : list string :=
  ["Program log: step1"; "Program log: insufficient funds"; "Program consumed 100 units"].

Definition sim_response : SimulatedTransactionResponse :=
  {| sim_err := on_chain_error; sim_logs := Some sample_logs |}.

(** The loop of [sendTransaction] wakes 1000 ms after the start and every
    2000 ms from then on: its first [n] wakes. *)
Definition wakes (n : nat) : list Action :=
  (fun k => ALoopWake (1000 + 2000 * Z.of_nat k)) <$> seq 0 n.

(** One resend, then the watcher reports success; the loop wakes once
    more. *)
Definition schedule_success : list Action :=
  [ALoopWake 1000; AConfirmation (Fulfilled tt); ALoopWake 3000].

Definition timeout_error : JsValue := JObj [("timeout", JBool true)].

(** Fifteen resends, up to 29 s; the watcher gives up at 30 s; the loop
    wakes once more at 31 s. *)
Definition schedule_timeout : list Action :=
  wakes 15 ++ [AConfirmation (Rejected timeout_error); ALoopWake 31000].

(** The watcher reports an on-chain failure, the simulation answers, the
    loop wakes once more. *)
Definition schedule_failure : list Action :=
  [ALoopWake 1000; AConfirmation (Rejected on_chain_error);
   ASimulation (Fulfilled (Some sim_response)) id; ALoopWake 3000].

(** The same, with an endpoint that cannot be reached for the simulation. *)
Definition schedule_simulation_down : list Action :=
  [ALoopWake 1000; AConfirmation (Rejected on_chain_error);
   ASimulation (Rejected (JError "fetch failed")) id].

(** [sendTransaction(tx1, alice, [bob])] with the defaults. *)
Definition send (schedule : list Action) : option Run :=
  sendTransaction web3 connection 0 1%positive (PAccount alice) [bob] None None None
    schedule heap0.

(** [sendSignedTransaction({ signedTransaction: tx1 })], [tx1] holding a
    transaction that [alice] has signed. *)
Definition signed_heap : Heap :=
  fun _ => add_signature (with_signers ["alice"] blank) "alice".

Definition send_signed (schedule : list Action) : option Run :=
  sendSignedTransaction web3 connection 0 1%positive None None schedule signed_heap.
(** Fifteen resends, up to 29 s; then the watcher reports an on-chain
    failure, and the simulation has not answered yet. *)
Definition schedule_pending : list Action :=
  wakes 15 ++ [AConfirmation (Rejected on_chain_error)].

(** A batch of three: the endpoint names the first transaction [first] and
    the others by their position, and reports an on-chain failure for the
    second one. *)
Definition slot_env (first : string) (i : nat) : SlotEnv :=
  {| slot_connection :=
       {| getRecentBlockhash _ := Fulfilled "hash1";
          sendRawTransaction _ _ :=
            Fulfilled (if (i =? 0)%nat then first else "txid" +:+ pretty i) |};
     slot_clock_ms := 0;
     slot_schedule := if (i =? 1)%nat then schedule_failure else schedule_success;
     slot_heap := heap0 |}.

Definition batch (first : string) (order : list nat) : option (Outcome (list string)) :=
  sendTransactions web3 (PAccount alice) [] [1; 2; 3]%positive None None
    (slot_env first) order.

(** The outcome of the [i]-th submission of that batch, on its own. *)
Definition batch_slot (first : string) (i : nat) (tx : loc) : option (Outcome string) :=
  slot_run web3 (PAccount alice) [] 30000 confirmed (slot_env first) i tx ≫= settled.

(** A batch of two in which nothing fails. *)
Definition calm_env (i : nat) : SlotEnv :=
  {| slot_connection :=
       {| getRecentBlockhash _ := Fulfilled "hash1";
          sendRawTransaction _ _ := Fulfilled ("txid" +:+ pretty i) |};
     slot_clock_ms := 0;
     slot_schedule := schedule_success;
     slot_heap := heap0 |}.


(** An endpoint that hands out a blockhash and then cannot be reached. *)
Definition offline : Connection := {|
  getRecentBlockhash _ := Fulfilled "hash1";
  sendRawTransaction _ _ := Rejected (JError "fetch failed");
|}.

(** A callback that wipes every transaction object and throws. *)
Definition hostile_callback : Callback :=
  fun _ => (fun _ => {| instructions := []; recentBlockhash := None;
                        signerKeys := []; signatures := [] |},
            Rejected (JStr "boom")).

(** A callback that throws an object whose [toString] is not a function. *)
Definition unprintable_callback : Callback :=
  fun h => (h, Rejected (JObj [("toString", JNum 1)])).

(** Builders that write the name of the instruction, a library whose [add]
    appends, and helpers that always answer. *)
Definition toolkit : Toolkit := {|
  new_Transaction :=
    {| instructions := []; recentBlockhash := None; signerKeys := []; signatures := [] |};
  add new t :=
    inl {| instructions := instructions t ++ new; recentBlockhash := recentBlockhash t;
           signerKeys := signerKeys t; signatures := signatures t |};
  new_Account secret := inl {| acc_publicKey := "pk:" +:+ secret; acc_secretKey := secret |};
  new_Keypair := {| kp_publicKey := "pk:mint"; kp_secretKey := "mint" |};
  getAccountInfo _ := Fulfilled None;
  makeInitQuasarGroupInstruction _ _ _ _ _ _ := inl "initQuasarGroup";
  makeAddBaseTokenInstruction _ _ _ _ _ := inl "addBaseToken";
  makeAddLeverageTokenInstruction _ _ _ _ _ _ _ _ _ _ _ := inl "addLeverageToken";
  createAccountInstruction _ _ _ :=
    Fulfilled {| ai_keypair := {| kp_publicKey := "pk:group"; kp_secretKey := "group" |};
                 ai_instruction := "createAccount" |};
  createSignerKeyAndNonce _ _ := Fulfilled ("signer", 255);
  QuasarGroupLayout_span := 1000;
  MangoAccountLayout_span := 4000;
  QuasarGroupLayout_decode _ := inl JNull;
  new_QuasarGroup _ _ := inl {| qg_signerKey := "signer" |};
|}.

(** [initQuasarGroup('mango', alice)]: the first submission is confirmed,
    the second one follows [schedule2]. *)
Definition init_group (schedule2 : list Action) : option GroupInit :=
  initQuasarGroup web3 connection toolkit "program" "mango" (PAccount alice) 0 5000
    1%positive 2%positive schedule_success schedule2 heap0.

End Demo.

(** * Vocabulary of the properties *)

(** [emits P m]: whatever [m] does, it only appends to the log, and every
    event it appends satisfies [P]. *)
Definition emits {A} (P : Event → Prop) (m : Task A) : Prop :=
  ∀ w w' o, m w = (w', o) → ∃ evs, calls w' = calls w ++ evs ∧ Forall P evs.

(** The events of the signer coordinator. *)
Definition signing_event (e : Event) : Prop :=
  match e with
  | EvGetRecentBlockhash _ | EvSetRecentBlockhash _ _ | EvSetSigners _ _
  | EvPartialSign _ _ | EvSign _ _ | EvWalletSignTransaction _
  | EvWalletSignAllTransactions _ => True
  | _ => False
  end.

(** The events of a prelude: signing, serialization, the callback, and a
    send with the options of the file. *)
Definition prelude_event (e : Event) : Prop :=
  match e with
  | EvSleep _ | EvAwaitConfirmation _ _ _ | EvSimulate _ _ | EvLoopTest _
  | EvSetDone _ => False
  | EvSendRawTransaction _ opts => opts = send_options
  | _ => True
  end.

(** The writes to [done] recorded in a log: the value each one replaced. *)
Definition done_writes (evs : list Event) : list bool :=
  omap (fun e => match e with EvSetDone b => Some b | _ => None end) evs.

Definition is_send (e : Event) : Prop :=
  match e with EvSendRawTransaction _ _ => True | _ => False end.

(** No send is logged after the loop has read [done] as [true]. *)
Definition no_send_after_stop (evs : list Event) : Prop :=
  ∀ i j e, evs !! i = Some (EvLoopTest true) → evs !! j = Some e →
           (i < j)%nat → ¬ is_send e.

Definition is_settled (pc : MainPc) : bool :=
  match pc with MSettled _ => true | _ => false end.

(** [calls] only grows, one step at a time. *)
Definition appended (st st' : State) (evs : list Event) : Prop :=
  calls (world st') = calls (world st) ++ evs.

(** The flag is [false] until the call settles and [true] from then on,
    and the log holds its single write. *)
Definition flag_invariant (base : list bool) (st : State) : Prop :=
  done st = is_settled (main st) ∧
  done_writes (calls (world st)) = base ++ (if done st then [false] else []).

(** Once the loop has read [true] it has left the [while], and nothing
    was sent after that read. *)
Definition stop_invariant (st : State) : Prop :=
  (EvLoopTest true ∈ calls (world st) → loop st = LExited) ∧
  no_send_after_stop (calls (world st)).

(** [r] is what a call of [sendTransaction] has come to under [schedule]. *)
Definition from_sendTransaction (schedule : list Action) (r : Run) : Prop :=
  ∃ web3 connection clock tx payer signers timeout level cb h,
    sendTransaction web3 connection clock tx payer signers timeout level cb schedule h
    = Some r.

Definition from_sendSignedTransaction (schedule : list Action) (r : Run) : Prop :=
  ∃ web3 connection clock tx timeout level h,
    sendSignedTransaction web3 connection clock tx timeout level schedule h = Some r.

Definition submission_run_under (schedule : list Action) (r : Run) : Prop :=
  from_sendTransaction schedule r ∨ from_sendSignedTransaction schedule r.

Definition submission_run (r : Run) : Prop :=
  ∃ schedule, submission_run_under schedule r.

Definition is_simulate (e : Event) : bool :=
  match e with EvSimulate _ _ => true | _ => false end.

Definition is_set_done (e : Event) : bool :=
  match e with EvSetDone _ => true | _ => false end.

(** The events that the broadcast loop logs. *)
Definition loop_event (s : Submission) (e : Event) : Prop :=
  match e with
  | EvLoopTest _ => True
  | EvSendRawTransaction raw opts => raw = sub_rawTransaction s ∧ opts = send_options
  | EvSleep ms => ms = cadence_ms (sub_kind s)
  | _ => False
  end.

(** The message of the [Error] thrown on the timeout path. *)
Definition timed_out : JsValue :=
  JError "Timed out awaiting confirmation on transaction".

(** The message of the [Error] thrown when there is no diagnosis. *)
Definition generic_failure : JsValue := JError "Transaction failed".

(** The log that a prelude leaves when it succeeds: the signing calls, one
    [serialize], the callback if any, and the first send. *)
Definition prelude_log (s : Submission) (evs : list Event) : Prop :=
  ∃ signing callbacks,
    evs = signing ++ [EvSerialize (sub_transaction s)] ++ callbacks ++
          [EvSendRawTransaction (sub_rawTransaction s) send_options] ∧
    Forall signing_event signing ∧ Forall (fun e => e = EvCallback) callbacks.

(** The events that are logged once the two activities run. *)
Definition activity_event (s : Submission) (e : Event) : Prop :=
  match e with
  | EvLoopTest _ | EvSetDone _ => True
  | EvSendRawTransaction raw opts => raw = sub_rawTransaction s ∧ opts = send_options
  | EvSleep ms => ms = warmup_ms (sub_kind s) ∨ ms = cadence_ms (sub_kind s)
  | EvAwaitConfirmation txid timeout level =>
      txid = sub_txid s ∧ timeout = sub_timeout s ∧ level = sub_confirmLevel s
  | EvSimulate tx commitment =>
      tx = sub_transaction s ∧ commitment = simulate_commitment (sub_kind s)
  | _ => False
  end.

(** The line starts with the program-log tag. *)
Definition tagged (line : string) : bool := startsWith line program_log_tag.

(** The diagnosis in the words of the specification: of the lines that
    carry the program-log tag, the last one, without its tag. *)
Definition last_program_log (logs : list string) : option string :=
  slice (String.length program_log_tag) <$> last (filter (fun l => tagged l) logs).

(** The message of the [Error] that a call rejected with. *)
Definition rejection_message (o : Outcome string) : option string :=
  match o with
  | Rejected (JError m) => Some m
  | _ => None
  end.

(** While the watcher is awaited, nothing has been simulated and [done]
    has not been written. *)
Definition pending_invariant (st : State) : Prop :=
  main st = MAwaitConfirmation →
  Forall (fun e => is_simulate e = false ∧ is_set_done e = false) (calls (world st)).

(** The flag and the program counter of the loop of a started run. *)
Definition flag_and_loop (r : Run) : option (bool * LoopPc) :=
  match r with
  | NotStarted _ _ => None
  | Started _ st => Some (done st, loop st)
  end.

(** [getUnixTs() - startTime], at a clock reading. *)
Definition elapsed (s : Submission) (clock_ms : Z) : float :=
  PrimFloat.sub (getUnixTs clock_ms) (sub_startTime s).

(** The final signing calls: by the wallet, and by [transaction.sign]. *)
Definition is_wallet_sign (e : Event) : bool :=
  match e with
  | EvWalletSignTransaction _ | EvWalletSignAllTransactions _ => true
  | _ => false
  end.

Definition is_local_sign (e : Event) : bool :=
  match e with EvSign _ _ => true | _ => false end.

Definition no_final_sign (e : Event) : Prop :=
  is_wallet_sign e = false ∧ is_local_sign e = false.

(** The log of the statements of [signTransaction] before the dispatch,
    when none of them throws. *)
Definition attach_log (tx : loc) (payer : Payer) (signers : list Account)
    (blockhash : string) : list Event :=
  [EvGetRecentBlockhash None;
   EvSetRecentBlockhash tx blockhash;
   EvSetSigners tx (payer_publicKey payer :: (acc_publicKey <$> signers))] ++
  (if (0 <? length signers)%nat then [EvPartialSign tx signers] else []).

(** The wallet [wallet], except that the promise of its [signTransaction]
    resolves to the object [answer]; what the call does to the store is
    the same. *)
Definition answering (answer : loc) (wallet : WalletAdapter) : WalletAdapter :=
  {| wallet_publicKey := wallet_publicKey wallet;
     connected := connected wallet;
     wallet_signTransaction h tx :=
       match wallet_signTransaction wallet h tx with
       | (h', Fulfilled _) => (h', Fulfilled answer)
       | (h', Rejected e) => (h', Rejected e)
       end;
     wallet_signAllTransactions := wallet_signAllTransactions wallet |}.

(** The inputs of a [Promise.all] whose reaction has not run yet. *)
Definition pending (values : list (option string)) : nat :=
  length (filter (fun v => v = None) values).

(** The promise of the [i]-th submission of a batch rejects. *)
Definition rejects (promises : list (option (Outcome string))) (i : nat) : Prop :=
  ∃ e, promises !! i = Some (Some (Rejected e)).

(** The promises that [sendTransactions] hands to [Promise.all]: how each
    submission of the batch settles. *)
Definition slot_promises (web3 : Web3) (payer : Payer) (signers : list Account)
    (transactions : list loc) (timeout : option Z) (level : option ConfirmLevel)
    (env : nat → SlotEnv) : list (option (Outcome string)) :=
  imap (fun i tx =>
          slot_run web3 payer signers (default 30000 timeout) (default confirmed level)
            env i tx ≫= settled) transactions.

(** The payloads of the [sendRawTransaction] calls of a log, in order. *)
Definition sent_payloads (evs : list Event) : list Bytes :=
  omap (fun e => match e with EvSendRawTransaction raw _ => Some raw | _ => None end) evs.

Definition callback_log (postSignTxCallback : option Callback) : list Event :=
  match postSignTxCallback with
  | Some _ => [EvCallback]
  | None => []
  end.

(** The callback, called on the store [h], throws a value whose conversion
    to a string throws: the [catch] block around the call throws in turn. *)
Definition callback_breaks (postSignTxCallback : option Callback) (h : Heap) : bool :=
  match postSignTxCallback with
  | Some callback =>
      match callback h with
      | (_, Rejected e) => negb (ToString_completes e)
      | (_, Fulfilled _) => false
      end
  | None => false
  end.

(** Why a call of [sendTransaction] can reject before its loop starts:
    signing throws, [serialize] throws, the [catch] block around the
    callback throws a [TypeError], or the first [sendRawTransaction]
    rejects. *)
Definition early_failure (web3 : Web3) (connection : Connection) (tx : loc)
    (payer : Payer) (signers : list Account) (postSignTxCallback : option Callback)
    (h : Heap) (e : JsValue) : Prop :=
  (∃ w1, signTransaction web3 connection tx payer signers (fresh h) = (w1, Rejected e)) ∨
  (∃ w1 signed,
     signTransaction web3 connection tx payer signers (fresh h) = (w1, Fulfilled signed) ∧
     (serialize web3 (heap w1 tx) = inr e ∨
      ∃ raw, serialize web3 (heap w1 tx) = inl raw ∧
             (callback_breaks postSignTxCallback (heap w1) = true ∧ e = JTypeError ∨
              callback_breaks postSignTxCallback (heap w1) = false ∧
              sendRawTransaction connection raw send_options = Rejected e))).

(** The callback of a call of [sendTransaction] is reached, on the store
    that signing left, and the [catch] block around it throws. *)
Definition callback_stops (web3 : Web3) (connection : Connection) (tx : loc)
    (payer : Payer) (signers : list Account) (callback : Callback) (h : Heap) : bool :=
  match signTransaction web3 connection tx payer signers (fresh h) with
  | (w1, Fulfilled _) =>
      match serialize web3 (heap w1 tx) with
      | inl _ => callback_breaks (Some callback) (heap w1)
      | inr _ => false
      end
  | (_, Rejected _) => false
  end.

(** Two states of the two activities that differ at most in the store and
    in what was logged before. *)
Definition same_control (st1 st2 : State) : Prop :=
  done st1 = done st2 ∧ loop st1 = loop st2 ∧ main st1 = main st2.

(** A log with the calls of [postSignTxCallback] taken out. *)
Definition without_callback (evs : list Event) : list Event :=
  omap (fun e => match e with EvCallback => None | _ => Some e end) evs.

(** The promise of a call resolves, and then to [txid], exactly when the
    call got as far as its loop, the watcher reported success, and [txid]
    is what the endpoint answered to the first send. *)
Definition resolves_as_first_send (connection : Connection) (schedule : list Action)
    (r : Run) : Prop :=
  ∀ txid,
    settled r = Some (Fulfilled txid) ↔
    ∃ s st, r = Started s st ∧ AConfirmation (Fulfilled tt) ∈ schedule ∧
            sendRawTransaction connection (sub_rawTransaction s) send_options
            = Fulfilled txid.

(** The action makes the call settle, when it is taken while the watcher
    or the simulation is awaited: every answer does, except a rejection of
    the watcher whose [timeout] member can be read and is falsy, which leads
    to the simulation. *)
Definition settles (a : Action) : bool :=
  match a with
  | ALoopWake _ => false
  | AConfirmation (Fulfilled _) => true
  | AConfirmation (Rejected err) =>
      match get_prop err "timeout" with
      | Some t => truthy t
      | None => true
      end
  | ASimulation _ _ => true
  end.

(** The wakes of the loop that come before the call settles and at which
    [in_time] holds of the clock reading. *)
Fixpoint resends (in_time : Z → bool) (schedule : list Action) : nat :=
  match schedule with
  | [] => 0
  | a :: rest =>
      if settles a then 0%nat
      else match a with
           | ALoopWake clock_ms =>
               if in_time clock_ms then S (resends in_time rest)
               else resends in_time rest
           | _ => resends in_time rest
           end
  end.

(** The second conjunct of the test of the [while], for a call that
    started at the clock reading [start_ms]:
    [getUnixTs() - startTime < bound]. *)
Definition in_window (bound : float) (start_ms clock_ms : Z) : bool :=
  PrimFloat.ltb (PrimFloat.sub (getUnixTs clock_ms) (getUnixTs start_ms)) bound.

(** How a call that got as far as its loop can come to reject with [e]:
    reading [err.timeout] of the watcher's rejection raised a [TypeError],
    the rejection was a timeout, or the simulation settled and the
    diagnosis threw. *)
Definition rejection_cause (schedule : list Action) (e : JsValue) : Prop :=
  (∃ err, AConfirmation (Rejected err) ∈ schedule ∧
          get_prop err "timeout" = None ∧ e = JTypeError) ∨
  (∃ err t, AConfirmation (Rejected err) ∈ schedule ∧
            get_prop err "timeout" = Some t ∧ truthy t = true ∧ e = timed_out) ∨
  (∃ err t o eff, AConfirmation (Rejected err) ∈ schedule ∧
                  get_prop err "timeout" = Some t ∧ truthy t = false ∧
                  ASimulation o eff ∈ schedule ∧
                  e = diagnose match o with Fulfilled v => v | Rejected _ => None end).

(** The calls that the first [forEach] of [signTransactions] makes for one
    entry, when none of them throws. *)
Definition item_log (payer : Payer) (blockhash : string) (item : TransactionAndSigners)
    : list Event :=
  let signers := default [] (tas_signers item) in
  [EvSetRecentBlockhash (tas_transaction item) blockhash;
   EvSetSigners (tas_transaction item)
     (payer_publicKey payer :: (acc_publicKey <$> signers))] ++
  (if (0 <? length signers)%nat then [EvPartialSign (tas_transaction item) signers]
   else []).

(** The final signing calls of [signTransactions]: one call of the wallet
    for the whole list, or one [transaction.sign] per entry. *)
Definition final_sign_log (payer : Payer) (items : list TransactionAndSigners)
    : list Event :=
  match not_instanceof_Account payer with
  | Some _ => [EvWalletSignAllTransactions (tas_transaction <$> items)]
  | None =>
      (fun item => EvSign (tas_transaction item) (concat_signers payer (tas_signers item)))
        <$> items
  end.

Definition is_partial_sign (e : Event) : bool :=
  match e with EvPartialSign _ _ => true | _ => false end.

(** The segment makes no call that is logged: it signs nothing, sends
    nothing and awaits nothing of the submission machinery. *)
Definition silent {A} (m : Task A) : Prop := emits (fun _ => False) m.

(** The calls of the confirmation watcher in a log, with their arguments. *)
Definition watched (evs : list Event) : list (string * Z * ConfirmLevel) :=
  omap (fun e => match e with
                 | EvAwaitConfirmation txid timeout level => Some (txid, timeout, level)
                 | _ => None
                 end) evs.

(** The calls of [simulateTransaction] in a log, with their arguments. *)
Definition simulated (evs : list Event) : list (loc * string) :=
  omap (fun e => match e with
                 | EvSimulate tx commitment => Some (tx, commitment)
                 | _ => None
                 end) evs.

(** The receivers of the [serialize] calls in a log. *)
Definition serialized (evs : list Event) : list loc :=
  omap (fun e => match e with EvSerialize tx => Some tx | _ => None end) evs.

(** The watcher has been called once, [serialize] once, and the simulation
    at most once, and then not while the watcher is awaited. *)
Definition calls_invariant (s : Submission) (st : State) : Prop :=
  watched (calls (world st)) = [(sub_txid s, sub_timeout s, sub_confirmLevel s)] ∧
  serialized (calls (world st)) = [sub_transaction s] ∧
  (simulated (calls (world st)) = [] ∨
   simulated (calls (world st))
   = [(sub_transaction s, simulate_commitment (sub_kind s))] ∧
   main st ≠ MAwaitConfirmation).

(** The store that a run has come to. *)
Definition run_heap (r : Run) : Heap :=
  match r with
  | NotStarted w _ => heap w
  | Started _ st => heap (world st)
  end.

Definition is_simulation (a : Action) : bool :=
  match a with ASimulation _ _ => true | _ => false end.

(** * Properties *)

(** ** The model at work *)

Example truthy_values :
  truthy <$> [JNull; JUndefined; JNum 0; JStr EmptyString; JStr "AccountInUse";
              JObj []; JArr []; JBool false]
  = [false; false; false; false; true; true; true; false].
Proof. reflexivity. Qed.

Example stringify_array :
  JSON_stringify (JArr [JNum 0; JUndefined; JBool true; JNum (-12); JNull])
  = Some "[0,null,true,-12,null]".
Proof. vm_compute. reflexivity. Qed.

Example stringify_numbers :
  JSON_stringify (JArr [JNum (2 ^ 53 + 1); JNum (2 ^ 60); JNum (- 10 ^ 21);
                        JNum (2 ^ 70); JNum (2 ^ 1024)])
  = Some "[9007199254740992,1152921504606847000,-1e+21,1.1805916207174113e+21,null]".
Proof. vm_compute. reflexivity. Qed.

Example stringify_object :
  JSON_stringify Demo.on_chain_error
  = Some ("{" +:+ quote "InstructionError" +:+ ":[0,{" +:+ quote "Custom" +:+ ":1}]}").
Proof. vm_compute. reflexivity. Qed.

Example stringify_escapes :
  JSON_stringify (JStr (String (Ascii.ascii_of_nat 10) (String dquote "x")))
  = Some (String dquote
            (String backslash ("n" +:+ String backslash (String dquote ("x" +:+ one dquote))))).
Proof. vm_compute. reflexivity. Qed.

Example timeout_member :
  get_prop Demo.timeout_error "timeout" = Some (JBool true) ∧
  get_prop Demo.on_chain_error "timeout" = Some JUndefined ∧
  get_prop (JStr "AccountInUse") "timeout" = Some JUndefined ∧
  get_prop JNull "timeout" = None.
Proof. repeat split; reflexivity. Qed.

Example diagnose_sample :
  diagnose (Some Demo.sim_response) = JError "Transaction failed: insufficient funds".
Proof. vm_compute. reflexivity. Qed.

Example diagnose_untagged :
  diagnose (Some {| sim_err := JStr "AccountInUse";
                    sim_logs := Some ["Program consumed 100 units"] |})
  = JError (quote "AccountInUse").
Proof. vm_compute. reflexivity. Qed.

Example diagnose_without_logs :
  diagnose (Some {| sim_err := JStr "AccountInUse"; sim_logs := None |})
  = JError (quote "AccountInUse").
Proof. vm_compute. reflexivity. Qed.

Example diagnose_without_error :
  diagnose (Some {| sim_err := JNull; sim_logs := Some Demo.sample_logs |})
  = JError "Transaction failed".
Proof. vm_compute. reflexivity. Qed.

Example run_success :
  Demo.send Demo.schedule_success ≫= settled = Some (Fulfilled "txid32") ∧
  Demo.send Demo.schedule_success ≫= flag_and_loop = Some (true, LExited).
Proof. split; vm_compute; reflexivity. Qed.

Example run_presigned :
  Demo.send_signed Demo.schedule_success ≫= settled = Some (Fulfilled "txid20") ∧
  Demo.send_signed Demo.schedule_success ≫= flag_and_loop = Some (true, LExited).
Proof. split; vm_compute; reflexivity. Qed.

(** A schedule that asks the simulation to settle before the watcher has is
    not a run. *)
Example run_refused :
  Demo.send [ASimulation (Rejected JNull) id] = None.
Proof. vm_compute. reflexivity. Qed.

(** ** The log of a sequential segment *)

Section Emits.
Context {A B : Type} (P : Event → Prop).

Lemma emits_ret (a : A) : emits P (mret a).
Proof. intros w w' o [= <- <-]. exists []. by rewrite app_nil_r. Qed.

Lemma emits_throw (e : JsValue) : emits P (@throw A e).
Proof. intros w w' o [= <- <-]. exists []. by rewrite app_nil_r. Qed.

Lemma emits_await (o : Outcome A) : emits P (await o).
Proof. intros w w' o' [= <- <-]. exists []. by rewrite app_nil_r. Qed.

Lemma emits_emit (e : Event) : P e → emits P (emit e).
Proof. intros He w w' o [= <- <-]. exists [e]. split; [done | by constructor]. Qed.

Lemma emits_method (tx : loc) (f : Transaction → Transaction + JsValue) :
  emits P (method tx f).
Proof.
  intros w w' o. unfold method.
  destruct (f (heap w tx)); intros [= <- <-]; exists []; by rewrite app_nil_r.
Qed.

Lemma emits_query (tx : loc) (f : Transaction → A + JsValue) : emits P (query tx f).
Proof.
  intros w w' o. unfold query.
  destruct (f (heap w tx)); intros [= <- <-]; exists []; by rewrite app_nil_r.
Qed.

Lemma emits_foreign_call {C} (f : Heap → C → Heap * Outcome A) (c : C) :
  emits P (foreign_call f c).
Proof.
  intros w w' o. unfold foreign_call.
  destruct (f (heap w) c); intros [= <- <-]; exists []; by rewrite app_nil_r.
Qed.

Lemma emits_bind (m : Task A) (k : A → Task B) :
  emits P m → (∀ a, emits P (k a)) → emits P (m ≫= k).
Proof.
  intros Hm Hk w w' o. unfold mbind, Task_bind, bind.
  destruct (m w) as [w1 [a|e]] eqn:E; destruct (Hm _ _ _ E) as (evs & Hc & HP).
  - intros Hka. destruct (Hk _ _ _ _ Hka) as (evs' & Hc' & HP').
    exists (evs ++ evs'). rewrite Hc', Hc, app_assoc. split; [done|].
    by apply Forall_app.
  - intros [= <- <-]. eauto.
Qed.

Lemma emits_try_catch (m : Task A) (h : JsValue → Task A) :
  emits P m → (∀ e, emits P (h e)) → emits P (try_catch m h).
Proof.
  intros Hm Hh w w' o. unfold try_catch.
  destruct (m w) as [w1 [a|e]] eqn:E; destruct (Hm _ _ _ E) as (evs & Hc & HP).
  - intros [= <- <-]. eauto.
  - intros Hhe. destruct (Hh _ _ _ _ Hhe) as (evs' & Hc' & HP').
    exists (evs ++ evs'). rewrite Hc', Hc, app_assoc. split; [done|].
    by apply Forall_app.
Qed.
End Emits.

Lemma emits_forEach {A} (P : Event → Prop) (f : A → Task unit) (l : list A) :
  (∀ a, emits P (f a)) → emits P (forEach f l).
Proof.
  intros Hf. induction l as [|x l IH]; simpl.
  - apply emits_ret.
  - apply emits_bind; [apply Hf | intros _; apply IH].
Qed.

Lemma emits_weaken {A} (P Q : Event → Prop) (m : Task A) :
  (∀ e, P e → Q e) → emits P m → emits Q m.
Proof.
  intros HPQ Hm w w' o E. destruct (Hm _ _ _ E) as (evs & Hc & HP).
  exists evs. split; [done|]. eapply Forall_impl; eauto.
Qed.

Lemma run_callback_emits (P : Event → Prop) (cb : option Callback) :
  P EvCallback → emits P (run_callback cb).
Proof.
  intros HP. destruct cb as [callback|]; simpl; [|apply emits_ret].
  apply emits_try_catch.
  - apply emits_bind; [by apply emits_emit | intros ?; apply emits_foreign_call].
  - intros e. destruct (ToString_completes e); [apply emits_ret | apply emits_throw].
Qed.

Ltac emits_step :=
  first
    [ apply emits_bind; [| intros ?]
    | apply emits_ret
    | apply emits_await
    | apply emits_method
    | apply emits_query
    | apply emits_foreign_call
    | apply emits_emit; simpl; try done
    | apply run_callback_emits; simpl; try done
    | apply emits_try_catch; [| intros ?] ].

Lemma signTransaction_emits web3 connection tx payer signers :
  emits signing_event (signTransaction web3 connection tx payer signers).
Proof.
  unfold signTransaction, attach_signers. apply emits_bind; [| intros _].
  - repeat emits_step. destruct (0 <? length signers)%nat; repeat emits_step.
  - destruct (payer_connected payer); repeat emits_step.
Qed.

Lemma sendTransaction_prelude_emits web3 connection clock tx payer signers timeout level cb :
  emits prelude_event
    (sendTransaction_prelude web3 connection clock tx payer signers timeout level cb).
Proof.
  unfold sendTransaction_prelude, call_serialize.
  apply emits_bind; [| intros _].
  { eapply emits_weaken; [| apply signTransaction_emits]. by intros []. }
  repeat emits_step.
Qed.

Lemma sendSignedTransaction_prelude_emits web3 connection clock tx timeout level :
  emits prelude_event
    (sendSignedTransaction_prelude web3 connection clock tx timeout level).
Proof. unfold sendSignedTransaction_prelude, call_serialize. repeat emits_step. Qed.

(** ** Inversion of sequential segments *)

Lemma bind_Fulfilled {A B} (m : Task A) (k : A → Task B) w w' b :
  (m ≫= k) w = (w', Fulfilled b) →
  ∃ w1 a, m w = (w1, Fulfilled a) ∧ k a w1 = (w', Fulfilled b).
Proof.
  unfold mbind, Task_bind, bind. destruct (m w) as [w1 [a|e]]; [eauto | done].
Qed.

Lemma emit_inv e w w' o :
  emit e w = (w', o) →
  w' = {| heap := heap w; calls := calls w ++ [e] |} ∧ o = Fulfilled tt.
Proof. by intros [= <- <-]. Qed.

Lemma await_inv {A} (o o' : Outcome A) w w' :
  await o w = (w', o') → w' = w ∧ o' = o.
Proof. by intros [= <- <-]. Qed.

Lemma ret_inv {A} (a : A) w w' o :
  ret a w = (w', o) → w' = w ∧ o = Fulfilled a.
Proof. by intros [= <- <-]. Qed.

Lemma query_Fulfilled {A} tx (f : Transaction → A + JsValue) w w' a :
  query tx f w = (w', Fulfilled a) → w' = w ∧ f (heap w tx) = inl a.
Proof. unfold query. destruct (f (heap w tx)); by intros [= <- <-]. Qed.

Lemma method_Fulfilled tx (f : Transaction → Transaction + JsValue) w w' u :
  method tx f w = (w', Fulfilled u) →
  ∃ t', f (heap w tx) = inl t' ∧
        w' = {| heap := <[tx := t']> (heap w); calls := calls w |}.
Proof. unfold method. destruct (f (heap w tx)); intros [= <-]; eauto. Qed.

(** ** The log and the flag of the two activities *)

Lemma done_writes_app l1 l2 : done_writes (l1 ++ l2) = done_writes l1 ++ done_writes l2.
Proof. apply omap_app. Qed.

Lemma done_writes_prelude evs : Forall prelude_event evs → done_writes evs = [].
Proof.
  induction 1 as [|e l He _ IH]; [done|].
  destruct e; try done; exact IH.
Qed.

Lemma no_send_after_stop_fresh l new :
  EvLoopTest true ∉ l → no_send_after_stop new → no_send_after_stop (l ++ new).
Proof.
  intros Hl Hnew i j e Hi Hj Hij.
  apply lookup_app_Some in Hi as [Hi | [Hli Hi]].
  { exfalso. apply Hl. by eapply list_elem_of_lookup_2. }
  apply lookup_app_Some in Hj as [Hj | [Hlj Hj]].
  { apply lookup_lt_Some in Hj. lia. }
  eapply Hnew; eauto. lia.
Qed.

Lemma no_send_after_stop_quiet l new :
  no_send_after_stop l → Forall (fun e => ¬ is_send e) new →
  no_send_after_stop (l ++ new).
Proof.
  intros Hl Hnew i j e Hi Hj Hij.
  apply lookup_app_Some in Hj as [Hj | [Hlj Hj]].
  - apply lookup_app_Some in Hi as [Hi | [Hli Hi]].
    + eauto.
    + apply lookup_lt_Some in Hj. lia.
  - rewrite Forall_lookup in Hnew. eauto.
Qed.

Section Invariants.
Context (s : Submission).

Lemma loop_wake_spec clock st :
  let st' := loop_wake s clock st in
  done st' = done st ∧ main st' = main st ∧ heap (world st') = heap (world st) ∧
  ((loop_continues s (done st) clock = true ∧ loop st' = LSleeping ∧
    appended st st' [EvLoopTest (done st);
                     EvSendRawTransaction (sub_rawTransaction s) send_options;
                     EvSleep (cadence_ms (sub_kind s))]) ∨
   (loop_continues s (done st) clock = false ∧ loop st' = LExited ∧
    appended st st' [EvLoopTest (done st)])).
Proof.
  unfold loop_wake, appended. destruct (loop_continues s (done st) clock); simpl.
  - repeat split; try done. left. repeat split; try done.
    by rewrite <- !app_assoc.
  - repeat split; try done. by right.
Qed.

Lemma complete_spec r st :
  let st' := complete r st in
  done st' = true ∧ main st' = MSettled r ∧ loop st' = loop st ∧
  heap (world st') = heap (world st) ∧ appended st st' [EvSetDone (done st)].
Proof. done. Qed.

Lemma flag_invariant_step base st a st' :
  flag_invariant base st → step s st a = Some st' → flag_invariant base st'.
Proof.
  intros [Hd Hw] Hstep. unfold flag_invariant. destruct a as [clock|o|o eff]; simpl in Hstep.
  - destruct (loop st); simplify_eq;
      destruct (loop_wake_spec clock st) as (-> & -> & _ & [(_ & _ & ->)|(_ & _ & ->)]);
      (split; [done|]); rewrite done_writes_app, Hw; simpl; by rewrite app_nil_r.
  - destruct (main st) eqn:Hm; simplify_eq. simpl in Hd.
    unfold on_confirmation.
    destruct o as [[]|err];
      [|destruct (get_prop err "timeout") as [t|]; [destruct (truthy t)|]].
    all: split; simpl; [done|].
    all: rewrite ?done_writes_app, Hw, ?Hd; simpl; by rewrite ?Hd, ?app_nil_r.
  - destruct (main st) eqn:Hm; simplify_eq. simpl in Hd.
    unfold on_simulation. split; simpl; [done|].
    rewrite ?done_writes_app, Hw, ?Hd; simpl; by rewrite ?Hd, ?app_nil_r.
Qed.
End Invariants.

Section Reachability.
Context (s : Submission).

Lemma main_step_spec st a st' :
  step s st a = Some st' →
  (∃ clock, a = ALoopWake clock ∧ loop st ≠ LExited ∧ st' = loop_wake s clock st) ∨
  (loop st' = loop st ∧ main st ≠ main st' ∧ is_settled (main st) = false ∧
   ∃ e, appended st st' [e] ∧ ¬ is_send e ∧ e ≠ EvLoopTest true).
Proof.
  destruct a as [clock|o|o eff]; simpl.
  - destruct (loop st) eqn:Hl; intros; simplify_eq; left; by exists clock.
  - destruct (main st) eqn:Hm; intros; simplify_eq. right. unfold on_confirmation.
    destruct o as [[]|err];
      [|destruct (get_prop err "timeout") as [t|]; [destruct (truthy t)|]];
      simpl; (split; [done|]); (split; [discriminate|]); (split; [done|]);
      eexists; (split; [reflexivity|]); (split; [by intros []|discriminate]).
  - destruct (main st) eqn:Hm; intros; simplify_eq. right. unfold on_simulation.
    simpl. split; [done|]. split; [discriminate|]. split; [done|].
    eexists. split; [reflexivity|]. split; [by intros []|discriminate].
Qed.

Lemma stop_invariant_step st a st' :
  stop_invariant st → step s st a = Some st' → stop_invariant st'.
Proof.
  intros [Hexit Hsend] Hstep.
  destruct (main_step_spec _ _ _ Hstep) as
    [(clock & -> & Hl & ->) | (Hl & _ & _ & e & Happ & He & Hne)].
  - assert (EvLoopTest true ∉ calls (world st)) as Hfresh.
    { intros Hin. by apply Hl, Hexit. }
    unfold stop_invariant.
    destruct (loop_wake_spec s clock st) as
      (_ & _ & _ & [(Hc & Hl' & Happ)|(Hc & Hl' & Happ)]);
      unfold appended in Happ; rewrite Happ, Hl'.
    + assert (done st = false) as Hd.
      { unfold loop_continues in Hc. by destruct (done st). }
      rewrite Hd. split.
      * intros Hin. apply elem_of_app in Hin as [Hin | Hin]; [done|].
        repeat (apply elem_of_cons in Hin as [Hin | Hin]; [done|]).
        by apply elem_of_nil in Hin.
      * apply no_send_after_stop_fresh; [done|].
        intros [|[|[|i]]] j e' Hi; by simplify_eq.
    + split; [done|]. apply no_send_after_stop_quiet; [done|].
      apply Forall_singleton. by intros [].
  - unfold stop_invariant. unfold appended in Happ. rewrite Happ, Hl. split.
    + intros Hin. apply elem_of_app in Hin as [Hin | Hin]; [by apply Hexit|].
      apply list_elem_of_singleton in Hin. by subst.
    + apply no_send_after_stop_quiet; [done|]. by apply Forall_singleton.
Qed.

Lemma run_invariant (P : State → Prop) :
  (∀ st a st', P st → step s st a = Some st' → P st') →
  ∀ schedule st st', P st → run s st schedule = Some st' → P st'.
Proof.
  intros Hstep schedule. induction schedule as [|a rest IH]; simpl; intros st st' HP.
  - by intros [= <-].
  - destruct (step s st a) as [st1|] eqn:E; [|done]. eauto.
Qed.

Lemma start_flag_invariant w :
  flag_invariant (done_writes (calls w)) (start s w).
Proof.
  split; [done|]. simpl. rewrite <- app_assoc, done_writes_app. by simpl.
Qed.

Lemma start_stop_invariant w :
  Forall prelude_event (calls w) → stop_invariant (start s w).
Proof.
  intros Hw. assert (EvLoopTest true ∉ calls (world (start s w))) as Hfresh.
  { simpl. rewrite <- app_assoc. intros Hin.
    apply elem_of_app in Hin as [Hin | Hin].
    - rewrite Forall_forall in Hw. by apply Hw in Hin.
    - repeat (apply elem_of_cons in Hin as [Hin | Hin]; [done|]).
      by apply elem_of_nil in Hin. }
  split; [done|]. intros i j e Hi. exfalso. apply Hfresh.
  by eapply list_elem_of_lookup_2.
Qed.

(** Whatever the watcher and then the simulation answer, the main
    activity takes the step and the call ends up settled. *)
Lemma exit_is_reached st :
  (main st = MAwaitConfirmation →
   ∀ o, ∃ st', step s st (AConfirmation o) = Some st' ∧
               (is_settled (main st') = true ∨ main st' = MAwaitSimulation)) ∧
  (main st = MAwaitSimulation →
   ∀ o eff, ∃ st', step s st (ASimulation o eff) = Some st' ∧
                   is_settled (main st') = true).
Proof.
  split; intros Hm; simpl; rewrite Hm.
  - intros o. eexists. split; [done|]. unfold on_confirmation.
    destruct o as [[]|err];
      [|destruct (get_prop err "timeout") as [t|]; [destruct (truthy t)|]];
      simpl; auto.
  - intros o eff. eexists. by split.
Qed.
End Reachability.

(** ** Runs of the two submit operations *)

(** A started run is a schedule applied to the start state that follows a
    prelude whose log holds prelude events only. *)
Lemma submission_run_started schedule s st :
  submission_run_under schedule (Started s st) →
  ∃ w, Forall prelude_event (calls w) ∧ run s (start s w) schedule = Some st.
Proof.
  unfold submission_run_under, from_sendTransaction, from_sendSignedTransaction,
    sendTransaction, sendSignedTransaction, submit.
  intros [(web3 & connection & clock & tx & payer & signers & timeout & level & cb &
             h & Hrun)
         |(web3 & connection & clock & tx & timeout & level & h & Hrun)].
  - destruct (sendTransaction_prelude _ _ _ _ _ _ _ _ _ _) as [w [s'|e]] eqn:E; [|done].
    apply fmap_Some in Hrun as (st' & Hrun & [= <- <-]).
    apply sendTransaction_prelude_emits in E as (evs & Hc & Hev).
    exists w. by rewrite Hc.
  - destruct (sendSignedTransaction_prelude _ _ _ _ _ _ _) as [w [s'|e]] eqn:E; [|done].
    apply fmap_Some in Hrun as (st' & Hrun & [= <- <-]).
    apply sendSignedTransaction_prelude_emits in E as (evs & Hc & Hev).
    exists w. by rewrite Hc.
Qed.

(** C1. In every run of [sendTransaction] and of [sendSignedTransaction]
    that has declared [done]: the flag is [false] while the call is pending
    and [true] once it has settled, the log holds exactly one write to it on
    a settled run (replacing [false]) and none before; the loop leaves the
    [while] when it reads [true] and no [sendRawTransaction] is logged after
    such a read; and from every pending state each answer of the watcher and
    of the simulation (success, timeout, on-chain failure, any other thrown
    value) is taken up by a step that leads to a settled call. *)
Theorem done_flips_exactly_once s st :
  submission_run (Started s st) →
  done st = is_settled (main st) ∧
  done_writes (calls (world st)) = (if is_settled (main st) then [false] else []) ∧
  (EvLoopTest true ∈ calls (world st) → loop st = LExited) ∧
  no_send_after_stop (calls (world st)) ∧
  (main st = MAwaitConfirmation →
   ∀ o, ∃ st', step s st (AConfirmation o) = Some st' ∧
               (is_settled (main st') = true ∨ main st' = MAwaitSimulation)) ∧
  (main st = MAwaitSimulation →
   ∀ o eff, ∃ st', step s st (ASimulation o eff) = Some st' ∧
                   is_settled (main st') = true).
Proof.
  intros (schedule & (w & Hw & Hrun)%submission_run_started).
  assert (flag_invariant [] st) as [Hd Hwr].
  { eapply run_invariant; [apply flag_invariant_step | | exact Hrun].
    rewrite <- (done_writes_prelude (calls w)) by done. apply start_flag_invariant. }
  assert (stop_invariant st) as [Hexit Hsend].
  { eapply run_invariant; [apply stop_invariant_step | | exact Hrun].
    by apply start_stop_invariant. }
  rewrite <- Hd. repeat split; try done. all: apply exit_is_reached.
Qed.

Lemma done_flips_exactly_once_witness :
  ∃ s st,
    Demo.send Demo.schedule_success = Some (Started s st) ∧
    done st = true ∧ done_writes (calls (world st)) = [false] ∧ loop st = LExited.
Proof.
  unfold Demo.send, Demo.schedule_success.
  destruct (sendTransaction _ _ _ _ _ _ _ _ _ _ _) as [[w e|s st]|] eqn:E;
    [vm_compute in E; discriminate | | vm_compute in E; discriminate].
  exists s, st. split; [reflexivity|].
  assert (submission_run (Started s st)) as H.
  { eexists. left. unfold from_sendTransaction. do 10 eexists. exact E. }
  destruct (done_flips_exactly_once s st H) as (Hd & Hw & Hexit & _).
  vm_compute in E. injection E as <- <-.
  split; [exact Hd|]. split; [exact Hw|]. apply Hexit.
  repeat first [apply list_elem_of_here | apply list_elem_of_further].
Defined.

(** ** Schedules *)

Section Schedules.
Context (s : Submission).

(** A run can be cut at any action of its schedule. *)
Lemma run_split a schedule st st' :
  a ∈ schedule → run s st schedule = Some st' →
  ∃ before after st1 st2,
    schedule = before ++ a :: after ∧ run s st before = Some st1 ∧
    step s st1 a = Some st2 ∧ run s st2 after = Some st'.
Proof.
  intros Hin. revert st. induction schedule as [|b rest IH]; intros st Hrun.
  { by apply elem_of_nil in Hin. }
  simpl in Hrun. destruct (step s st b) as [stb|] eqn:Hb; [|done].
  apply elem_of_cons in Hin as [-> | Hin].
  - exists [], rest, st, stb. by rewrite Hb.
  - destruct (IH Hin _ Hrun) as (before & after & st1 & st2 & -> & H1 & H2 & H3).
    exists (b :: before), after, st1, st2. simpl. by rewrite Hb.
Qed.

(** What a step appends to the log. *)
Lemma step_appends st a st' :
  step s st a = Some st' →
  ∃ evs, appended st st' evs ∧
    ((∃ clock, a = ALoopWake clock) ∧ Forall (loop_event s) evs ∧ main st' = main st ∨
     is_settled (main st) = false ∧
     ((evs = [EvSetDone (done st)] ∧ is_settled (main st') = true) ∨
      (evs = [EvSimulate (sub_transaction s) (simulate_commitment (sub_kind s))] ∧
       main st = MAwaitConfirmation ∧ main st' = MAwaitSimulation))).
Proof.
  destruct a as [clock|o|o eff]; simpl.
  - destruct (loop st) eqn:Hl; intros; simplify_eq;
      destruct (loop_wake_spec s clock st) as (_ & Hm & _ & [(_ & _ & Ha)|(_ & _ & Ha)]);
      eexists; (split; [exact Ha|]); left; (split; [by eexists|]);
      (split; [|done]); by repeat constructor.
  - destruct (main st) eqn:Hm; intros; simplify_eq. unfold on_confirmation.
    destruct o as [[]|err];
      [|destruct (get_prop err "timeout") as [t|]; [destruct (truthy t)|]];
      eexists; (split; [reflexivity|]); right; (split; [done|]); auto.
  - destruct (main st) eqn:Hm; intros; simplify_eq. unfold on_simulation.
    eexists. split; [reflexivity|]. right. split; [done|]. left. by split.
Qed.

Lemma run_appends schedule st st' :
  run s st schedule = Some st' → ∃ evs, appended st st' evs.
Proof.
  revert st. induction schedule as [|a rest IH]; simpl; intros st.
  - intros [= <-]. exists []. unfold appended. by rewrite app_nil_r.
  - destruct (step s st a) as [st1|] eqn:E; [|done]. intros Hrun.
    destruct (step_appends _ _ _ E) as (evs1 & H1 & _).
    destruct (IH _ Hrun) as (evs2 & H2). exists (evs1 ++ evs2).
    unfold appended in *. by rewrite H2, H1, app_assoc.
Qed.

(** Once the call has settled only the loop moves, and the outcome
    stays. *)
Lemma settled_absorbing schedule st st' :
  is_settled (main st) = true → run s st schedule = Some st' →
  main st' = main st ∧ ∃ evs, appended st st' evs ∧ Forall (loop_event s) evs.
Proof.
  revert st. induction schedule as [|a rest IH]; simpl; intros st Hs.
  - intros [= <-]. split; [done|]. exists []. unfold appended. by rewrite app_nil_r.
  - destruct (step s st a) as [st1|] eqn:E; [|done]. intros Hrun.
    destruct (step_appends _ _ _ E) as (evs1 & H1 & [(_ & Hl & Hm)|(Hn & _)]);
      [|congruence].
    destruct (IH st1) as (Hm' & evs2 & H2 & Hl2); [by rewrite Hm | done |].
    split; [congruence|]. exists (evs1 ++ evs2). unfold appended in *.
    rewrite H2, H1, app_assoc. split; [done|]. by apply Forall_app.
Qed.

Lemma pending_invariant_step st a st' :
  pending_invariant st → step s st a = Some st' → pending_invariant st'.
Proof.
  intros Hinv Hstep Hm'.
  destruct (step_appends _ _ _ Hstep) as
    (evs & Ha & [(_ & Hl & Hm)|(Hn & [(_ & Hs)|(_ & _ & Hs)])]).
  - unfold appended in Ha. rewrite Ha. apply Forall_app. split.
    + apply Hinv. congruence.
    + eapply Forall_impl; [exact Hl|]. by intros [].
  - by rewrite Hm' in Hs.
  - by rewrite Hm' in Hs.
Qed.

Lemma pending_invariant_start w :
  Forall prelude_event (calls w) → pending_invariant (start s w).
Proof.
  intros Hw _. simpl. rewrite <- app_assoc. apply Forall_app. split.
  - eapply Forall_impl; [exact Hw|]. by intros [].
  - by repeat constructor.
Qed.

(** The outcome of the call is the one that the statements after the
    simulation give, whenever the schedule lets the simulation settle. *)
Lemma simulation_settles o eff schedule st st' :
  ASimulation o eff ∈ schedule → run s st schedule = Some st' →
  main st' =
    MSettled (Rejected (diagnose match o with Fulfilled v => v | Rejected _ => None end)).
Proof.
  intros Hin Hrun.
  destruct (run_split _ _ _ _ Hin Hrun) as (before & after & st1 & st2 & _ & _ & H2 & H3).
  simpl in H2. destruct (main st1); simplify_eq.
  by destruct (settled_absorbing after (on_simulation s o eff st1) st' eq_refl H3)
    as [-> _].
Qed.
End Schedules.

(** ** The failure path *)

(** C8. In every run of [sendTransaction] and of [sendSignedTransaction]
    in which the call of [simulateTransaction] rejects, with whatever value
    [e], the submission rejects with [Error('Transaction failed')]: the
    generic message, not the error of the simulation. *)
Theorem simulation_failure_is_generic schedule s st e eff :
  submission_run_under schedule (Started s st) →
  ASimulation (Rejected e) eff ∈ schedule →
  settled (Started s st) = Some (Rejected generic_failure).
Proof.
  intros (w & _ & Hrun)%submission_run_started Hin. simpl.
  by rewrite (simulation_settles _ _ _ _ _ _ Hin Hrun).
Qed.

Lemma simulation_failure_is_generic_witness :
  ∃ s st,
    Demo.send Demo.schedule_simulation_down = Some (Started s st) ∧
    settled (Started s st) = Some (Rejected generic_failure).
Proof.
  unfold Demo.send.
  destruct (sendTransaction _ _ _ _ _ _ _ _ _ _ _) as [[w e|s st]|] eqn:E;
    [vm_compute in E; discriminate | | vm_compute in E; discriminate].
  exists s, st. split; [reflexivity|].
  apply (simulation_failure_is_generic Demo.schedule_simulation_down s st
           (JError "fetch failed") id).
  - left. unfold from_sendTransaction. do 10 eexists. exact E.
  - unfold Demo.schedule_simulation_down.
    repeat first [apply list_elem_of_here | apply list_elem_of_further].
Defined.

(** C3, as stated, fails: the watcher raises a timeout, the call rejects
    with the timeout message, and [simulateTransaction] has not been
    called. *)
Lemma timeout_skips_simulation :
  Demo.send Demo.schedule_timeout ≫= settled = Some (Rejected timed_out) ∧
  (fun r => existsb is_simulate (run_calls r)) <$> Demo.send Demo.schedule_timeout
  = Some false.
Proof. split; vm_compute; reflexivity. Qed.

(** C3, amended. Let the watcher reject with [err] and let [err.timeout]
    read as [t].  If [t] is truthy the call rejects with
    [Error('Timed out awaiting confirmation on transaction')] and the log
    holds no call of [simulateTransaction].  If [t] is falsy
    [simulateTransaction] is called on the transaction of the call, after a
    part of the log that holds no write to [done], so before the call
    settles. *)
Theorem simulation_unless_timeout schedule s st err t :
  submission_run_under schedule (Started s st) →
  AConfirmation (Rejected err) ∈ schedule →
  get_prop err "timeout" = Some t →
  if truthy t then
    main st = MSettled (Rejected timed_out) ∧
    Forall (fun e => is_simulate e = false) (calls (world st))
  else
    ∃ before after,
      calls (world st) =
        before ++ EvSimulate (sub_transaction s) (simulate_commitment (sub_kind s)) :: after ∧
      Forall (fun e => is_simulate e = false ∧ is_set_done e = false) before.
Proof.
  intros (w & Hw & Hrun)%submission_run_started Hin Ht.
  destruct (run_split _ _ _ _ _ Hin Hrun) as
    (before & after & st1 & st2 & _ & H1 & H2 & H3).
  assert (pending_invariant st1) as Hp.
  { eapply run_invariant; [apply pending_invariant_step | | exact H1].
    by apply pending_invariant_start. }
  simpl in H2. destruct (main st1) eqn:Hm; simplify_eq. specialize (Hp Hm).
  unfold on_confirmation in H3. rewrite Ht in H3. destruct (truthy t).
  - apply settled_absorbing in H3 as (-> & evs & Ha & Hl); [|done].
    split; [done|]. unfold appended in Ha. rewrite Ha. simpl.
    rewrite <- app_assoc. apply Forall_app. split.
    + eapply Forall_impl; [exact Hp|]. by intros ? [].
    + constructor; [done|]. eapply Forall_impl; [exact Hl|]. by intros [].
  - destruct (run_appends _ _ _ _ H3) as (evs & Ha). unfold appended in Ha.
    simpl in Ha. rewrite <- app_assoc in Ha. by exists (calls (world st1)), evs.
Qed.

Lemma simulation_unless_timeout_witness :
  ∃ s st,
    Demo.send Demo.schedule_failure = Some (Started s st) ∧
    ∃ before after,
      calls (world st) = before ++ EvSimulate 1%positive "processed" :: after ∧
      Forall (fun e => is_simulate e = false ∧ is_set_done e = false) before.
Proof.
  unfold Demo.send.
  destruct (sendTransaction _ _ _ _ _ _ _ _ _ _ _) as [[w e|s st]|] eqn:E;
    [vm_compute in E; discriminate | | vm_compute in E; discriminate].
  exists s, st. split; [reflexivity|].
  assert (submission_run_under Demo.schedule_failure (Started s st)) as H.
  { left. unfold from_sendTransaction. do 10 eexists. exact E. }
  assert (AConfirmation (Rejected Demo.on_chain_error) ∈ Demo.schedule_failure) as Hin.
  { unfold Demo.schedule_failure.
    repeat first [apply list_elem_of_here | apply list_elem_of_further]. }
  pose proof (simulation_unless_timeout _ s st Demo.on_chain_error JUndefined H Hin eq_refl)
    as Hsim.
  vm_compute in E. injection E as <- <-. exact Hsim.
Defined.

(** ** The diagnosis *)

Lemma prefix_slice (p l : string) :
  String.prefix p l = true → l = p +:+ slice (String.length p) l.
Proof.
  revert l. induction p as [|c p IH]; intros l; [by destruct l|].
  destruct l as [|c' l]; simpl; [discriminate|].
  destruct (Ascii.ascii_dec c c') as [->|]; [|discriminate].
  intros H. change (String c' l = String c' (p +:+ slice (String.length p) l)).
  f_equal. by apply IH.
Qed.

Lemma last_filter_split {A} (P : A → Prop) `{∀ x, Decision (P x)} (l : list A) x :
  last (filter P l) = Some x →
  ∃ before after, l = before ++ x :: after ∧ P x ∧ Forall (fun y => ¬ P y) after.
Proof.
  induction l as [|y l IH] using rev_ind; [done|].
  rewrite filter_app, filter_cons, filter_nil. destruct (decide (P y)) as [Hy|Hy].
  - rewrite last_snoc. intros [= ->]. exists l, []. by repeat split.
  - rewrite app_nil_r. intros (before & after & -> & Hx & Ha)%IH.
    exists before, (after ++ [y]). rewrite <- app_assoc. repeat split; [done|].
    apply Forall_app. split; [done|]. by apply Forall_singleton.
Qed.

(** The backward loop finds the last tagged line. *)
Lemma scan_logs_take (logs : list string) (n : nat) :
  (n ≤ length logs)%nat →
  scan_logs logs n = String.app "Transaction failed: " <$> last_program_log (take n logs).
Proof.
  unfold last_program_log. induction n as [|i IH]; intros Hn; [done|].
  destruct (lookup_lt_is_Some_2 logs i) as [line Hline]; [lia|].
  rewrite (take_S_r _ _ _ Hline), filter_app, filter_cons, filter_nil.
  cbn [scan_logs]. rewrite Hline.
  destruct (decide (tagged line)) as [Htag|Htag]; unfold tagged in Htag;
    destruct (startsWith line program_log_tag); try done.
  - by rewrite last_snoc.
  - rewrite app_nil_r. apply IH. lia.
Qed.

Lemma scan_logs_spec (logs : list string) :
  scan_logs logs (length logs)
  = String.app "Transaction failed: " <$> last_program_log logs.
Proof. by rewrite scan_logs_take, firstn_all. Qed.

(** C4, as stated, fails on its own example: the message of the rejection
    is not the content of the last program log line, it is that content
    after the words [Transaction failed: ]. *)
Lemma diagnosis_is_prefixed :
  (Demo.send Demo.schedule_failure ≫= settled) ≫= rejection_message
  = Some "Transaction failed: insufficient funds" ∧
  (Demo.send Demo.schedule_failure ≫= settled) ≫= rejection_message
  ≠ Some "insufficient funds" ∧
  sim_logs Demo.sim_response
  = Some ["Program log: step1"; "Program log: insufficient funds";
          "Program consumed 100 units"].
Proof. split; [|split]; vm_compute; [reflexivity | discriminate | reflexivity]. Qed.

(** C4, amended. When the simulation resolves to a response whose [err] is
    truthy and whose [logs] is a list, the call rejects with an [Error]
    whose message is [Transaction failed: ] followed by the content, without
    its tag, of the last line of [logs] that starts with [Program log: ];
    when no line of [logs] starts with that tag, the message is
    [JSON.stringify] of [err]. *)
Theorem diagnosis_message schedule s st r logs eff :
  submission_run_under schedule (Started s st) →
  ASimulation (Fulfilled (Some r)) eff ∈ schedule →
  truthy (sim_err r) = true → sim_logs r = Some logs →
  settled (Started s st) =
    Some (Rejected
      match last_program_log logs with
      | Some content => JError ("Transaction failed: " +:+ content)
      | None => new_Error (JSON_stringify (sim_err r))
      end) ∧
  (∀ content, last_program_log logs = Some content →
     ∃ before after,
       logs = before ++ (program_log_tag +:+ content) :: after ∧
       Forall (fun l => tagged l = false) after) ∧
  (last_program_log logs = None → Forall (fun l => tagged l = false) logs).
Proof.
  intros (w & _ & Hrun)%submission_run_started Hin Herr Hlogs. split; [|split].
  - simpl. rewrite (simulation_settles _ _ _ _ _ _ Hin Hrun). do 2 f_equal.
    unfold diagnose. rewrite Herr, Hlogs, scan_logs_spec.
    by destruct (last_program_log logs).
  - unfold last_program_log. intros content Hc.
    destruct (last _) as [line|] eqn:Hlast; [|discriminate].
    assert (content = slice (String.length program_log_tag) line) as ->.
    { cbv [fmap option_fmap option_map] in Hc. congruence. }
    apply last_filter_split in Hlast as (before & after & -> & Hx & Ha).
    exists before, after. split.
    + rewrite <- prefix_slice; [done|]. by apply Is_true_true.
    + eapply Forall_impl; [exact Ha|]. intros l Hl. simpl in Hl.
      by destruct (tagged l).
  - unfold last_program_log. destruct (last _) as [line|] eqn:Hlast; [done|].
    intros _. apply last_None in Hlast. apply Forall_forall. intros l Hl.
    destruct (tagged l) eqn:Ht; [|done]. exfalso.
    assert (l ∈ filter (fun l => tagged l) logs) as Hf.
    { apply list_elem_of_filter. split; [by apply Is_true_true | done]. }
    rewrite Hlast in Hf. by apply elem_of_nil in Hf.
Qed.

Lemma diagnosis_message_witness :
  ∃ s st,
    Demo.send Demo.schedule_failure = Some (Started s st) ∧
    settled (Started s st)
    = Some (Rejected (JError "Transaction failed: insufficient funds")).
Proof.
  unfold Demo.send.
  destruct (sendTransaction _ _ _ _ _ _ _ _ _ _ _) as [[w e|s st]|] eqn:E;
    [vm_compute in E; discriminate | | vm_compute in E; discriminate].
  exists s, st. split; [reflexivity|].
  assert (submission_run_under Demo.schedule_failure (Started s st)) as H.
  { left. unfold from_sendTransaction. do 10 eexists. exact E. }
  assert (ASimulation (Fulfilled (Some Demo.sim_response)) id ∈ Demo.schedule_failure)
    as Hin.
  { unfold Demo.schedule_failure.
    repeat first [apply list_elem_of_here | apply list_elem_of_further]. }
  destruct (diagnosis_message _ s st Demo.sim_response Demo.sample_logs id H Hin
              eq_refl eq_refl) as [Hmsg _].
  exact Hmsg.
Defined.

(** ** What a prelude leaves behind *)

Lemma call_serialize_Fulfilled web3 tx w w' raw :
  call_serialize web3 tx w = (w', Fulfilled raw) →
  w' = {| heap := heap w; calls := calls w ++ [EvSerialize tx] |} ∧
  serialize web3 (heap w tx) = inl raw.
Proof.
  unfold call_serialize.
  intros (w1 & [] & (-> & _)%emit_inv & (-> & Hs)%query_Fulfilled)%bind_Fulfilled.
  done.
Qed.

Lemma sendTransaction_prelude_inv web3 connection clock tx payer signers timeout level cb
    w w' s :
  sendTransaction_prelude web3 connection clock tx payer signers timeout level cb w
  = (w', Fulfilled s) →
  ∃ w1 signed signing callbacks,
    signTransaction web3 connection tx payer signers w = (w1, Fulfilled signed) ∧
    serialize web3 (heap w1 tx) = inl (sub_rawTransaction s) ∧
    sendRawTransaction connection (sub_rawTransaction s) send_options
    = Fulfilled (sub_txid s) ∧
    calls w1 = calls w ++ signing ∧
    calls w' = calls w ++ signing ++ [EvSerialize tx] ++ callbacks ++
               [EvSendRawTransaction (sub_rawTransaction s) send_options] ∧
    Forall signing_event signing ∧ Forall (fun e => e = EvCallback) callbacks ∧
    sub_kind s = Initial ∧ sub_transaction s = tx ∧
    sub_startTime s = getUnixTs clock ∧
    sub_timeout s = default 30000 timeout ∧
    sub_confirmLevel s = default processed level.
Proof.
  unfold sendTransaction_prelude.
  intros (w1 & signed & Hsign & H)%bind_Fulfilled.
  apply bind_Fulfilled in H as (w2 & raw & (Hw2 & Hraw)%call_serialize_Fulfilled & H).
  apply bind_Fulfilled in H as (w3 & [] & Hcb & H).
  apply bind_Fulfilled in H as (w4 & [] & (Hw4 & _)%emit_inv & H).
  apply bind_Fulfilled in H as (w5 & txid & (Hw5 & Htx)%await_inv & H).
  apply ret_inv in H as (Hw' & [= ->]). subst w' w5 w4 w2.
  exists w1, signed. simpl.
  destruct (signTransaction_emits _ _ _ _ _ _ _ _ Hsign) as (evs1 & Hc1 & He1).
  destruct (run_callback_emits (fun e => e = EvCallback) cb eq_refl _ _ _ Hcb)
    as (evs3 & Hc3 & He3). simpl in Hc3.
  exists evs1, evs3. repeat split; try done.
  rewrite Hc3, Hc1. by rewrite <- !app_assoc.
Qed.

Lemma sendSignedTransaction_prelude_inv web3 connection clock tx timeout level w w' s :
  sendSignedTransaction_prelude web3 connection clock tx timeout level w
  = (w', Fulfilled s) →
  serialize web3 (heap w tx) = inl (sub_rawTransaction s) ∧
  sendRawTransaction connection (sub_rawTransaction s) send_options
  = Fulfilled (sub_txid s) ∧
  calls w' = calls w ++ [EvSerialize tx] ++
             [EvSendRawTransaction (sub_rawTransaction s) send_options] ∧
  sub_kind s = PreSigned ∧ sub_transaction s = tx ∧
  sub_startTime s = getUnixTs clock ∧
  sub_timeout s = default 30000 timeout ∧
  sub_confirmLevel s = default processed level.
Proof.
  unfold sendSignedTransaction_prelude.
  intros (w2 & raw & (Hw2 & Hraw)%call_serialize_Fulfilled & H)%bind_Fulfilled.
  apply bind_Fulfilled in H as (w4 & [] & (Hw4 & _)%emit_inv & H).
  apply bind_Fulfilled in H as (w5 & txid & (Hw5 & Htx)%await_inv & H).
  apply ret_inv in H as (Hw' & [= ->]). subst w' w5 w4 w2. simpl.
  repeat split; try done. by rewrite <- !app_assoc.
Qed.

Lemma from_sendTransaction_inv schedule s st :
  from_sendTransaction schedule (Started s st) →
  ∃ w, prelude_log s (calls w) ∧ run s (start s w) schedule = Some st ∧
       sub_kind s = Initial.
Proof.
  unfold from_sendTransaction, sendTransaction, submit.
  intros (web3 & connection & clock & tx & payer & signers & timeout & level & cb &
            h & Hrun).
  destruct (sendTransaction_prelude _ _ _ _ _ _ _ _ _ _) as [w [s'|e]] eqn:E; [|done].
  apply fmap_Some in Hrun as (st' & Hrun & [= <- <-]).
  apply sendTransaction_prelude_inv in E as
    (w1 & signed & signing & callbacks & _ & _ & _ & _ & Hc & Hs & Hcb & Hk & Htx & _).
  exists w. repeat split; try done. exists signing, callbacks. by rewrite Htx, Hc.
Qed.

Lemma from_sendSignedTransaction_inv schedule s st :
  from_sendSignedTransaction schedule (Started s st) →
  ∃ w, prelude_log s (calls w) ∧ run s (start s w) schedule = Some st ∧
       sub_kind s = PreSigned.
Proof.
  unfold from_sendSignedTransaction, sendSignedTransaction, submit.
  intros (web3 & connection & clock & tx & timeout & level & h & Hrun).
  destruct (sendSignedTransaction_prelude _ _ _ _ _ _ _) as [w [s'|e]] eqn:E; [|done].
  apply fmap_Some in Hrun as (st' & Hrun & [= <- <-]).
  apply sendSignedTransaction_prelude_inv in E as (_ & _ & Hc & Hk & Htx & _).
  exists w. repeat split; try done. exists [], []. by rewrite Htx, Hc.
Qed.

Lemma submission_run_inv schedule s st :
  submission_run_under schedule (Started s st) →
  ∃ w, prelude_log s (calls w) ∧ run s (start s w) schedule = Some st.
Proof.
  intros [(w & ? & ? & _)%from_sendTransaction_inv
         |(w & ? & ? & _)%from_sendSignedTransaction_inv]; eauto.
Qed.

(** Every event that follows the prelude is one of the two activities'. *)
Lemma run_activity_events s schedule w st :
  run s (start s w) schedule = Some st →
  ∃ evs, calls (world st) = calls w ++ evs ∧ Forall (activity_event s) evs.
Proof.
  intros Hrun.
  assert (∀ schedule st0 st',
            run s st0 schedule = Some st' →
            ∃ evs, appended st0 st' evs ∧ Forall (activity_event s) evs) as Hgen.
  { clear. intros schedule. induction schedule as [|a rest IH]; simpl; intros st0 st'.
    - intros [= <-]. exists []. unfold appended. by rewrite app_nil_r.
    - destruct (step s st0 a) as [st1|] eqn:E; [|done]. intros Hrun.
      destruct (IH _ _ Hrun) as (evs2 & H2 & Hf2).
      destruct (step_appends _ _ _ _ E) as (evs1 & H1 & Hcase).
      exists (evs1 ++ evs2). unfold appended in *. rewrite H2, H1, app_assoc.
      split; [done|]. apply Forall_app. split; [|done].
      destruct Hcase as [(_ & Hl & _)|(_ & [(-> & _)|(-> & _)])].
      + eapply Forall_impl; [exact Hl|]. intros []; simpl; tauto.
      + by apply Forall_singleton.
      + by apply Forall_singleton.  }
  destruct (Hgen _ _ _ Hrun) as (evs & Ha & Hf). unfold appended in Ha. simpl in Ha.
  exists ([EvSleep (warmup_ms (sub_kind s));
           EvAwaitConfirmation (sub_txid s) (sub_timeout s) (sub_confirmLevel s)] ++ evs).
  split.
  - rewrite Ha. by rewrite <- !app_assoc.
  - apply Forall_app. split; [|done]. repeat constructor.
Qed.

(** ** The exit of the broadcast loop *)

(** C5, as stated, fails: with the default timeout of 30000 ms, an on-chain
    failure reported after 29 s and the simulation still pending, the loop
    wakes 31 s after the start, reads [done] as [false], and leaves the
    [while]. *)
Lemma loop_leaves_on_elapsed_time :
  Demo.send Demo.schedule_pending ≫= flag_and_loop = Some (false, LSleeping) ∧
  Demo.send (Demo.schedule_pending ++ [ALoopWake 31000]) ≫= flag_and_loop
  = Some (false, LExited).
Proof. split; vm_compute; reflexivity. Qed.

(** C5, amended. The timeout is handed to the confirmation watcher and is
    also read by the broadcast loop: each time the loop wakes it leaves the
    [while] if and only if it reads [done] as [true] or
    [getUnixTs() - startTime] is not below the bound that the loop computes
    from the timeout, which is [timeout / 1000] in [sendTransaction]; the
    quotients, the difference and the comparison are those of binary64. *)
Theorem loop_exit_condition schedule s st clock :
  submission_run_under schedule (Started s st) →
  loop st ≠ LExited →
  EvAwaitConfirmation (sub_txid s) (sub_timeout s) (sub_confirmLevel s)
    ∈ calls (world st) ∧
  (from_sendTransaction schedule (Started s st) →
   loop_bound (sub_kind s) (sub_timeout s)
   = PrimFloat.div (Number (sub_timeout s)) (Number 1000)) ∧
  ∃ st',
    step s st (ALoopWake clock) = Some st' ∧
    (loop st' = LExited ↔
     done st = true ∨
     PrimFloat.ltb (elapsed s clock) (loop_bound (sub_kind s) (sub_timeout s)) = false).
Proof.
  intros Hrun Hloop. split; [|split].
  - destruct (submission_run_inv _ _ _ Hrun) as (w & _ & Hr).
    destruct (run_appends _ _ _ _ Hr) as (evs & Ha). unfold appended in Ha.
    rewrite Ha. simpl. apply elem_of_app. left. apply elem_of_app. right.
    apply list_elem_of_here.
  - by intros (w & _ & _ & ->)%from_sendTransaction_inv.
  - exists (loop_wake s clock st). split.
    { simpl. by destruct (loop st). }
    destruct (loop_wake_spec s clock st) as (_ & _ & _ & [(Hc & -> & _)|(Hc & -> & _)]);
      unfold loop_continues in Hc; fold (elapsed s clock) in Hc.
    + apply andb_true_iff in Hc as [Hd Hq].
      split; [done|]. intros [Hd'|Hq']; [|congruence]. rewrite Hd' in Hd. done.
    + split; [|done]. intros _. apply andb_false_iff in Hc as [Hd|Hq].
      * left. by destruct (done st).
      * by right.
Qed.

Lemma loop_exit_condition_witness :
  ∃ s st,
    Demo.send Demo.schedule_pending = Some (Started s st) ∧
    loop st ≠ LExited ∧
    ∃ st',
      step s st (ALoopWake 31000) = Some st' ∧
      (loop st' = LExited ↔
       done st = true ∨
       PrimFloat.ltb (elapsed s 31000) (loop_bound (sub_kind s) (sub_timeout s)) = false).
Proof.
  unfold Demo.send.
  destruct (sendTransaction _ _ _ _ _ _ _ _ _ _ _) as [[w e|s st]|] eqn:E;
    [vm_compute in E; discriminate | | vm_compute in E; discriminate].
  exists s, st. split; [reflexivity|].
  assert (submission_run_under Demo.schedule_pending (Started s st)) as H.
  { left. unfold from_sendTransaction. do 10 eexists. exact E. }
  assert (loop st ≠ LExited) as Hl.
  { vm_compute in E. injection E as <- <-. discriminate. }
  split; [exact Hl|].
  destruct (loop_exit_condition _ s st 31000 H Hl) as (_ & _ & Hexit). exact Hexit.
Defined.

(** ** What the broadcast loop sends *)

(** C6. In every run of [sendTransaction] and of [sendSignedTransaction]
    the log is: the signing calls, then the single [serialize], then the
    callback if any, then the first [sendRawTransaction], then events of the
    two activities only.  So the transaction is serialized once, nothing
    signs or sets [recentBlockhash] after that, and every
    [sendRawTransaction], the first one and each one of the loop, carries
    the same bytes [rawTransaction].  A loop iteration leaves every
    transaction object as it is and logs nothing but its test of [done], a
    send of [rawTransaction] and a [sleep].  These bytes are what
    [serialize] returned for the transaction of the call: in
    [sendTransaction] in the state in which signing left that object, in
    [sendSignedTransaction] in the state in which the call found it. *)
Theorem resends_repeat_signed_bytes schedule s st :
  submission_run_under schedule (Started s st) →
  (∃ signing callbacks activity,
     calls (world st) =
       signing ++ [EvSerialize (sub_transaction s)] ++ callbacks ++
       [EvSendRawTransaction (sub_rawTransaction s) send_options] ++ activity ∧
     Forall signing_event signing ∧
     Forall (fun e => e = EvCallback) callbacks ∧
     Forall (activity_event s) activity) ∧
  (∀ raw opts, EvSendRawTransaction raw opts ∈ calls (world st) →
               raw = sub_rawTransaction s) ∧
  (∀ clock st', step s st (ALoopWake clock) = Some st' →
     heap (world st') = heap (world st) ∧
     ∃ evs, appended st st' evs ∧ Forall (loop_event s) evs) ∧
  (∀ web3 connection clock tx payer signers timeout level cb h,
     sendTransaction web3 connection clock tx payer signers timeout level cb schedule h
     = Some (Started s st) →
     sub_transaction s = tx ∧
     ∃ w1 signed,
       signTransaction web3 connection tx payer signers (fresh h)
       = (w1, Fulfilled signed) ∧
       serialize web3 (heap w1 tx) = inl (sub_rawTransaction s)) ∧
  (∀ web3 connection clock tx timeout level h,
     sendSignedTransaction web3 connection clock tx timeout level schedule h
     = Some (Started s st) →
     sub_transaction s = tx ∧ serialize web3 (h tx) = inl (sub_rawTransaction s)).
Proof.
  intros Hunder.
  assert ((∀ web3 connection clock tx payer signers timeout level cb h,
             sendTransaction web3 connection clock tx payer signers timeout level cb
               schedule h = Some (Started s st) →
             sub_transaction s = tx ∧
             ∃ w1 signed,
               signTransaction web3 connection tx payer signers (fresh h)
               = (w1, Fulfilled signed) ∧
               serialize web3 (heap w1 tx) = inl (sub_rawTransaction s)) ∧
          (∀ web3 connection clock tx timeout level h,
             sendSignedTransaction web3 connection clock tx timeout level schedule h
             = Some (Started s st) →
             sub_transaction s = tx ∧ serialize web3 (h tx) = inl (sub_rawTransaction s)))
    as [Hfirst Hsigned].
  { unfold sendTransaction, sendSignedTransaction, submit. split.
    - intros web3 connection clock tx payer signers timeout level cb h.
      destruct (sendTransaction_prelude _ _ _ _ _ _ _ _ _ _) as [w [s'|e]] eqn:E; [|done].
      intros (st' & _ & [= <- <-])%fmap_Some.
      apply sendTransaction_prelude_inv in E as
        (w1 & signed & _ & _ & Hsign & Hser & _ & _ & _ & _ & _ & _ & Htx & _).
      split; [done|]. by exists w1, signed.
    - intros web3 connection clock tx timeout level h.
      destruct (sendSignedTransaction_prelude _ _ _ _ _ _ _) as [w [s'|e]] eqn:E; [|done].
      intros (st' & _ & [= <- <-])%fmap_Some.
      apply sendSignedTransaction_prelude_inv in E as (Hser & _ & _ & _ & Htx & _).
      by split. }
  revert Hunder.
  intros (w & (signing & callbacks & Hw & Hs & Hc) & Hrun)%submission_run_inv.
  destruct (run_activity_events _ _ _ _ Hrun) as (activity & Ha & Hact).
  assert (calls (world st) =
            signing ++ [EvSerialize (sub_transaction s)] ++ callbacks ++
            [EvSendRawTransaction (sub_rawTransaction s) send_options] ++ activity) as Hlog.
  { rewrite Ha, Hw. by rewrite <- !app_assoc. }
  split; [|split; [|split; [|by split]]].
  - by exists signing, callbacks, activity.
  - intros raw opts. rewrite Hlog, !elem_of_app.
    rewrite Forall_forall in Hs, Hc, Hact.
    intros [Hin|[Hin|[Hin|[Hin|Hin]]]].
    + by apply Hs in Hin.
    + by apply list_elem_of_singleton in Hin.
    + by apply Hc in Hin.
    + apply list_elem_of_singleton in Hin. congruence.
    + apply Hact in Hin. by destruct Hin.
  - intros clock st' Hstep. simpl in Hstep. destruct (loop st); simplify_eq.
    all: destruct (loop_wake_spec s clock st) as (_ & _ & Hh & [(_ & _ & Hev)|(_ & _ & Hev)]);
      (split; [done|]); eexists; (split; [exact Hev|]); by repeat constructor.
Qed.

Lemma resends_repeat_signed_bytes_witness :
  ∃ s st,
    Demo.send Demo.schedule_success = Some (Started s st) ∧
    (∀ raw opts, EvSendRawTransaction raw opts ∈ calls (world st) →
                 raw = sub_rawTransaction s) ∧
    ∃ w1 signed,
      signTransaction Demo.web3 Demo.connection 1%positive (PAccount Demo.alice)
        [Demo.bob] (fresh Demo.heap0) = (w1, Fulfilled signed) ∧
      serialize Demo.web3 (heap w1 1%positive) = inl (sub_rawTransaction s) ∧
      sub_rawTransaction s
      = String.list_byte_of_string "transfer|hash1|sig:alice,sig:bob".
Proof.
  unfold Demo.send.
  destruct (sendTransaction _ _ _ _ _ _ _ _ _ _ _) as [[w e|s st]|] eqn:E;
    [vm_compute in E; discriminate | | vm_compute in E; discriminate].
  exists s, st. split; [reflexivity|].
  assert (submission_run_under Demo.schedule_success (Started s st)) as H.
  { left. unfold from_sendTransaction. do 10 eexists. exact E. }
  destruct (resends_repeat_signed_bytes _ s st H) as (_ & Hraw & _ & Hfirst & _).
  split; [exact Hraw|].
  destruct (Hfirst _ _ _ _ _ _ _ _ _ _ E) as (_ & w1 & signed & Hsign & Hser).
  exists w1, signed. split; [exact Hsign|]. split; [exact Hser|].
  vm_compute in E. injection E as <- <-. reflexivity.
Defined.

(** ** Configuration defaults *)



(** ** The signer coordinator *)

Lemma attach_signers_log web3 connection tx payer signers w w0 o :
  attach_signers web3 connection tx payer signers w = (w0, o) →
  match o with
  | Fulfilled _ => ∃ b, calls w0 = calls w ++ attach_log tx payer signers b
  | Rejected _ => ∃ evs, calls w0 = calls w ++ evs ∧ Forall no_final_sign evs
  end.
Proof.
  unfold attach_signers, attach_log, mbind, Task_bind, bind, emit, await, method, ret.
  simpl. destruct (getRecentBlockhash connection None) as [b|e]; simpl.
  2: { intros [= <- <-]. eexists. split; [done|]. by repeat constructor. }
  destruct (setSigners web3 _ _) as [t1|e]; simpl.
  2: { intros [= <- <-]. simpl. rewrite <- !app_assoc.
       eexists. split; [done|]. by repeat constructor. }
  destruct (0 <? length signers)%nat; simpl.
  - destruct (partialSign web3 _ _) as [t2|e]; simpl.
    + intros [= <- <-]. exists b. simpl. by rewrite <- !app_assoc.
    + intros [= <- <-]. simpl. rewrite <- !app_assoc.
      eexists. split; [done|]. by repeat constructor.
  - intros [= <- <-]. exists b. simpl. by rewrite <- !app_assoc.
Qed.

Lemma signTransaction_paths web3 connection tx payer signers w w' o :
  signTransaction web3 connection tx payer signers w = (w', o) →
  (∃ b,
     calls w' = calls w ++ attach_log tx payer signers b ++
       [match payer_connected payer with
        | Some _ => EvWalletSignTransaction tx
        | None => EvSign tx (payer_as_signer payer :: (SAccount <$> signers))
        end]) ∨
  ((∃ evs, calls w' = calls w ++ evs ∧ Forall no_final_sign evs) ∧ ∃ e, o = Rejected e).
Proof.
  unfold signTransaction. unfold mbind at 1, Task_bind at 1, bind at 1.
  destruct (attach_signers _ _ _ _ _ _) as [w0 [[]|e]] eqn:Ha;
    apply attach_signers_log in Ha.
  - destruct Ha as (b & Hb). intros H. left. exists b.
    unfold mbind, Task_bind, bind, emit, foreign_call, method, ret in H.
    destruct (payer_connected payer) as [wallet|]; simpl in H.
    + destruct (wallet_signTransaction wallet _ _) as [h' [a|e]];
        injection H as <- <-; simpl; by rewrite Hb, <- app_assoc.
    + destruct (sign web3 _ _) as [t|e];
        injection H as <- <-; simpl; by rewrite Hb, <- app_assoc.
  - intros [= <- <-]. right. eauto.
Qed.

Lemma emits_forEach_elem {A} (P : Event → Prop) (f : A → Task unit) (l : list A) :
  (∀ a, a ∈ l → emits P (f a)) → emits P (forEach f l).
Proof.
  induction l as [|x l IH]; simpl; intros Hf.
  - apply emits_ret.
  - apply emits_bind.
    + apply Hf, list_elem_of_here.
    + intros _. apply IH. intros a Ha. by apply Hf, list_elem_of_further.
Qed.

(** When a [forEach] completes, its body has completed for every element,
    and what the body logged is still in the log. *)
Lemma forEach_Fulfilled {A} (f : A → Task unit) (l : list A) w w' u :
  (∀ a, emits (fun _ => True) (f a)) →
  forEach f l w = (w', Fulfilled u) →
  ∀ x, x ∈ l →
    ∃ w1 w2, f x w1 = (w2, Fulfilled tt) ∧ ∀ e, e ∈ calls w2 → e ∈ calls w'.
Proof.
  intros Hf. revert w. induction l as [|y l IH]; intros w Hrun x Hx.
  { by apply elem_of_nil in Hx. }
  simpl in Hrun. apply bind_Fulfilled in Hrun as (w1 & [] & Hy & Hrest).
  apply elem_of_cons in Hx as [-> | Hx].
  - exists w, w1. split; [done|]. intros e He.
    destruct (emits_forEach _ f l Hf _ _ _ Hrest) as (evs & -> & _).
    apply elem_of_app. by left.
  - by apply (IH _ Hrest).
Qed.

Lemma attach_all_signers_emits web3 connection items payer :
  emits no_final_sign (attach_all_signers web3 connection items payer).
Proof.
  unfold attach_all_signers. repeat emits_step. apply emits_forEach. intros item.
  repeat emits_step. destruct (0 <? length _)%nat; repeat emits_step.
Qed.

Lemma attach_all_signers_partial web3 connection items payer w w' u item signers :
  attach_all_signers web3 connection items payer w = (w', Fulfilled u) →
  item ∈ items → tas_signers item = Some signers → signers ≠ [] →
  EvPartialSign (tas_transaction item) signers ∈ calls w'.
Proof.
  unfold attach_all_signers.
  intros (w1 & [] & _ & H)%bind_Fulfilled Hin Hs Hne.
  apply bind_Fulfilled in H as (w2 & b & _ & H).
  eapply forEach_Fulfilled in H as (wa & wb & Hbody & Hsub); [| |exact Hin].
  2: { intros a. repeat emits_step. destruct (0 <? length _)%nat; repeat emits_step. }
  apply Hsub. rewrite Hs in Hbody. simpl in Hbody.
  destruct signers as [|a signers]; [done|]. simpl in Hbody.
  apply bind_Fulfilled in Hbody as (? & [] & _ & Hbody).
  apply bind_Fulfilled in Hbody as (? & [] & _ & Hbody).
  apply bind_Fulfilled in Hbody as (? & [] & _ & Hbody).
  apply bind_Fulfilled in Hbody as (? & [] & _ & Hbody).
  apply bind_Fulfilled in Hbody as (w5 & [] & (-> & _)%emit_inv & Hbody).
  apply method_Fulfilled in Hbody as (t' & _ & ->). simpl.
  apply elem_of_app. right. apply list_elem_of_here.
Qed.

Lemma signTransactions_paths web3 connection items payer h w' o :
  signTransactions web3 connection items payer (fresh h) = (w', o) →
  match not_instanceof_Account payer with
  | Some _ =>
      (∃ before,
         calls w' = before ++ [EvWalletSignAllTransactions (tas_transaction <$> items)] ∧
         Forall no_final_sign before ∧
         ∀ item signers, item ∈ items → tas_signers item = Some signers →
           signers ≠ [] → EvPartialSign (tas_transaction item) signers ∈ before) ∨
      (Forall no_final_sign (calls w') ∧ ∃ e, o = Rejected e)
  | None =>
      Forall (fun e => is_wallet_sign e = false) (calls w') ∧
      Forall (fun e => is_local_sign e = true →
                ∃ item, item ∈ items ∧
                  e = EvSign (tas_transaction item)
                        (concat_signers payer (tas_signers item))) (calls w') ∧
      ∀ v, o = Fulfilled v → ∀ item, item ∈ items →
        EvSign (tas_transaction item) (concat_signers payer (tas_signers item))
          ∈ calls w'
  end.
Proof.
  unfold signTransactions. unfold mbind at 1, Task_bind at 1, bind at 1.
  destruct (attach_all_signers _ _ _ _ _) as [w0 [[]|e]] eqn:Ha.
  - destruct (attach_all_signers_emits _ _ _ _ _ _ _ Ha) as (evs0 & Hc0 & Hf0).
    simpl in Hc0. destruct (not_instanceof_Account payer) as [wallet|].
    + intros H. left. exists (calls w0). split; [|split].
      * unfold mbind, Task_bind, bind, emit, foreign_call, ret in H. simpl in H.
        destruct (wallet_signAllTransactions wallet _ _) as [h' [a|e]];
          by injection H as <- <-.
      * by rewrite Hc0.
      * intros item signers. by eapply attach_all_signers_partial.
    + set (g := fun item : TransactionAndSigners => _ : Task unit).
      unfold mbind at 1, Task_bind at 1, bind at 1.
      destruct (forEach g items w0) as [w1 [[]|e]] eqn:Hg.
      all: assert (emits
          (fun e => is_wallet_sign e = false ∧
                    (is_local_sign e = true →
                     ∃ item, item ∈ items ∧
                       e = EvSign (tas_transaction item)
                             (concat_signers payer (tas_signers item))))
          (forEach g items)) as Hemits
        by (apply emits_forEach_elem; intros item Hitem; unfold g;
            repeat emits_step; eauto).
      all: destruct (Hemits _ _ _ Hg) as (evs1 & Hc1 & Hf1).
      all: intros [= <- <-]; rewrite Hc1, Hc0.
      all: (split; [|split]);
        [ apply Forall_app; split;
          [ eapply Forall_impl; [exact Hf0|]; by intros ? []
          | eapply Forall_impl; [exact Hf1|]; by intros ? [] ]
        | apply Forall_app; split;
          [ eapply Forall_impl; [exact Hf0|]; intros ? [_ Hl] Hl'; congruence
          | eapply Forall_impl; [exact Hf1|]; by intros ? [] ]
        | ].
      * intros v _ item Hitem.
        eapply forEach_Fulfilled in Hg as (wa & wb & Hbody & Hsub); [| |exact Hitem].
        2: { intros a. unfold g. repeat emits_step. }
        rewrite <- Hc0, <- Hc1. apply Hsub. unfold g in Hbody.
        apply bind_Fulfilled in Hbody as (? & [] & (-> & _)%emit_inv & Hbody).
        apply method_Fulfilled in Hbody as (t' & _ & ->). simpl.
        apply elem_of_app. right. apply list_elem_of_here.
      * by intros v [=].
  - destruct (attach_all_signers_emits _ _ _ _ _ _ _ Ha) as (evs0 & Hc0 & Hf0).
    simpl in Hc0. intros [= <- <-]. rewrite Hc0.
    destruct (not_instanceof_Account payer) as [wallet|].
    + right. eauto.
    + split; [|split].
      * eapply Forall_impl; [exact Hf0|]. by intros ? [].
      * eapply Forall_impl; [exact Hf0|]. intros ? [_ Hl] Hl'. congruence.
      * by intros v [=].
Qed.

(** C7.  The claim fails in [signTransaction] for a payer that is a wallet
    whose [connected] member is falsy.  The call does not delegate: it makes
    no call to the wallet, and its last call is [transaction.sign] with the
    wallet object in the place of local key material, which a library that
    signs with accounts only answers with a [TypeError].  For the same
    payer and the same transaction, [signTransactions] does delegate to the
    wallet. *)
Lemma disconnected_wallet_signs_locally :
  existsb is_wallet_sign
    (calls (signTransaction Demo.web3 Demo.connection 1%positive
              (PWallet (Demo.wallet_in_place false)) [Demo.bob] (fresh Demo.heap0)).1)
  = false ∧
  existsb is_local_sign
    (calls (signTransaction Demo.web3 Demo.connection 1%positive
              (PWallet (Demo.wallet_in_place false)) [Demo.bob] (fresh Demo.heap0)).1)
  = true ∧
  last (calls (signTransaction Demo.web3 Demo.connection 1%positive
                 (PWallet (Demo.wallet_in_place false)) [Demo.bob] (fresh Demo.heap0)).1)
  = Some (EvSign 1%positive [SWallet (Demo.wallet_in_place false); SAccount Demo.bob]) ∧
  (signTransaction Demo.web3 Demo.connection 1%positive
     (PWallet (Demo.wallet_in_place false)) [Demo.bob] (fresh Demo.heap0)).2
  = Rejected JTypeError ∧
  last (calls (signTransactions Demo.web3 Demo.connection
                 [{| tas_transaction := 1%positive; tas_signers := Some [Demo.bob] |}]
                 (PWallet (Demo.wallet_in_place false)) (fresh Demo.heap0)).1)
  = Some (EvWalletSignAllTransactions [1%positive]).
Proof. repeat split; vm_compute; reflexivity. Qed.

(** What the two signing calls do, as the code stands.  A signing call
    first fetches the blockhash, sets the signers and lets the additional
    signers sign; if one of these steps throws, the call rejects and nobody
    signs for the payer.  Otherwise
    exactly one final signing follows.  In [signTransaction] it is the call
    [payer.signTransaction(transaction)] when [payer.connected] is truthy
    and the call [transaction.sign(payer, ...signers)] when it is not.  In
    [signTransactions] it is the call [payer.signAllTransactions(...)], made
    after the partial signatures of every entry have been attached, when the
    payer is not an [Account]; when it is, [transaction.sign] is called with
    the payer first, once per entry, and no wallet call is made. *)
Theorem signing_paths web3 connection h :
  (∀ tx payer signers w' o,
     signTransaction web3 connection tx payer signers (fresh h) = (w', o) →
     (∃ b,
        calls w' = attach_log tx payer signers b ++
          [match payer_connected payer with
           | Some _ => EvWalletSignTransaction tx
           | None => EvSign tx (payer_as_signer payer :: (SAccount <$> signers))
           end]) ∨
     (Forall no_final_sign (calls w') ∧ ∃ e, o = Rejected e)) ∧
  (∀ items payer w' o,
     signTransactions web3 connection items payer (fresh h) = (w', o) →
     match not_instanceof_Account payer with
     | Some _ =>
         (∃ before,
            calls w' = before ++ [EvWalletSignAllTransactions (tas_transaction <$> items)] ∧
            Forall no_final_sign before ∧
            ∀ item signers, item ∈ items → tas_signers item = Some signers →
              signers ≠ [] → EvPartialSign (tas_transaction item) signers ∈ before) ∨
         (Forall no_final_sign (calls w') ∧ ∃ e, o = Rejected e)
     | None =>
         Forall (fun e => is_wallet_sign e = false) (calls w') ∧
         Forall (fun e => is_local_sign e = true →
                   ∃ item others, item ∈ items ∧
                     e = EvSign (tas_transaction item) (payer_as_signer payer :: others))
                (calls w') ∧
         ∀ v, o = Fulfilled v → ∀ item signers, item ∈ items →
           tas_signers item = Some signers →
           EvSign (tas_transaction item) (payer_as_signer payer :: (SAccount <$> signers))
             ∈ calls w'
     end).
Proof.
  split.
  - intros tx payer signers w' o H.
    destruct (signTransaction_paths _ _ _ _ _ _ _ _ H) as [(b & Hb)|((evs & He & Hf) & Hr)].
    + left. by exists b.
    + right. simpl in He. by rewrite He.
  - intros items payer w' o H. apply signTransactions_paths in H.
    destruct (not_instanceof_Account payer); [exact H|].
    destruct H as (Hw & Hl & Hall). split; [done|]. split.
    + eapply Forall_impl; [exact Hl|]. intros e He Hs.
      destruct (He Hs) as (item & Hi & ->). eexists item, _. split; [done|reflexivity].
    + intros v Hv item signers Hi Hs. specialize (Hall v Hv item Hi).
      by rewrite Hs in Hall.
Qed.

Lemma signing_paths_witness :
  ∃ w' o,
    signTransaction Demo.web3 Demo.connection 1%positive
      (PWallet (Demo.wallet_in_place true)) [Demo.bob] (fresh Demo.heap0) = (w', o) ∧
    existsb is_wallet_sign (calls w') = true ∧
    existsb is_local_sign (calls w') = false.
Proof.
  destruct (signTransaction _ _ _ _ _ _) as [w' o] eqn:E.
  exists w', o. split; [reflexivity|].
  destruct (signing_paths Demo.web3 Demo.connection Demo.heap0) as [Hone _].
  destruct (Hone _ _ _ _ _ E) as [(b & ->)|(Hquiet & e & ->)].
  - split; reflexivity.
  - vm_compute in E. discriminate.
Defined.

(** ** The object that is serialized *)

Lemma bind_result {A B} (m : Task A) (k : A → Task B) w w1 a :
  m w = (w1, Fulfilled a) → (m ≫= k) w = k a w1.
Proof. intros H. unfold mbind, Task_bind, bind. by rewrite H. Qed.

Lemma signTransaction_wallet_inv web3 connection tx wallet signers w w1 signed :
  connected wallet = true →
  signTransaction web3 connection tx (PWallet wallet) signers w = (w1, Fulfilled signed) →
  ∃ w0 answer,
    attach_signers web3 connection tx (PWallet wallet) signers w = (w0, Fulfilled tt) ∧
    wallet_signTransaction wallet (heap w0) tx = (heap w1, Fulfilled answer) ∧
    calls w1 = calls w0 ++ [EvWalletSignTransaction tx] ∧
    signed = Some answer.
Proof.
  intros Hc. unfold signTransaction. simpl. rewrite Hc.
  intros (w0 & [] & Ha & H)%bind_Fulfilled. exists w0.
  unfold mbind, Task_bind, bind, emit, foreign_call, ret in H. simpl in H.
  destruct (wallet_signTransaction wallet (heap w0) tx) as [h2 [answer|e]] eqn:Hw;
    [|done].
  injection H as <- <-. by exists answer.
Qed.

Lemma signTransaction_answering web3 connection tx wallet signers w w1 signed answer :
  connected wallet = true →
  signTransaction web3 connection tx (PWallet wallet) signers w = (w1, Fulfilled signed) →
  signTransaction web3 connection tx (PWallet (answering answer wallet)) signers w
  = (w1, Fulfilled (Some answer)).
Proof.
  intros Hc Hsign.
  destruct (signTransaction_wallet_inv _ _ _ _ _ _ _ _ Hc Hsign) as
    (w0 & a & Ha & Hw & Hlog & _).
  unfold signTransaction.
  change (attach_signers web3 connection tx (PWallet (answering answer wallet)) signers)
    with (attach_signers web3 connection tx (PWallet wallet) signers).
  rewrite (bind_result _ _ _ _ _ Ha). simpl. rewrite Hc.
  unfold mbind, Task_bind, bind, emit, foreign_call, ret. simpl. rewrite Hw.
  destruct w1 as [h1 c1]. simpl in *. by rewrite Hlog.
Qed.

(** C10. On the wallet path of [sendTransaction] the bytes that are sent
    are [serialize()] of the object that the caller passed in, in the state
    in which the wallet's [signTransaction] left that object; the object
    that the wallet's promise resolved to plays no part: with any other
    answer the call does the same and sends the same bytes.  If the wallet
    did not change the caller's object, the bytes are those of the
    transaction as it was before the wallet was called. *)
Theorem wallet_answer_is_discarded web3 connection clock tx wallet signers timeout level
    cb h w' s :
  connected wallet = true →
  sendTransaction_prelude web3 connection clock tx (PWallet wallet) signers timeout level
    cb (fresh h) = (w', Fulfilled s) →
  ∃ w0 h2 answer,
    attach_signers web3 connection tx (PWallet wallet) signers (fresh h)
    = (w0, Fulfilled tt) ∧
    wallet_signTransaction wallet (heap w0) tx = (h2, Fulfilled answer) ∧
    serialize web3 (h2 tx) = inl (sub_rawTransaction s) ∧
    (h2 tx = heap w0 tx → serialize web3 (heap w0 tx) = inl (sub_rawTransaction s)) ∧
    (∀ tx', EvSerialize tx' ∈ calls w' → tx' = tx) ∧
    (∀ answer',
       sendTransaction_prelude web3 connection clock tx (PWallet (answering answer' wallet))
         signers timeout level cb (fresh h) = (w', Fulfilled s)).
Proof.
  intros Hc Hpre.
  destruct (sendTransaction_prelude_inv _ _ _ _ _ _ _ _ _ _ _ _ Hpre) as
    (w1 & signed & signing & callbacks & Hsign & Hser & _ & _ & Hlog & Hs & Hcb & _).
  destruct (signTransaction_wallet_inv _ _ _ _ _ _ _ _ Hc Hsign) as
    (w0 & answer & Ha & Hw & _ & ->).
  exists w0, (heap w1), answer. repeat split; try done.
  - by intros <-.
  - intros tx'. rewrite Hlog, !elem_of_app.
    rewrite Forall_forall in Hs, Hcb.
    intros [Hin|[Hin|[Hin|[Hin|Hin]]]].
    + by apply elem_of_nil in Hin.
    + by apply Hs in Hin.
    + apply list_elem_of_singleton in Hin. congruence.
    + by apply Hcb in Hin.
    + by apply list_elem_of_singleton in Hin.
  - intros answer'. revert Hpre. unfold sendTransaction_prelude.
    by rewrite (bind_result _ _ _ _ _ Hsign),
      (bind_result _ _ _ _ _ (signTransaction_answering _ _ _ _ _ _ _ _ answer' Hc Hsign)).
Qed.

Lemma wallet_answer_is_discarded_witness :
  ∃ w' s,
    sendTransaction_prelude Demo.web3 Demo.connection 0 1%positive
      (PWallet (Demo.wallet_in_place true)) [Demo.bob] None None None (fresh Demo.heap0)
    = (w', Fulfilled s) ∧
    ∀ answer',
      sendTransaction_prelude Demo.web3 Demo.connection 0 1%positive
        (PWallet (answering answer' (Demo.wallet_in_place true))) [Demo.bob] None None None
        (fresh Demo.heap0)
      = (w', Fulfilled s).
Proof.
  destruct (sendTransaction_prelude Demo.web3 Demo.connection 0 1%positive
              (PWallet (Demo.wallet_in_place true)) [Demo.bob] None None None
              (fresh Demo.heap0)) as [w' [s|e]] eqn:E;
    [|vm_compute in E; discriminate].
  exists w', s. split; [reflexivity|].
  destruct (wallet_answer_is_discarded Demo.web3 Demo.connection 0 1%positive
              (Demo.wallet_in_place true) [Demo.bob] None None None Demo.heap0 w' s
              eq_refl E) as
    (_ & _ & _ & _ & _ & _ & _ & _ & Hany).
  exact Hany.
Defined.

(** A wallet that answers with a signed copy and leaves the caller's object
    unsigned: the object that is serialized is the caller's, and here the
    library refuses to serialize it. *)
Example copy_signing_wallet_is_not_used :
  (sendTransaction_prelude Demo.web3 Demo.connection 0 1%positive
     (PWallet Demo.wallet_copy) [Demo.bob] None None None (fresh Demo.heap0)).2
  = Rejected (JError "Signature verification failed").
Proof. vm_compute. reflexivity. Qed.

(** ** The batch *)

Lemma pending_insert values j v :
  values !! j = Some None →
  pending values = S (pending (<[j := Some v]> values)).
Proof.
  intros Hj. unfold pending.
  rewrite <- (take_drop_middle _ _ _ Hj) at 1.
  rewrite (insert_take_drop values j) by by eapply lookup_lt_Some.
  rewrite !filter_app, !filter_cons, !length_app.
  rewrite decide_True by done. rewrite decide_False by done. simpl. lia.
Qed.

Lemma pending_pos values i : values !! i = Some None → (0 < pending values)%nat.
Proof.
  intros Hi. unfold pending.
  assert (None ∈ filter (fun v : option string => v = None) values) as Hin.
  { apply list_elem_of_filter. split; [done|]. by eapply list_elem_of_lookup_2. }
  destruct (filter _ values); [by apply elem_of_nil in Hin | simpl; lia].
Qed.

Lemma pending_zero values :
  pending values = 0%nat → ∀ k, values !! k ≠ Some None.
Proof. intros H0 k Hk. apply pending_pos in Hk. lia. Qed.

Lemma all_react_rejects promises before i after e values remaining :
  promises !! i = Some (Some (Rejected e)) →
  (∀ j, j ∈ before → ¬ rejects promises j) →
  values !! i = Some None → remaining = pending values →
  all_react promises (before ++ i :: after) values remaining = Some (Rejected e).
Proof.
  intros Hi. revert values remaining.
  induction before as [|j before IH]; intros values remaining Hb Hv Hr; simpl.
  { by rewrite Hi. }
  assert (∀ k, k ∈ before → ¬ rejects promises k) as Hb'.
  { intros k Hk. by apply Hb, list_elem_of_further. }
  destruct (promises !! j) as [[[v|e']|]|] eqn:Hj; try by apply IH.
  - destruct (values !! j) as [[x|]|] eqn:Hvj; try by apply IH.
    assert (j ≠ i) as Hne by (intros ->; congruence).
    pose proof (pending_insert _ _ v Hvj) as Hp.
    assert (0 < pending (<[j := Some v]> values))%nat as Hpos.
    { apply (pending_pos _ i). by rewrite list_lookup_insert_ne. }
    destruct (remaining =? 1)%nat eqn:E; [apply Nat.eqb_eq in E; lia|].
    apply IH; [done | by rewrite list_lookup_insert_ne | lia].
  - exfalso. apply (Hb j); [apply list_elem_of_here | by exists e'].
Qed.

Lemma all_react_fulfills promises vs order values remaining :
  Forall2 (fun p v => p = Some (Fulfilled v)) promises vs →
  length values = length promises →
  (∀ k v, values !! k = Some (Some v) → vs !! k = Some v) →
  (∀ k, values !! k = Some None ↔ k ∈ order) →
  NoDup order → remaining = pending values → order ≠ [] →
  all_react promises order values remaining = Some (Fulfilled vs).
Proof.
  intros Hall. revert values remaining.
  induction order as [|j rest IH]; intros values remaining Hlen Hsome Hnone Hnd Hr Hne;
    [done|]. simpl.
  assert (values !! j = Some None) as Hvj by (apply Hnone, list_elem_of_here).
  assert (j < length promises)%nat as Hlt by (rewrite <- Hlen; by eapply lookup_lt_Some).
  destruct (lookup_lt_is_Some_2 promises j Hlt) as [p Hp].
  destruct (Forall2_lookup_l _ _ _ _ _ Hall Hp) as (v & Hv & ->).
  rewrite Hp, Hvj.
  pose proof (pending_insert _ _ v Hvj) as Hpend.
  apply NoDup_cons in Hnd as [Hj Hnd].
  assert (∀ k, <[j := Some v]> values !! k = Some None ↔ k ∈ rest) as Hnone'.
  { intros k. destruct (decide (k = j)) as [->|Hkj].
    - rewrite list_lookup_insert_eq by by eapply lookup_lt_Some. split; [done|].
      intros ?; done.
    - rewrite list_lookup_insert_ne by done. rewrite Hnone, elem_of_cons. tauto. }
  assert (∀ k x, <[j := Some v]> values !! k = Some (Some x) → vs !! k = Some x) as Hsome'.
  { intros k x. destruct (decide (k = j)) as [->|Hkj].
    - rewrite list_lookup_insert_eq by by eapply lookup_lt_Some. by intros [= <-].
    - rewrite list_lookup_insert_ne by done. apply Hsome. }
  destruct (remaining =? 1)%nat eqn:E.
  - apply Nat.eqb_eq in E. do 2 f_equal.
    assert (pending (<[j := Some v]> values) = 0)%nat as H0 by lia.
    assert (<[j := Some v]> values = Some <$> vs) as ->.
    { apply list_eq. intros k. rewrite list_lookup_fmap.
      destruct (<[j := Some v]> values !! k) as [[x|]|] eqn:Hk.
      - by rewrite (Hsome' _ _ Hk).
      - by apply pending_zero with (k := k) in H0.
      - apply lookup_ge_None in Hk. rewrite length_insert, Hlen in Hk.
        rewrite (Forall2_length _ _ _ Hall) in Hk.
        by rewrite (lookup_ge_None_2 vs k). }
    clear. induction vs as [|x vs IH]; [done|]. cbn. by f_equal.
  - apply Nat.eqb_neq in E. apply IH; try done.
    + by rewrite length_insert.
    + lia.
    + intros ->. assert (0 < pending (<[j := Some v]> values))%nat as Hpos by lia.
      unfold pending in Hpos.
      destruct (filter _ _) as [|x l] eqn:Hf; [simpl in Hpos; lia|].
      assert (x ∈ filter (fun v0 : option string => v0 = None) (<[j:=Some v]> values))
        as Hx by (rewrite Hf; apply list_elem_of_here).
      apply list_elem_of_filter in Hx as [-> Hx].
      apply list_elem_of_lookup in Hx as [k Hk]. apply Hnone' in Hk.
      by apply elem_of_nil in Hk.
Qed.

Lemma pending_replicate n : pending (replicate n None) = n.
Proof.
  unfold pending. induction n as [|n IH]; [done|]. cbn [replicate].
  rewrite filter_cons, decide_True by done. simpl. by rewrite IH.
Qed.

Lemma Promise_all_rejects promises before i after e :
  promises !! i = Some (Some (Rejected e)) →
  (∀ j, j ∈ before → ¬ rejects promises j) →
  Promise_all promises (before ++ i :: after) = Some (Rejected e).
Proof.
  intros Hi Hb. unfold Promise_all. destruct promises as [|p rest] eqn:Hp; [done|].
  rewrite <- Hp in *. apply all_react_rejects; try done.
  - apply lookup_replicate_2. by eapply lookup_lt_Some.
  - by rewrite pending_replicate.
Qed.

Lemma Promise_all_fulfills promises vs order :
  Forall2 (fun p v => p = Some (Fulfilled v)) promises vs →
  order ≡ₚ seq 0 (length promises) →
  Promise_all promises order = Some (Fulfilled vs).
Proof.
  intros Hall Hperm. unfold Promise_all.
  destruct promises as [|p rest] eqn:Hp.
  { by apply Forall2_nil_inv_l in Hall as ->. }
  rewrite <- Hp in *. apply all_react_fulfills; try done.
  - by rewrite length_replicate.
  - intros k v Hk. apply lookup_replicate in Hk as [? _]. done.
  - intros k. rewrite Hperm, lookup_replicate, elem_of_seq. split; [lia|].
    intros ?. split; [done|lia].
  - rewrite Hperm. apply NoDup_seq.
  - by rewrite pending_replicate.
  - intros ->. apply Permutation_nil_l in Hperm. by rewrite Hp in Hperm.
Qed.

(** C2, as stated, fails: the second of three submissions fails and the
    batch as a whole rejects with that one error.  The ids of the first and
    third submission, which succeeded, are not in what is returned, and the
    return value is the same whatever id the first submission obtained. *)
Lemma batch_rejects_as_a_whole :
  Demo.batch "A" [0; 1; 2]%nat
  = Some (Rejected (JError "Transaction failed: insufficient funds")) ∧
  Demo.batch "B" [0; 1; 2]%nat
  = Some (Rejected (JError "Transaction failed: insufficient funds")) ∧
  Demo.batch_slot "A" 0 1%positive = Some (Fulfilled "A") ∧
  Demo.batch_slot "B" 0 1%positive = Some (Fulfilled "B") ∧
  Demo.batch_slot "A" 2 3%positive = Some (Fulfilled "txid2").
Proof. repeat split; vm_compute; reflexivity. Qed.

(** C2, amended. [sendTransactions] starts one [sendTransaction] per input,
    each with its own flag and loop, and combines their promises with
    [Promise.all]: when every submission succeeds it returns the list of
    their transaction ids in input order; as soon as one submission fails,
    the batch call fails with the error of that submission, and the results
    of the other submissions are not returned. *)
Theorem batch_is_all_or_first_error web3 payer signers transactions timeout level env :
  (∀ i tx, transactions !! i = Some tx →
     slot_promises web3 payer signers transactions timeout level env !! i
     = Some (sendTransaction web3 (slot_connection (env i)) (slot_clock_ms (env i)) tx
               payer signers (Some (default 30000 timeout))
               (Some (default confirmed level)) None
               (slot_schedule (env i)) (slot_heap (env i)) ≫= settled)) ∧
  (∀ order vs,
     Forall2 (fun p v => p = Some (Fulfilled v))
       (slot_promises web3 payer signers transactions timeout level env) vs →
     order ≡ₚ seq 0 (length transactions) →
     sendTransactions web3 payer signers transactions timeout level env order
     = Some (Fulfilled vs)) ∧
  (∀ before i after e,
     slot_promises web3 payer signers transactions timeout level env !! i
     = Some (Some (Rejected e)) →
     (∀ j, j ∈ before →
        ¬ rejects (slot_promises web3 payer signers transactions timeout level env) j) →
     sendTransactions web3 payer signers transactions timeout level env
       (before ++ i :: after)
     = Some (Rejected e)).
Proof.
  split; [|split].
  - intros i tx Hi. unfold slot_promises. rewrite list_lookup_imap, Hi. done.
  - intros order vs Hall Hperm. unfold sendTransactions.
    apply Promise_all_fulfills; [exact Hall|].
    unfold slot_promises in *. by rewrite length_imap.
  - intros before i after e Hi Hb. unfold sendTransactions.
    by apply Promise_all_rejects.
Qed.

Lemma batch_is_all_or_first_error_witness :
  sendTransactions Demo.web3 (PAccount Demo.alice) [] [1; 2]%positive None None
    Demo.calm_env [1; 0]%nat
  = Some (Fulfilled ["txid0"; "txid1"]).
Proof.
  destruct (batch_is_all_or_first_error Demo.web3 (PAccount Demo.alice) []
              [1; 2]%positive None None Demo.calm_env) as (_ & Hall & _).
  apply Hall.
  - vm_compute. repeat constructor.
  - apply Permutation_swap.
Defined.

(** ** A call that does not get as far as the loop *)

Lemma bind_Rejected {A B} (m : Task A) (k : A → Task B) w w' e :
  (m ≫= k) w = (w', Rejected e) →
  m w = (w', Rejected e) ∨ ∃ w1 a, m w = (w1, Fulfilled a) ∧ k a w1 = (w', Rejected e).
Proof.
  unfold mbind, Task_bind, bind. destruct (m w) as [w1 [a|e']]; [eauto|].
  intros [= <- <-]. by left.
Qed.

Lemma bind_rejects {A B} (m : Task A) (k : A → Task B) w w1 e :
  m w = (w1, Rejected e) → (m ≫= k) w = (w1, Rejected e).
Proof. intros H. unfold mbind, Task_bind, bind. by rewrite H. Qed.

(** The callback statement: the callback logs its call, may change the
    store, and the statement throws only when the [catch] block does. *)
Lemma run_callback_spec (cb : option Callback) w :
  ∃ h', run_callback cb w
        = ({| heap := h'; calls := calls w ++ callback_log cb |},
           if callback_breaks cb (heap w) then Rejected JTypeError else Fulfilled tt).
Proof.
  destruct cb as [callback|]; simpl.
  - unfold try_catch, mbind, Task_bind, bind, emit, foreign_call, ret, throw. simpl.
    destruct (callback (heap w)) as [h' [[]|e]]; [by eexists|]. simpl.
    destruct (ToString_completes e); by eexists.
  - exists (heap w). unfold ret. rewrite app_nil_r. by destruct w.
Qed.

Lemma sent_payloads_app l1 l2 :
  sent_payloads (l1 ++ l2) = sent_payloads l1 ++ sent_payloads l2.
Proof. apply omap_app. Qed.

Lemma sent_payloads_quiet evs :
  Forall (fun e => ¬ is_send e) evs → sent_payloads evs = [].
Proof.
  induction 1 as [|e l He _ IH]; [done|].
  destruct e; try exact IH. by destruct He.
Qed.

Lemma signing_not_send evs :
  Forall signing_event evs → Forall (fun e => ¬ is_send e) evs.
Proof. intros H. eapply Forall_impl; [exact H|]. intros []; simpl; tauto. Qed.

(** The prelude of [sendTransaction], step by step. *)
Lemma sendTransaction_prelude_unfold web3 connection clock tx payer signers timeout level cb w :
  sendTransaction_prelude web3 connection clock tx payer signers timeout level cb w
  = (signTransaction web3 connection tx payer signers ;;
     rawTransaction ← call_serialize web3 tx;
     run_callback cb ;;
     emit (EvSendRawTransaction rawTransaction send_options) ;;
     txid ← await (sendRawTransaction connection rawTransaction send_options);
     ret {| sub_kind := Initial; sub_transaction := tx;
            sub_rawTransaction := rawTransaction; sub_startTime := getUnixTs clock;
            sub_txid := txid; sub_timeout := default 30000 timeout;
            sub_confirmLevel := default processed level |}) w.
Proof. reflexivity. Qed.

Lemma call_serialize_Rejected web3 tx w w' e :
  call_serialize web3 tx w = (w', Rejected e) →
  w' = {| heap := heap w; calls := calls w ++ [EvSerialize tx] |} ∧
  serialize web3 (heap w tx) = inr e.
Proof.
  unfold call_serialize, mbind, Task_bind, bind, emit, query. simpl.
  destruct (serialize web3 (heap w tx)); by intros [= <- <-].
Qed.

(** The prelude of [sendTransaction] once signing and [serialize] have gone
    through: the callback statement changes the store at most, unless its
    [catch] block throws; then the first send decides. *)
Lemma sendTransaction_prelude_signed web3 connection clock tx payer signers timeout level
    cb h w1 signed raw :
  signTransaction web3 connection tx payer signers (fresh h) = (w1, Fulfilled signed) →
  serialize web3 (heap w1 tx) = inl raw →
  ∃ h',
    sendTransaction_prelude web3 connection clock tx payer signers timeout level cb (fresh h)
    = ({| heap := h';
          calls := calls w1 ++ [EvSerialize tx] ++ callback_log cb ++
                   (if callback_breaks cb (heap w1) then []
                    else [EvSendRawTransaction raw send_options]) |},
       if callback_breaks cb (heap w1) then Rejected JTypeError
       else match sendRawTransaction connection raw send_options with
            | Fulfilled txid =>
                Fulfilled {| sub_kind := Initial; sub_transaction := tx;
                             sub_rawTransaction := raw; sub_startTime := getUnixTs clock;
                             sub_txid := txid; sub_timeout := default 30000 timeout;
                             sub_confirmLevel := default processed level |}
            | Rejected e => Rejected e
            end).
Proof.
  intros Hsign Hser. rewrite sendTransaction_prelude_unfold.
  rewrite (bind_result _ _ _ _ _ Hsign).
  unfold call_serialize. unfold mbind at 1, Task_bind at 1, bind at 1.
  unfold mbind at 1, Task_bind at 1, bind at 1. unfold emit at 1, query. simpl.
  rewrite Hser.
  destruct (run_callback_spec cb
              {| heap := heap w1; calls := calls w1 ++ [EvSerialize tx] |}) as (h' & Hcb).
  simpl in Hcb. exists h'.
  unfold mbind at 1, Task_bind at 1, bind at 1. rewrite Hcb.
  destruct (callback_breaks cb (heap w1)).
  { by rewrite app_nil_r, <- app_assoc. }
  unfold mbind, Task_bind, bind, emit, await, ret. simpl.
  destruct (sendRawTransaction connection raw send_options); by rewrite <- !app_assoc.
Qed.

Lemma sendTransaction_prelude_unsigned web3 connection clock tx payer signers timeout level
    cb h w1 e :
  signTransaction web3 connection tx payer signers (fresh h) = (w1, Rejected e) →
  sendTransaction_prelude web3 connection clock tx payer signers timeout level cb (fresh h)
  = (w1, Rejected e).
Proof. intros Hsign. rewrite sendTransaction_prelude_unfold. by apply bind_rejects. Qed.

Lemma sendTransaction_prelude_unserialized web3 connection clock tx payer signers timeout
    level cb h w1 signed e :
  signTransaction web3 connection tx payer signers (fresh h) = (w1, Fulfilled signed) →
  serialize web3 (heap w1 tx) = inr e →
  sendTransaction_prelude web3 connection clock tx payer signers timeout level cb (fresh h)
  = ({| heap := heap w1; calls := calls w1 ++ [EvSerialize tx] |}, Rejected e).
Proof.
  intros Hsign Hser.
  rewrite sendTransaction_prelude_unfold, (bind_result _ _ _ _ _ Hsign).
  apply bind_rejects. unfold call_serialize, mbind, Task_bind, bind, emit, query.
  simpl. by rewrite Hser.
Qed.

Lemma signing_sends_nothing web3 connection tx payer signers w w1 o :
  signTransaction web3 connection tx payer signers w = (w1, o) →
  sent_payloads (calls w1) = sent_payloads (calls w).
Proof.
  intros Hsign.
  destruct (signTransaction_emits _ _ _ _ _ _ _ _ Hsign) as (evs & -> & Hev).
  by rewrite sent_payloads_app, (sent_payloads_quiet evs), app_nil_r
    by by apply signing_not_send.
Qed.

(** The causes of an early rejection, read off the three steps. *)
Lemma early_failure_cases web3 connection tx payer signers cb h e :
  early_failure web3 connection tx payer signers cb h e ↔
  match signTransaction web3 connection tx payer signers (fresh h) with
  | (_, Rejected e1) => e = e1
  | (w1, Fulfilled _) =>
      match serialize web3 (heap w1 tx) with
      | inr e1 => e = e1
      | inl raw =>
          if callback_breaks cb (heap w1) then e = JTypeError
          else sendRawTransaction connection raw send_options = Rejected e
      end
  end.
Proof.
  unfold early_failure.
  destruct (signTransaction web3 connection tx payer signers (fresh h))
    as [w1 [signed|e1]].
  - split.
    + intros [(w & [=]) | (w & s' & [= <- <-] & [H | (raw & Hraw & H)])].
      * by rewrite H.
      * rewrite Hraw. by destruct H as [[-> ->] | [-> H]].
    + intros H. right. exists w1, signed. split; [done|].
      destruct (serialize web3 (heap w1 tx)) as [raw|e1]; [|left; congruence].
      right. exists raw. split; [done|].
      destruct (callback_breaks cb (heap w1)); [left|right]; by split.
  - split.
    + by intros [(w & [= _ ->]) | (w & s' & [=] & _)].
    + intros ->. left. by exists w1.
Qed.

(** X1. [sendTransaction] rejects before its loop starts exactly when
    signing throws, [serialize] throws, the [catch] block around the callback
    throws, or the first [sendRawTransaction] rejects.  It rejects with the
    error of that step; for the callback that is not the value the callback
    threw, which the [catch] block swallows, but the [TypeError] raised when
    that value cannot be converted to a string for the log line.  When the
    call rejects this early the watcher has not been called, nothing sleeps,
    and at most the one failed send has gone out. *)
Theorem early_rejection web3 connection clock tx payer signers timeout level cb schedule h :
  (∀ e,
     (∃ w, sendTransaction web3 connection clock tx payer signers timeout level cb
             schedule h = Some (NotStarted w e)) ↔
     early_failure web3 connection tx payer signers cb h e) ∧
  (∀ w e,
     sendTransaction web3 connection clock tx payer signers timeout level cb schedule h
     = Some (NotStarted w e) →
     Forall prelude_event (calls w) ∧
     (sent_payloads (calls w) = [] ∨
      ∃ raw, sent_payloads (calls w) = [raw] ∧
             sendRawTransaction connection raw send_options = Rejected e)).
Proof.
  assert (∀ w e,
            sendTransaction web3 connection clock tx payer signers timeout level cb
              schedule h = Some (NotStarted w e) →
            sendTransaction_prelude web3 connection clock tx payer signers timeout level
              cb (fresh h) = (w, Rejected e)) as Hprelude.
  { unfold sendTransaction, submit. intros w e.
    destruct (sendTransaction_prelude _ _ _ _ _ _ _ _ _ _) as [w' [s|e']].
    - by destruct (run s (start s w') schedule).
    - by intros [= <- <-]. }
  assert (∀ w e,
            sendTransaction_prelude web3 connection clock tx payer signers timeout level
              cb (fresh h) = (w, Rejected e) →
            sendTransaction web3 connection clock tx payer signers timeout level cb
              schedule h = Some (NotStarted w e)) as Hcall.
  { unfold sendTransaction, submit. by intros w e ->. }
  split.
  - intros e. rewrite early_failure_cases.
    destruct (signTransaction web3 connection tx payer signers (fresh h))
      as [w1 [signed|e1]] eqn:Hsign.
    2:{ pose proof (sendTransaction_prelude_unsigned _ _ clock _ _ _ timeout level cb
                      _ _ _ Hsign) as Heval.
        split.
        - intros (w & Hrun%Hprelude). congruence.
        - intros ->. eauto. }
    destruct (serialize web3 (heap w1 tx)) as [raw|e1] eqn:Hser.
    2:{ pose proof (sendTransaction_prelude_unserialized _ _ clock _ _ _ timeout level cb
                      _ _ _ _ Hsign Hser) as Heval.
        split.
        - intros (w & Hrun%Hprelude). congruence.
        - intros ->. eauto. }
    destruct (sendTransaction_prelude_signed _ _ clock _ _ _ timeout level cb _ _ _ _
                Hsign Hser) as (h' & Heval).
    destruct (callback_breaks cb (heap w1)).
    { split.
      - intros (w & Hrun%Hprelude). congruence.
      - intros ->. eauto. }
    destruct (sendRawTransaction connection raw send_options) as [txid|e1].
    + split; [|done]. intros (w & Hrun%Hprelude). congruence.
    + split.
      * intros (w & Hrun%Hprelude). congruence.
      * intros [= <-]. eauto.
  - intros w e Hrun%Hprelude. split.
    { by destruct (sendTransaction_prelude_emits _ _ _ _ _ _ _ _ _ _ _ _ Hrun)
        as (evs & -> & ?). }
    destruct (signTransaction web3 connection tx payer signers (fresh h))
      as [w1 [signed|e1]] eqn:Hsign.
    2:{ rewrite (sendTransaction_prelude_unsigned _ _ clock _ _ _ timeout level cb
                   _ _ _ Hsign) in Hrun.
        injection Hrun as <- _. left.
        by rewrite (signing_sends_nothing _ _ _ _ _ _ _ _ Hsign). }
    pose proof (signing_sends_nothing _ _ _ _ _ _ _ _ Hsign) as Hquiet.
    simpl in Hquiet.
    destruct (serialize web3 (heap w1 tx)) as [raw|e1] eqn:Hser.
    2:{ rewrite (sendTransaction_prelude_unserialized _ _ clock _ _ _ timeout level cb
                   _ _ _ _ Hsign Hser) in Hrun.
        injection Hrun as <- _. left. simpl. by rewrite sent_payloads_app, Hquiet. }
    destruct (sendTransaction_prelude_signed _ _ clock _ _ _ timeout level cb _ _ _ _
                Hsign Hser) as (h' & Heval).
    rewrite Heval in Hrun. clear Heval.
    destruct (callback_breaks cb (heap w1)).
    { injection Hrun as <- _. left. simpl.
      rewrite app_nil_r, !sent_payloads_app, Hquiet. by destruct cb. }
    destruct (sendRawTransaction connection raw send_options) as [txid|e1] eqn:Hsend;
      [done|].
    injection Hrun as <- <-. right. exists raw. split; [|done]. simpl.
    rewrite !sent_payloads_app, Hquiet. by destruct cb.
Qed.

(** ** The callback *)

(** What the two activities do next depends on the flag and on where they
    stand, not on the store nor on the log. *)
Lemma step_same_control s st1 st2 a st1' :
  same_control st1 st2 → step s st1 a = Some st1' →
  ∃ st2' evs, step s st2 a = Some st2' ∧ same_control st1' st2' ∧
              appended st1 st1' evs ∧ appended st2 st2' evs.
Proof.
  destruct st1 as [w1 d1 l1 m1], st2 as [w2 d2 l2 m2].
  intros (Hd & Hl & Hm); simpl in Hd, Hl, Hm; subst d2 l2 m2.
  unfold appended, same_control.
  destruct a as [clock|o|o eff]; simpl.
  - destruct l1; intros [= <-]; unfold loop_wake; simpl;
      destruct (loop_continues s d1 clock); simpl;
      eexists _, _; (split; [reflexivity|]); simpl; rewrite <- ?app_assoc; done.
  - destruct m1; intros [= <-]. unfold on_confirmation.
    destruct o as [[]|err];
      [|destruct (get_prop err "timeout") as [t|]; [destruct (truthy t)|]];
      eexists _, _; (split; [reflexivity|]); simpl; done.
  - destruct m1; intros [= <-]. unfold on_simulation.
    eexists _, _; (split; [reflexivity|]); simpl; done.
Qed.

Lemma run_same_control s schedule st1 st2 st1' :
  same_control st1 st2 → run s st1 schedule = Some st1' →
  ∃ st2' evs, run s st2 schedule = Some st2' ∧ same_control st1' st2' ∧
              appended st1 st1' evs ∧ appended st2 st2' evs.
Proof.
  revert st1 st2. induction schedule as [|a rest IH]; simpl; intros st1 st2 Hc.
  - intros [= <-]. exists st2, []. unfold appended. by rewrite !app_nil_r.
  - destruct (step s st1 a) as [st1a|] eqn:E; [|done]. intros Hrun.
    destruct (step_same_control _ _ _ _ _ Hc E) as (st2a & evs1 & -> & Hc' & Ha1 & Ha2).
    destruct (IH _ _ Hc' Hrun) as (st2' & evs2 & -> & Hc'' & Hb1 & Hb2).
    exists st2', (evs1 ++ evs2). unfold appended in *.
    rewrite Hb1, Hb2, Ha1, Ha2, !app_assoc. by split.
Qed.

Lemma without_callback_app l1 l2 :
  without_callback (l1 ++ l2) = without_callback l1 ++ without_callback l2.
Proof. apply omap_app. Qed.

Lemma without_callback_id evs :
  Forall (fun e => e ≠ EvCallback) evs → without_callback evs = evs.
Proof.
  induction 1 as [|e l He _ IH]; [done|].
  unfold without_callback in *. cbn [omap list_omap]. rewrite IH. by destruct e.
Qed.

Lemma without_callback_log cb : without_callback (callback_log cb) = [].
Proof. by destruct cb. Qed.

Lemma signing_not_callback evs :
  Forall signing_event evs → Forall (fun e => e ≠ EvCallback) evs.
Proof. intros H. eapply Forall_impl; [exact H|]. by intros []. Qed.

Lemma activity_not_callback s evs :
  Forall (activity_event s) evs → Forall (fun e => e ≠ EvCallback) evs.
Proof. intros H. eapply Forall_impl; [exact H|]. by intros []. Qed.

(** The prelude of [sendTransaction] once signing and [serialize] have gone
    through: the callback statement changes the store at most, and the
    first send decides. *)
(** With a callback whose [catch] block does not throw, or without a
    callback, a prelude ends the same way and logs the same calls, the
    callback apart. *)
Lemma sendTransaction_prelude_callback web3 connection clock tx payer signers timeout level
    callback h :
  callback_stops web3 connection tx payer signers callback h = false →
  ∃ w w0 o,
    sendTransaction_prelude web3 connection clock tx payer signers timeout level
      (Some callback) (fresh h) = (w, o) ∧
    sendTransaction_prelude web3 connection clock tx payer signers timeout level
      None (fresh h) = (w0, o) ∧
    without_callback (calls w) = calls w0.
Proof.
  unfold callback_stops.
  destruct (signTransaction web3 connection tx payer signers (fresh h))
    as [w1 [signed|e]] eqn:Hsign.
  2:{ intros _. exists w1, w1, (Rejected e).
      rewrite !(sendTransaction_prelude_unsigned _ _ _ _ _ _ _ _ _ _ _ _ Hsign).
      repeat split.
      destruct (signTransaction_emits _ _ _ _ _ _ _ _ Hsign) as (evs & -> & Hev).
      by apply without_callback_id, signing_not_callback. }
  assert (without_callback (calls w1) = calls w1) as Hq.
  { destruct (signTransaction_emits _ _ _ _ _ _ _ _ Hsign) as (evs & -> & Hev).
    by apply without_callback_id, signing_not_callback. }
  destruct (serialize web3 (heap w1 tx)) as [raw|e] eqn:Hser.
  - intros Hstops.
    destruct (sendTransaction_prelude_signed _ _ clock _ _ _ timeout level
                (Some callback) _ _ _ _ Hsign Hser) as (h1 & ->).
    destruct (sendTransaction_prelude_signed _ _ clock _ _ _ timeout level
                None _ _ _ _ Hsign Hser) as (h0 & ->).
    rewrite Hstops. eexists _, _, _. repeat split. simpl.
    by rewrite without_callback_app, Hq.
  - intros _.
    rewrite !(sendTransaction_prelude_unserialized _ _ _ _ _ _ _ _ _ _ _ _ _ Hsign Hser).
    eexists _, _, _. repeat split. simpl.
    by rewrite without_callback_app, Hq.
Qed.

(** X2. A [postSignTxCallback] can change what [sendTransaction] does in
    one way only: by throwing a value that cannot be converted to a string.
    Then the [catch] block around the callback throws a [TypeError], and the
    call rejects with it before anything has been sent.  In every other
    case, whatever the callback returns or throws and whatever it does to
    the transaction objects, under the same answers of the endpoint the call
    goes as far, settles the same way and makes the same calls in the same
    order, with the same bytes, as the call without a callback; the log
    differs by the call of the callback alone. *)
Theorem callback_is_contained web3 connection clock tx payer signers timeout level
    callback schedule h :
  if callback_stops web3 connection tx payer signers callback h then
    ∃ w, sendTransaction web3 connection clock tx payer signers timeout level
           (Some callback) schedule h = Some (NotStarted w JTypeError) ∧
         sent_payloads (calls w) = []
  else
    match sendTransaction web3 connection clock tx payer signers timeout level
            (Some callback) schedule h,
          sendTransaction web3 connection clock tx payer signers timeout level
            None schedule h with
    | Some r, Some r0 =>
        settled r = settled r0 ∧
        without_callback (run_calls r) = run_calls r0 ∧
        sent_payloads (run_calls r) = sent_payloads (run_calls r0)
    | None, None => True
    | _, _ => False
    end.
Proof.
  destruct (callback_stops web3 connection tx payer signers callback h) eqn:Hstops.
  { unfold callback_stops in Hstops. unfold sendTransaction, submit.
    destruct (signTransaction web3 connection tx payer signers (fresh h))
      as [w1 [signed|e]] eqn:Hsign; [|done].
    destruct (serialize web3 (heap w1 tx)) as [raw|e] eqn:Hser; [|done].
    destruct (sendTransaction_prelude_signed _ _ clock _ _ _ timeout level
                (Some callback) _ _ _ _ Hsign Hser) as (h1 & ->).
    rewrite Hstops. eexists. split; [done|]. simpl.
    rewrite !sent_payloads_app.
    by rewrite (signing_sends_nothing _ _ _ _ _ _ _ _ Hsign). }
  assert (∀ evs, sent_payloads (without_callback evs) = sent_payloads evs) as Hsent.
  { induction evs as [|e l IH]; [done|]. destruct e; simpl; try done.
    all: unfold sent_payloads, without_callback in *; cbn [omap list_omap];
      by rewrite ?IH. }
  unfold sendTransaction, submit.
  destruct (sendTransaction_prelude_callback web3 connection clock tx payer signers
              timeout level callback h Hstops) as (w & w0 & o & -> & -> & Hlog).
  destruct o as [s|e]; [|simpl; by rewrite <- Hlog, Hsent].
  assert (same_control (start s w) (start s w0)) as Hc by done.
  destruct (run s (start s w) schedule) as [st|] eqn:E; simpl.
  - destruct (run_same_control _ _ _ _ _ Hc E) as (st0 & evs & -> & Hc' & Ha & Ha0).
    simpl. destruct Hc' as (_ & _ & Hm). rewrite <- Hm.
    destruct (run_activity_events _ _ _ _ E) as (evs' & Hcalls & Hact).
    assert (without_callback (calls (world st)) = calls (world st0)) as Hw.
    { unfold appended in Ha, Ha0. simpl in Ha, Ha0.
      rewrite Ha0, <- Hlog, <- !app_assoc. rewrite Hcalls, <- !app_assoc in Ha.
      apply app_inv_head in Ha. subst evs'.
      rewrite Hcalls, without_callback_app.
      f_equal. by apply without_callback_id, (activity_not_callback s). }
    split; [done|]. split; [done|]. by rewrite <- Hw, Hsent.
  - destruct (run s (start s w0) schedule) as [st0|] eqn:E0; [|done]. simpl.
    assert (same_control (start s w0) (start s w)) as Hc0 by done.
    destruct (run_same_control _ _ _ _ _ Hc0 E0) as (st1 & evs & E1 & _). congruence.
Qed.

(** ** How a call resolves, and what is left to do afterwards *)

Lemma fulfilled_inv s schedule st st' txid :
  run s st schedule = Some st' → main st' = MSettled (Fulfilled txid) →
  main st = MSettled (Fulfilled txid) ∨
  (main st = MAwaitConfirmation ∧ txid = sub_txid s ∧
   AConfirmation (Fulfilled tt) ∈ schedule).
Proof.
  revert st. induction schedule as [|a rest IH]; simpl; intros st.
  { intros [= <-]. by left. }
  destruct (step s st a) as [st1|] eqn:E; [|done]. intros Hrun Hm.
  destruct (IH _ Hrun Hm) as [H1 | (H1 & -> & Hin)]; destruct a as [clock|o|o eff];
    simpl in E.
  - destruct (loop st); simplify_eq;
      destruct (loop_wake_spec s clock st) as (_ & Hmain & _); left; congruence.
  - destruct (main st) eqn:Hst; simplify_eq. right. split; [done|].
    unfold on_confirmation in H1.
    destruct o as [[]|err];
      [|destruct (get_prop err "timeout") as [t|]; [destruct (truthy t)|]];
      simpl in H1; simplify_eq. split; [done|]. apply list_elem_of_here.
  - destruct (main st) eqn:Hst; simplify_eq.
  - destruct (loop st); simplify_eq;
      destruct (loop_wake_spec s clock st) as (_ & Hmain & _); right;
      (split; [congruence|]); (split; [done|]); by apply list_elem_of_further.
  - destruct (main st) eqn:Hst; simplify_eq. unfold on_confirmation in H1.
    destruct o as [[]|err];
      [|destruct (get_prop err "timeout") as [t|]; [destruct (truthy t)|]];
      simpl in H1; simplify_eq.
  - destruct (main st) eqn:Hst; simplify_eq.
Qed.

Lemma confirmation_settles s schedule st st' :
  AConfirmation (Fulfilled tt) ∈ schedule → run s st schedule = Some st' →
  main st' = MSettled (Fulfilled (sub_txid s)).
Proof.
  intros Hin Hrun.
  destruct (run_split _ _ _ _ _ Hin Hrun) as (before & after & st1 & st2 & _ & _ & H2 & H3).
  simpl in H2. destruct (main st1); simplify_eq.
  by destruct (settled_absorbing s after (on_confirmation s (Fulfilled tt) st1) st'
                 eq_refl H3) as [-> _].
Qed.

Lemma started_resolves connection schedule s w st :
  sendRawTransaction connection (sub_rawTransaction s) send_options
  = Fulfilled (sub_txid s) →
  run s (start s w) schedule = Some st →
  resolves_as_first_send connection schedule (Started s st).
Proof.
  intros Hsend Hrun txid. simpl. split.
  - destruct (main st) as [| |o] eqn:Hm; try done. intros [= ->].
    destruct (fulfilled_inv _ _ _ _ _ Hrun Hm) as [? | (_ & -> & Hin)]; [done|].
    by exists s, st.
  - intros (s' & st'' & [= <- <-] & Hin & Hsend').
    rewrite (confirmation_settles _ _ _ _ Hin Hrun). congruence.
Qed.

Lemma not_started_resolves connection schedule w e :
  resolves_as_first_send connection schedule (NotStarted w e).
Proof.
  intros txid. simpl. split; [done|]. by intros (s & st & ? & _).
Qed.

Lemma sendTransaction_resolves web3 connection clock tx payer signers timeout level cb
    schedule h r :
  sendTransaction web3 connection clock tx payer signers timeout level cb schedule h
  = Some r →
  resolves_as_first_send connection schedule r.
Proof.
  unfold sendTransaction, submit.
  destruct (sendTransaction_prelude _ _ _ _ _ _ _ _ _ _) as [w [s|e]] eqn:E.
  2:{ intros [= <-]. apply not_started_resolves. }
  intros (st & Hrun & ->)%fmap_Some.
  apply sendTransaction_prelude_inv in E as (_ & _ & _ & _ & _ & _ & Hsend & _).
  by eapply started_resolves.
Qed.

(** X3. A call of [sendTransaction] or of [sendSignedTransaction] resolves
    exactly when it got past its first send and the confirmation watcher
    resolved, and the value it resolves to is then the transaction id that
    the endpoint answered to the first [sendRawTransaction]: no later
    resend and no simulation has a say in it. *)
Theorem resolves_with_the_first_txid :
  (∀ web3 connection clock tx payer signers timeout level cb schedule h r,
     sendTransaction web3 connection clock tx payer signers timeout level cb schedule h
     = Some r →
     resolves_as_first_send connection schedule r) ∧
  (∀ web3 connection clock tx timeout level schedule h r,
     sendSignedTransaction web3 connection clock tx timeout level schedule h = Some r →
     resolves_as_first_send connection schedule r).
Proof.
  split; [apply sendTransaction_resolves|].
  unfold sendSignedTransaction, submit.
  intros web3 connection clock tx timeout level schedule h r.
  destruct (sendSignedTransaction_prelude _ _ _ _ _ _ _) as [w [s|e]] eqn:E.
  2:{ intros [= <-]. apply not_started_resolves. }
  intros (st & Hrun & ->)%fmap_Some.
  apply sendSignedTransaction_prelude_inv in E as (_ & Hsend & _).
  by eapply started_resolves.
Qed.

Lemma resolves_with_the_first_txid_witness :
  ∃ r, Demo.send Demo.schedule_success = Some r ∧
       settled r = Some (Fulfilled "txid32").
Proof.
  unfold Demo.send.
  destruct (sendTransaction _ _ _ _ _ _ _ _ _ _ _) as [r|] eqn:E;
    [|vm_compute in E; discriminate].
  exists r. split; [reflexivity|].
  destruct resolves_with_the_first_txid as [H _].
  apply (H _ _ _ _ _ _ _ _ _ _ _ _ E).
  vm_compute in E. injection E as <-.
  eexists _, _. split; [reflexivity|]. split.
  - unfold Demo.schedule_success.
    repeat first [apply list_elem_of_here | apply list_elem_of_further].
  - vm_compute. reflexivity.
Defined.

Lemma started_flag s schedule w st :
  run s (start s w) schedule = Some st → done st = is_settled (main st).
Proof.
  intros Hrun.
  by destruct (run_invariant s (flag_invariant (done_writes (calls w)))
                 (flag_invariant_step s _) schedule _ _ (start_flag_invariant s w) Hrun).
Qed.

Lemma settled_then s st more st' :
  is_settled (main st) = true → done st = true → run s st more = Some st' →
  (more = [] ∧ st' = st) ∨
  (∃ clock, more = [ALoopWake clock] ∧ loop st ≠ LExited ∧ loop st' = LExited ∧
     main st' = main st ∧ done st' = true ∧ heap (world st') = heap (world st) ∧
     calls (world st') = calls (world st) ++ [EvLoopTest true]).
Proof.
  intros Hs Hd. destruct more as [|a more]; simpl.
  { intros [= <-]. by left. }
  destruct (step s st a) as [st1|] eqn:E; [|done]. intros Hrun. right.
  destruct a as [clock|o|o eff]; simpl in E;
    [|destruct (main st); simplify_eq..].
  assert (loop st ≠ LExited ∧ st1 = loop_wake s clock st) as [Hl ->].
  { destruct (loop st); simplify_eq; by split. }
  unfold loop_wake, loop_continues in Hrun. rewrite Hd in Hrun. simpl in Hrun.
  destruct more as [|b more]; simpl in Hrun.
  - injection Hrun as <-. exists clock. by repeat split.
  - destruct b as [clock'|o|o eff]; simpl in Hrun; [done|destruct (main st); simplify_eq..].
Qed.

(** X4. Once a call of [sendTransaction] or of [sendSignedTransaction] has
    settled, all that its loop can still do is wake once, read [done] as
    [true] and leave the [while]: nothing more is sent, no transaction
    object is touched, the outcome stays as it is, and after that wake
    nothing of the call is left to run. *)
Theorem settled_call_winds_down s st more st' :
  submission_run (Started s st) → is_settled (main st) = true →
  run s st more = Some st' →
  (more = [] ∧ st' = st) ∨
  (∃ clock, more = [ALoopWake clock] ∧ loop st ≠ LExited ∧ loop st' = LExited ∧
     main st' = main st ∧ done st' = true ∧ heap (world st') = heap (world st) ∧
     calls (world st') = calls (world st) ++ [EvLoopTest true]).
Proof.
  intros [schedule (w & _ & Hrun)%submission_run_started] Hs.
  apply settled_then; [done|]. by rewrite (started_flag _ _ _ _ Hrun).
Qed.

Lemma settled_call_winds_down_witness :
  ∃ s st st',
    Demo.send [ALoopWake 1000; AConfirmation (Fulfilled tt)] = Some (Started s st) ∧
    run s st [ALoopWake 3000] = Some st' ∧
    loop st' = LExited ∧
    calls (world st') = calls (world st) ++ [EvLoopTest true].
Proof.
  unfold Demo.send.
  destruct (sendTransaction _ _ _ _ _ _ _ _ _ _ _) as [[w e|s st]|] eqn:E;
    [vm_compute in E; discriminate | | vm_compute in E; discriminate].
  destruct (run s st [ALoopWake 3000]) as [st'|] eqn:E';
    [|vm_compute in E; injection E as <- <-; vm_compute in E'; discriminate].
  exists s, st, st'. split; [reflexivity|]. split; [exact E'|].
  assert (submission_run (Started s st)) as H.
  { eexists. left. unfold from_sendTransaction. do 10 eexists. exact E. }
  assert (is_settled (main st) = true) as Hs.
  { vm_compute in E. by injection E as <- <-. }
  destruct (settled_call_winds_down s st [ALoopWake 3000] st' H Hs E')
    as [[? _] | (clock & _ & _ & Hl & _ & _ & _ & Hc)]; [discriminate|].
  by split.
Defined.

(** ** How often the loop sends *)

(** The test of the [while] at work, in binary64.  A call that starts at a
    clock reading of today with a timeout of 30001 ms still passes the test
    30001 ms later; [sendSignedTransaction], which compares seconds with its
    timeout in milliseconds, still passes it after a minute with the default
    timeout. *)
Example window_at_the_deadline :
  in_window (PrimFloat.div (Number 30001) (Number 1000)) 1700000000000 1700000030001
  = true ∧
  in_window (PrimFloat.div (Number 30001) (Number 1000)) 0 30001 = false ∧
  in_window (Number 30000) 0 60000 = true.
Proof. repeat split; vm_compute; reflexivity. Qed.

Lemma done_stays s a st st' :
  done st = true → step s st a = Some st' →
  done st' = true ∧ sent_payloads (calls (world st')) = sent_payloads (calls (world st)).
Proof.
  intros Hd. destruct a as [clock|o|o eff]; simpl.
  - intros Hstep.
    assert (st' = loop_wake s clock st) as -> by (destruct (loop st); by simplify_eq).
    unfold loop_wake, loop_continues. rewrite Hd. simpl.
    by rewrite sent_payloads_app, app_nil_r.
  - destruct (main st); intros; simplify_eq. unfold on_confirmation.
    destruct o as [[]|err];
      [|destruct (get_prop err "timeout") as [t|]; [destruct (truthy t)|]];
      simpl; by rewrite sent_payloads_app, app_nil_r.
  - destruct (main st); intros; simplify_eq. simpl.
    by rewrite sent_payloads_app, app_nil_r.
Qed.

Lemma run_done_stays s schedule st st' :
  done st = true → run s st schedule = Some st' →
  sent_payloads (calls (world st')) = sent_payloads (calls (world st)).
Proof.
  revert st. induction schedule as [|a rest IH]; simpl; intros st Hd.
  { by intros [= <-]. }
  destruct (step s st a) as [st1|] eqn:E; [|done]. intros Hrun.
  destruct (done_stays _ _ _ _ Hd E) as [Hd1 <-]. by apply IH.
Qed.

Lemma resends_ext (f g : Z → bool) schedule :
  (∀ clock_ms, f clock_ms = g clock_ms) → resends f schedule = resends g schedule.
Proof.
  intros Hfg. induction schedule as [|a rest IH]; [done|]. simpl.
  destruct (settles a); [done|]. destruct a; try done. by rewrite Hfg, IH.
Qed.

(** What a run sends: one copy of the bytes for every wake that finds the
    call pending and the time not up. *)
Lemma run_sends s schedule st st' :
  done st = false → run s st schedule = Some st' →
  sent_payloads (calls (world st'))
  = sent_payloads (calls (world st)) ++
    replicate (resends (loop_continues s false) schedule) (sub_rawTransaction s).
Proof.
  revert st. induction schedule as [|a rest IH]; simpl; intros st Hd.
  { intros [= <-]. by rewrite app_nil_r. }
  destruct (step s st a) as [st1|] eqn:E; [|done]. intros Hrun.
  destruct a as [clock|o|o eff]; simpl in E |- *.
  - assert (st1 = loop_wake s clock st) as -> by (destruct (loop st); by simplify_eq).
    destruct (loop_wake_spec s clock st) as (Hd1 & _ & _ & Hcase).
    rewrite Hd in Hcase.
    rewrite (IH _ (eq_trans Hd1 Hd) Hrun).
    destruct Hcase as [(-> & _ & ->)|(-> & _ & ->)];
      rewrite sent_payloads_app; simpl; by rewrite <- app_assoc.
  - destruct (main st); simplify_eq. unfold on_confirmation in Hrun.
    destruct o as [[]|err];
      [|destruct (get_prop err "timeout") as [t|]; [destruct (truthy t)|]].
    all: try (apply run_done_stays in Hrun as ->; [|done]; simpl;
              by rewrite sent_payloads_app, !app_nil_r).
    apply IH in Hrun as ->; [|done]. simpl. by rewrite sent_payloads_app, app_nil_r.
  - destruct (main st); simplify_eq.
    apply run_done_stays in Hrun as ->; [|done]. simpl.
    by rewrite sent_payloads_app, !app_nil_r.
Qed.

Lemma resends_none (in_time : Z → bool) schedule :
  (∀ clock_ms, ALoopWake clock_ms ∈ schedule → in_time clock_ms = false) →
  resends in_time schedule = 0%nat.
Proof.
  induction schedule as [|a rest IH]; [done|]. intros Hlate. simpl.
  destruct (settles a); [done|].
  assert (resends in_time rest = 0%nat) as ->.
  { apply IH. intros c Hc. by apply Hlate, list_elem_of_further. }
  destruct a as [clock| |]; try done.
  by rewrite (Hlate clock (list_elem_of_here _ _)).
Qed.

Lemma prelude_sent_once s evs :
  prelude_log s evs → sent_payloads evs = [sub_rawTransaction s].
Proof.
  intros (signing & callbacks & -> & Hs & Hc).
  rewrite !sent_payloads_app.
  rewrite (sent_payloads_quiet signing) by by apply signing_not_send.
  rewrite (sent_payloads_quiet callbacks); [done|].
  eapply Forall_impl; [exact Hc|]. intros ? ->. simpl. tauto.
Qed.

Lemma started_sends s start_ms schedule w st :
  sub_startTime s = getUnixTs start_ms → prelude_log s (calls w) →
  run s (start s w) schedule = Some st →
  sent_payloads (calls (world st))
  = replicate
      (S (resends (in_window (loop_bound (sub_kind s) (sub_timeout s)) start_ms)
            schedule))
      (sub_rawTransaction s).
Proof.
  intros Hstart Hlog Hrun.
  apply run_sends in Hrun as ->; [|done]. simpl.
  rewrite !sent_payloads_app, (prelude_sent_once _ _ Hlog). simpl. do 2 f_equal.
  apply resends_ext. intros clock_ms. unfold loop_continues, in_window.
  by rewrite Hstart.
Qed.

(** X5. How often the transaction is broadcast.  A call that got past its
    first send has sent the same bytes once, plus once for every wake of the
    loop that came before the call settled and at which the test
    [getUnixTs() - startTime < bound] held, evaluated in binary64 as the
    code does.  The bound is [timeout / 1000] in [sendTransaction] and
    [timeout] itself, a number of milliseconds compared with seconds, in
    [sendSignedTransaction].  A watcher that reports an on-chain failure
    does not settle the call: the loop keeps sending while the simulation is
    awaited.  If the test fails at every wake, the first send is the only
    one. *)
Theorem broadcast_count :
  (∀ web3 connection start_ms tx payer signers timeout level cb schedule h s st,
     sendTransaction web3 connection start_ms tx payer signers timeout level cb
       schedule h = Some (Started s st) →
     sent_payloads (calls (world st))
     = replicate
         (S (resends
               (in_window (PrimFloat.div (Number (default 30000 timeout)) (Number 1000))
                  start_ms)
               schedule))
         (sub_rawTransaction s)) ∧
  (∀ web3 connection start_ms tx timeout level schedule h s st,
     sendSignedTransaction web3 connection start_ms tx timeout level schedule h
     = Some (Started s st) →
     sent_payloads (calls (world st))
     = replicate
         (S (resends (in_window (Number (default 30000 timeout)) start_ms) schedule))
         (sub_rawTransaction s)) ∧
  (∀ in_time before err t after,
     get_prop err "timeout" = Some t → truthy t = false →
     resends in_time (before ++ AConfirmation (Rejected err) :: after)
     = resends in_time (before ++ after)) ∧
  (∀ in_time schedule,
     (∀ clock_ms, ALoopWake clock_ms ∈ schedule → in_time clock_ms = false) →
     resends in_time schedule = 0%nat).
Proof.
  unfold sendTransaction, sendSignedTransaction, submit. repeat split.
  - intros web3 connection start_ms tx payer signers timeout level cb schedule h s st.
    destruct (sendTransaction_prelude _ _ _ _ _ _ _ _ _ _) as [w [s'|e]] eqn:E; [|done].
    intros (st' & Hrun & [= <- <-])%fmap_Some.
    pose proof E as Hinv.
    apply sendTransaction_prelude_inv in Hinv as
      (w1 & signed & signing & callbacks & _ & _ & _ & _ & Hc & Hs & Hcb & Hk & Htx &
       Hstart & Htimeout & _).
    assert (prelude_log s (calls w)) as Hlog.
    { exists signing, callbacks. by rewrite Htx, Hc. }
    rewrite (started_sends _ _ _ _ _ Hstart Hlog Hrun). by rewrite Hk, Htimeout.
  - intros web3 connection start_ms tx timeout level schedule h s st.
    destruct (sendSignedTransaction_prelude _ _ _ _ _ _ _) as [w [s'|e]] eqn:E; [|done].
    intros (st' & Hrun & [= <- <-])%fmap_Some.
    pose proof E as Hinv.
    apply sendSignedTransaction_prelude_inv in Hinv as
      (_ & _ & Hc & Hk & Htx & Hstart & Htimeout & _).
    assert (prelude_log s (calls w)) as Hlog.
    { exists [], []. by rewrite Htx, Hc. }
    rewrite (started_sends _ _ _ _ _ Hstart Hlog Hrun). by rewrite Hk, Htimeout.
  - intros in_time before err t after Ht Hf.
    induction before as [|a rest IH]; simpl.
    + by rewrite Ht, Hf.
    + by rewrite IH.
  - apply resends_none.
Qed.

Lemma broadcast_count_witness :
  (∃ s st,
     Demo.send Demo.schedule_timeout = Some (Started s st) ∧
     length (sent_payloads (calls (world st))) = 16%nat) ∧
  (∃ s st,
     sendTransaction Demo.web3 Demo.connection 1700000000000 1%positive
       (PAccount Demo.alice) [Demo.bob] (Some 30001) None None
       [ALoopWake 1700000030001] Demo.heap0 = Some (Started s st) ∧
     length (sent_payloads (calls (world st))) = 2%nat).
Proof.
  destruct broadcast_count as [H _]. split.
  - unfold Demo.send.
    destruct (sendTransaction _ _ _ _ _ _ _ _ _ _ _) as [[w e|s st]|] eqn:E;
      [vm_compute in E; discriminate | | vm_compute in E; discriminate].
    exists s, st. split; [reflexivity|].
    rewrite (H _ _ _ _ _ _ _ _ _ _ _ _ _ E), length_replicate.
    vm_compute. reflexivity.
  - destruct (sendTransaction _ _ _ _ _ _ _ _ _ _ _) as [[w e|s st]|] eqn:E;
      [vm_compute in E; discriminate | | vm_compute in E; discriminate].
    exists s, st. split; [reflexivity|].
    rewrite (H _ _ _ _ _ _ _ _ _ _ _ _ _ E), length_replicate.
    vm_compute. reflexivity.
Defined.

(** ** How a call rejects once its loop runs *)

Lemma diagnose_is_Error v : ∃ m, diagnose v = JError m.
Proof.
  unfold diagnose, new_Error.
  destruct v as [r|]; [|by eexists].
  destruct (truthy (sim_err r)); [|by eexists].
  destruct (sim_logs r) as [logs|]; [|by eexists].
  destruct (scan_logs logs (length logs)); by eexists.
Qed.

Lemma rejected_after_simulation s schedule st st' e :
  main st = MAwaitSimulation → run s st schedule = Some st' →
  main st' = MSettled (Rejected e) →
  ∃ o eff, ASimulation o eff ∈ schedule ∧
           e = diagnose match o with Fulfilled v => v | Rejected _ => None end.
Proof.
  revert st. induction schedule as [|a rest IH]; simpl; intros st Hm.
  { intros [= <-]. congruence. }
  destruct (step s st a) as [st1|] eqn:E; [|done]. intros Hrun Hm'.
  destruct a as [clock|o|o eff]; simpl in E.
  - assert (st1 = loop_wake s clock st) as -> by (destruct (loop st); by simplify_eq).
    destruct (loop_wake_spec s clock st) as (_ & Hmain & _).
    destruct (IH _ (eq_trans Hmain Hm) Hrun Hm') as (o & eff & Hin & ->).
    exists o, eff. split; [by apply list_elem_of_further|done].
  - rewrite Hm in E. done.
  - rewrite Hm in E. injection E as <-.
    apply settled_absorbing in Hrun as [Hmain _]; [|done].
    rewrite Hmain in Hm'. simpl in Hm'. injection Hm' as <-.
    exists o, eff. split; [apply list_elem_of_here|done].
Qed.

Lemma rejected_inv s schedule st st' e :
  main st = MAwaitConfirmation → run s st schedule = Some st' →
  main st' = MSettled (Rejected e) → rejection_cause schedule e.
Proof.
  revert st. induction schedule as [|a rest IH]; simpl; intros st Hm.
  { intros [= <-]. congruence. }
  destruct (step s st a) as [st1|] eqn:E; [|done]. intros Hrun Hm'.
  destruct a as [clock|o|o eff]; simpl in E.
  - assert (st1 = loop_wake s clock st) as -> by (destruct (loop st); by simplify_eq).
    destruct (loop_wake_spec s clock st) as (_ & Hmain & _).
    destruct (IH _ (eq_trans Hmain Hm) Hrun Hm') as
      [(err & Hin & ?) | [(err & t & Hin & ?) | (err & t & o & eff & Hin & ? & ? & Hin' & ?)]].
    + left. exists err. split; [by apply list_elem_of_further|done].
    + right. left. exists err, t. split; [by apply list_elem_of_further|done].
    + right. right. exists err, t, o, eff.
      split; [by apply list_elem_of_further|]. do 2 (split; [done|]).
      split; [by apply list_elem_of_further|done].
  - rewrite Hm in E. injection E as <-. unfold on_confirmation in Hrun.
    destruct o as [[]|err].
    { apply settled_absorbing in Hrun as [Hmain _]; [|done]. by rewrite Hmain in Hm'. }
    destruct (get_prop err "timeout") as [t|] eqn:Ht; [destruct (truthy t) eqn:Htr|].
    + apply settled_absorbing in Hrun as [Hmain _]; [|done].
      rewrite Hmain in Hm'. simpl in Hm'. injection Hm' as <-.
      right. left. exists err, t. split; [apply list_elem_of_here|done].
    + apply rejected_after_simulation with (e := e) in Hrun as (o & eff & Hin & ->);
        [|done..].
      right. right. exists err, t, o, eff. split; [apply list_elem_of_here|].
      do 2 (split; [done|]). split; [by apply list_elem_of_further|done].
    + apply settled_absorbing in Hrun as [Hmain _]; [|done].
      rewrite Hmain in Hm'. simpl in Hm'. injection Hm' as <-.
      left. exists err. split; [apply list_elem_of_here|done].
  - rewrite Hm in E. done.
Qed.

(** X6. A call of [sendTransaction] or of [sendSignedTransaction] that got
    past its first send rejects only after the confirmation watcher has
    rejected, and never with the watcher's own error: it rejects with the
    [TypeError] of reading [timeout] from a rejection that is [null] or
    [undefined], with the timeout [Error] when that member is truthy, and
    otherwise, after the simulation has settled, with the [Error] that the
    diagnosis builds.  Apart from that [TypeError] the rejection is always
    an [Error] made by the client. *)
Theorem late_rejection_causes schedule s st e :
  submission_run_under schedule (Started s st) →
  settled (Started s st) = Some (Rejected e) →
  rejection_cause schedule e ∧ (e = JTypeError ∨ ∃ m, e = JError m).
Proof.
  intros (w & _ & Hrun)%submission_run_started Hs. simpl in Hs.
  destruct (main st) as [| |o] eqn:Hm; try done. injection Hs as ->.
  pose proof (rejected_inv s schedule (start s w) st e eq_refl Hrun Hm) as Hcause.
  split; [done|].
  destruct Hcause as [(_ & _ & _ & ->) | [(_ & _ & _ & _ & _ & ->) | (_ & _ & o & _ & _ & _ & _ & _ & ->)]].
  - by left.
  - right. by eexists.
  - right. apply diagnose_is_Error.
Qed.

Lemma late_rejection_causes_witness :
  ∃ s st e,
    Demo.send Demo.schedule_failure = Some (Started s st) ∧
    settled (Started s st) = Some (Rejected e) ∧ rejection_cause Demo.schedule_failure e.
Proof.
  unfold Demo.send.
  destruct (sendTransaction _ _ _ _ _ _ _ _ _ _ _) as [[w e|s st]|] eqn:E;
    [vm_compute in E; discriminate | | vm_compute in E; discriminate].
  exists s, st, (JError "Transaction failed: insufficient funds").
  split; [reflexivity|].
  assert (settled (Started s st)
          = Some (Rejected (JError "Transaction failed: insufficient funds"))) as Hs.
  { vm_compute in E. by injection E as <- <-. }
  split; [exact Hs|].
  apply (late_rejection_causes Demo.schedule_failure s st _); [|exact Hs].
  left. unfold from_sendTransaction. do 10 eexists. exact E.
Defined.

(** X7. The fallbacks of the diagnosis.  When the simulation resolves
    without a value to read, or with a response whose [err] is falsy (the
    simulation saw no failure), the call rejects with
    [Error('Transaction failed')]; when [err] is truthy and the response
    has no [logs], it rejects with an [Error] whose message is
    [JSON.stringify(err)]. *)
Theorem diagnosis_fallbacks schedule s st v eff :
  submission_run_under schedule (Started s st) →
  ASimulation (Fulfilled v) eff ∈ schedule →
  match v with
  | None => settled (Started s st) = Some (Rejected generic_failure)
  | Some r =>
      (truthy (sim_err r) = false →
       settled (Started s st) = Some (Rejected generic_failure)) ∧
      (truthy (sim_err r) = true → sim_logs r = None →
       settled (Started s st)
       = Some (Rejected (new_Error (JSON_stringify (sim_err r)))))
  end.
Proof.
  intros (w & _ & Hrun)%submission_run_started Hin. simpl.
  rewrite (simulation_settles _ _ _ _ _ _ Hin Hrun). unfold diagnose.
  destruct v as [r|]; [|done]. split.
  - by intros ->.
  - by intros -> ->.
Qed.

Lemma diagnosis_fallbacks_witness :
  ∃ s st,
    Demo.send [AConfirmation (Rejected Demo.on_chain_error);
               ASimulation (Fulfilled (Some {| sim_err := JNull; sim_logs := None |})) id]
    = Some (Started s st) ∧
    settled (Started s st) = Some (Rejected generic_failure).
Proof.
  unfold Demo.send.
  destruct (sendTransaction _ _ _ _ _ _ _ _ _ _ _) as [[w e|s st]|] eqn:E;
    [vm_compute in E; discriminate | | vm_compute in E; discriminate].
  exists s, st. split; [reflexivity|].
  refine (proj1 (diagnosis_fallbacks _ s st
            (Some {| sim_err := JNull; sim_logs := None |}) id _ _) eq_refl).
  - left. unfold from_sendTransaction. do 10 eexists. exact E.
  - repeat first [apply list_elem_of_here | apply list_elem_of_further].
Defined.

(** ** What the outcome of a batch says about its submissions *)

Lemma pending_none_filled values :
  pending values = 0%nat → ∃ vs, values = Some <$> vs.
Proof.
  intros H0. induction values as [|[v|] rest IH].
  - by exists [].
  - destruct IH as [vs ->].
    { unfold pending in *. by rewrite filter_cons, decide_False in H0. }
    by exists (v :: vs).
  - unfold pending in H0. by rewrite filter_cons, decide_True in H0.
Qed.

Lemma omap_id_Some {A} (vs : list A) : omap id (Some <$> vs) = vs.
Proof. induction vs as [|v vs IH]; [done|]. cbn. by f_equal. Qed.

Lemma all_react_Fulfilled promises order values remaining vs :
  length values = length promises →
  (∀ k v, values !! k = Some (Some v) → promises !! k = Some (Some (Fulfilled v))) →
  remaining = pending values →
  all_react promises order values remaining = Some (Fulfilled vs) →
  Forall2 (fun p v => p = Some (Fulfilled v)) promises vs.
Proof.
  revert values remaining.
  induction order as [|i rest IH]; intros values remaining Hlen Hval Hr; [done|]. simpl.
  destruct (promises !! i) as [[[v|e]|]|] eqn:Hp; try done; try by apply IH.
  destruct (values !! i) as [[x|]|] eqn:Hv; try by apply IH.
  pose proof (pending_insert _ _ v Hv) as Hpend.
  assert (∀ k u, <[i := Some v]> values !! k = Some (Some u) →
                 promises !! k = Some (Some (Fulfilled u))) as Hval'.
  { intros k u. destruct (decide (k = i)) as [->|Hne].
    - rewrite list_lookup_insert_eq by by eapply lookup_lt_Some. congruence.
    - rewrite list_lookup_insert_ne by done. apply Hval. }
  destruct (remaining =? 1)%nat eqn:Hone.
  - apply Nat.eqb_eq in Hone. intros [= <-].
    destruct (pending_none_filled (<[i := Some v]> values)) as [vs Hvs]; [lia|].
    rewrite Hvs, omap_id_Some. apply Forall2_same_length_lookup_2.
    + rewrite <- Hlen, <- (length_insert values i (Some v)), Hvs. by rewrite length_fmap.
    + intros k p u Hk Hu. rewrite (Hval' k u) in Hk; [congruence|].
      by rewrite Hvs, list_lookup_fmap, Hu.
  - apply IH; [by rewrite length_insert|done|lia].
Qed.

Lemma all_react_Rejected promises order values remaining e :
  all_react promises order values remaining = Some (Rejected e) →
  ∃ before i after,
    order = before ++ i :: after ∧ promises !! i = Some (Some (Rejected e)) ∧
    ∀ j, j ∈ before → ¬ rejects promises j.
Proof.
  revert values remaining. induction order as [|i rest IH]; intros values remaining; [done|].
  simpl.
  assert (¬ rejects promises i →
          ∀ values remaining,
            all_react promises rest values remaining = Some (Rejected e) →
            ∃ before j after,
              i :: rest = before ++ j :: after ∧ promises !! j = Some (Some (Rejected e)) ∧
              ∀ k, k ∈ before → ¬ rejects promises k) as Hskip.
  { intros Hi vs n (before & j & after & -> & Hj & Hb)%IH.
    exists (i :: before), j, after. split; [done|]. split; [done|].
    intros k [->|Hk]%elem_of_cons; [done|by apply Hb]. }
  destruct (promises !! i) as [[[v|e']|]|] eqn:Hp.
  - assert (¬ rejects promises i) as Hi by (intros [? ?]; congruence).
    destruct (values !! i) as [[x|]|]; try by apply Hskip.
    destruct (remaining =? 1)%nat; [done|]. by apply Hskip.
  - intros [= ->]. exists [], i, rest. split; [done|]. split; [done|].
    intros j Hj. by apply elem_of_nil in Hj.
  - apply Hskip. intros [? ?]; congruence.
  - apply Hskip. intros [? ?]; congruence.
Qed.

Lemma all_react_pending promises order values remaining k :
  (∀ i, i ∈ order → ¬ rejects promises i) →
  values !! k = Some None → k ∉ order ∨ promises !! k = Some None →
  remaining = pending values →
  all_react promises order values remaining = None.
Proof.
  revert values remaining.
  induction order as [|i rest IH]; intros values remaining Hrej Hk Hstuck Hr; [done|].
  simpl.
  assert (∀ j, j ∈ rest → ¬ rejects promises j) as Hrej'.
  { intros j Hj. by apply Hrej, list_elem_of_further. }
  assert (k ∉ rest ∨ promises !! k = Some None) as Hstuck'.
  { destruct Hstuck as [Hnot|?]; [left|by right]. intros Hin.
    by apply Hnot, list_elem_of_further. }
  destruct (promises !! i) as [[[v|e]|]|] eqn:Hp; try by apply IH.
  2:{ destruct (Hrej i (list_elem_of_here _ _)). by exists e. }
  destruct (values !! i) as [[x|]|] eqn:Hv; try by apply IH.
  assert (i ≠ k) as Hne.
  { intros ->. destruct Hstuck as [Hnot|?]; [|congruence].
    apply Hnot, list_elem_of_here. }
  pose proof (pending_insert _ _ v Hv) as Hpend.
  assert (<[i := Some v]> values !! k = Some None) as Hk'.
  { by rewrite list_lookup_insert_ne. }
  pose proof (pending_pos _ _ Hk') as Hpos.
  destruct (remaining =? 1)%nat eqn:Hone.
  { apply Nat.eqb_eq in Hone. lia. }
  apply IH; try done. lia.
Qed.

(** X8. The outcome of [sendTransactions], read backwards.  The batch
    resolves only if every submission resolved, and then to their
    transaction ids in input order; it rejects only with the error of a
    submission that failed, the first one to fail; and as long as no
    submission has failed and one of them has not settled, the batch has
    not settled either. *)
Theorem batch_outcome_inversion web3 payer signers transactions timeout level env order :
  let promises := slot_promises web3 payer signers transactions timeout level env in
  (∀ vs,
     sendTransactions web3 payer signers transactions timeout level env order
     = Some (Fulfilled vs) →
     Forall2 (fun p v => p = Some (Fulfilled v)) promises vs) ∧
  (∀ e,
     sendTransactions web3 payer signers transactions timeout level env order
     = Some (Rejected e) →
     ∃ before i after,
       order = before ++ i :: after ∧ promises !! i = Some (Some (Rejected e)) ∧
       ∀ j, j ∈ before → ¬ rejects promises j) ∧
  (∀ k,
     (k < length transactions)%nat →
     (∀ i, i ∈ order → ¬ rejects promises i) →
     k ∉ order ∨ promises !! k = Some None →
     sendTransactions web3 payer signers transactions timeout level env order = None).
Proof.
  intros promises.
  assert (sendTransactions web3 payer signers transactions timeout level env order
          = Promise_all promises order) as -> by done.
  assert (length promises = length transactions) as Hlen.
  { unfold promises, slot_promises. by rewrite length_imap. }
  unfold Promise_all. split; [|split].
  - intros vs. destruct promises as [|p rest] eqn:Hp.
    { intros [= <-]. constructor. }
    rewrite <- Hp. apply all_react_Fulfilled; [by rewrite length_replicate| |].
    + intros k v [? ?]%lookup_replicate. done.
    + by rewrite pending_replicate.
  - intros e. destruct promises as [|p rest] eqn:Hp; [done|].
    rewrite <- Hp. apply all_react_Rejected.
  - intros k Hk Hrej Hstuck. destruct promises as [|p rest] eqn:Hp.
    { simpl in Hlen. lia. }
    rewrite <- Hp in *. apply (all_react_pending _ _ _ _ k); try done.
    + apply lookup_replicate_2. lia.
    + by rewrite pending_replicate.
Qed.

Lemma batch_outcome_inversion_witness :
  ∃ before i after,
    [0; 2; 1]%nat = before ++ i :: after ∧
    slot_promises Demo.web3 (PAccount Demo.alice) [] [1; 2; 3]%positive None None
      (Demo.slot_env "first") !! i
    = Some (Some (Rejected (JError "Transaction failed: insufficient funds"))).
Proof.
  destruct (batch_outcome_inversion Demo.web3 (PAccount Demo.alice) [] [1; 2; 3]%positive
              None None (Demo.slot_env "first") [0; 2; 1]%nat) as (_ & H & _).
  destruct (H (JError "Transaction failed: insufficient funds")) as
    (before & i & after & Horder & Hi & _); [vm_compute; reflexivity|].
  exists before, i, after. split; [exact Horder | exact Hi].
Defined.

(** ** Instances *)

Lemma early_rejection_witness :
  (∃ w, sendTransaction Demo.web3 Demo.offline 0 1%positive (PAccount Demo.alice)
          [Demo.bob] None None None Demo.schedule_success Demo.heap0
        = Some (NotStarted w (JError "fetch failed"))) ∧
  (∃ w, sendTransaction Demo.web3 Demo.connection 0 1%positive (PAccount Demo.alice)
          [Demo.bob] None None (Some Demo.unprintable_callback) Demo.schedule_success
          Demo.heap0
        = Some (NotStarted w JTypeError)).
Proof.
  split.
  - apply (early_rejection Demo.web3 Demo.offline 0 1%positive (PAccount Demo.alice)
             [Demo.bob] None None None Demo.schedule_success Demo.heap0).
    right. eexists _, _. split; [vm_compute; reflexivity|].
    right. eexists. split; [vm_compute; reflexivity|].
    right. split; vm_compute; reflexivity.
  - apply (early_rejection Demo.web3 Demo.connection 0 1%positive (PAccount Demo.alice)
             [Demo.bob] None None (Some Demo.unprintable_callback)
             Demo.schedule_success Demo.heap0).
    right. eexists _, _. split; [vm_compute; reflexivity|].
    right. eexists. split; [vm_compute; reflexivity|].
    left. split; vm_compute; reflexivity.
Defined.

Lemma callback_is_contained_witness :
  (sendTransaction Demo.web3 Demo.connection 0 1%positive (PAccount Demo.alice)
     [Demo.bob] None None (Some Demo.hostile_callback) Demo.schedule_success Demo.heap0
   ≫= settled)
  = Some (Fulfilled "txid32") ∧
  (sendTransaction Demo.web3 Demo.connection 0 1%positive (PAccount Demo.alice)
     [Demo.bob] None None (Some Demo.unprintable_callback) Demo.schedule_success
     Demo.heap0 ≫= settled)
  = Some (Rejected JTypeError).
Proof.
  split.
  - pose proof (callback_is_contained Demo.web3 Demo.connection 0 1%positive
                  (PAccount Demo.alice) [Demo.bob] None None Demo.hostile_callback
                  Demo.schedule_success Demo.heap0) as H.
    destruct (callback_stops _ _ _ _ _ _ _) eqn:Hstops;
      [vm_compute in Hstops; discriminate|].
    destruct (sendTransaction _ _ _ _ _ _ _ _ (Some _) _ _) as [r|];
      destruct (sendTransaction _ _ _ _ _ _ _ _ None _ _) as [r0|] eqn:E0;
      try (vm_compute in E0; discriminate); [|destruct H].
    destruct H as (H & _). change (settled r = Some (Fulfilled "txid32")).
    rewrite H. vm_compute in E0. by injection E0 as <-.
  - pose proof (callback_is_contained Demo.web3 Demo.connection 0 1%positive
                  (PAccount Demo.alice) [Demo.bob] None None Demo.unprintable_callback
                  Demo.schedule_success Demo.heap0) as H.
    destruct (callback_stops _ _ _ _ _ _ _) eqn:Hstops;
      [|vm_compute in Hstops; discriminate].
    destruct H as (w & -> & _). reflexivity.
Defined.

(** ** The log of a signing call over a list *)

Lemma forEach_log {A} (f : A → Task unit) (g : A → list Event) (l : list A) w w' u :
  (∀ x w1 w2 u', f x w1 = (w2, Fulfilled u') → calls w2 = calls w1 ++ g x) →
  forEach f l w = (w', Fulfilled u) →
  calls w' = calls w ++ concat (g <$> l).
Proof.
  intros Hf. revert w. induction l as [|x l IH]; intros w; simpl.
  { intros [= <-]. by rewrite app_nil_r. }
  intros (w1 & [] & Hx & Hrest)%bind_Fulfilled.
  rewrite (IH _ Hrest), (Hf _ _ _ _ Hx). by rewrite <- app_assoc.
Qed.

Lemma attach_all_signers_log web3 connection items payer w w' u :
  attach_all_signers web3 connection items payer w = (w', Fulfilled u) →
  ∃ b, getRecentBlockhash connection (Some "max") = Fulfilled b ∧
       calls w' = calls w ++ EvGetRecentBlockhash (Some "max") ::
                  concat (item_log payer b <$> items).
Proof.
  unfold attach_all_signers.
  intros (w1 & [] & (-> & _)%emit_inv & H)%bind_Fulfilled.
  apply bind_Fulfilled in H as (w2 & b & (-> & Hb)%await_inv & H).
  exists b. split; [done|].
  apply (forEach_log _ (item_log payer b)) in H.
  { rewrite H. simpl. by rewrite <- app_assoc. }
  clear. intros item w1 w2 u. unfold item_log.
  intros (wa & [] & (-> & _)%emit_inv & H)%bind_Fulfilled.
  apply bind_Fulfilled in H as (wb & [] & (t1 & _ & ->)%method_Fulfilled & H).
  apply bind_Fulfilled in H as (wc & [] & (-> & _)%emit_inv & H).
  apply bind_Fulfilled in H as (wd & [] & (t2 & _ & ->)%method_Fulfilled & H).
  destruct (0 <? length (default [] (tas_signers item)))%nat.
  - apply bind_Fulfilled in H as (we & [] & (-> & _)%emit_inv & H).
    apply method_Fulfilled in H as (t3 & _ & ->). simpl. by rewrite <- !app_assoc.
  - apply ret_inv in H as (-> & _). simpl. by rewrite <- !app_assoc.
Qed.

(** X9. The calls of a [signTransactions] that goes through, in order: one
    [getRecentBlockhash('max')]; then for each entry in turn the assignment
    of that one blockhash, [setSigners] with the payer first, and
    [partialSign] if the entry names signers; and only after the last entry
    the final signing: one [signAllTransactions] over the whole list when
    the payer is a wallet, else one [transaction.sign] per entry, in list
    order, with the payer followed by the entry's signers, or by
    [undefined] when the entry names none. *)
Theorem signTransactions_log web3 connection items payer h w' signed :
  signTransactions web3 connection items payer (fresh h) = (w', Fulfilled signed) →
  ∃ b, getRecentBlockhash connection (Some "max") = Fulfilled b ∧
       calls w' = EvGetRecentBlockhash (Some "max") ::
                  concat (item_log payer b <$> items) ++ final_sign_log payer items.
Proof.
  unfold signTransactions, final_sign_log.
  intros (w1 & [] & (b & Hb & Hlog)%attach_all_signers_log & H)%bind_Fulfilled.
  exists b. split; [done|]. simpl in Hlog.
  destruct (not_instanceof_Account payer) as [wallet|].
  - apply bind_Fulfilled in H as (w2 & [] & (-> & _)%emit_inv & H).
    apply bind_Fulfilled in H as (w3 & answer & H & (-> & _)%ret_inv).
    unfold foreign_call in H. simpl in H.
    destruct (wallet_signAllTransactions wallet _ _) as [h' o].
    injection H as <- _. simpl. by rewrite Hlog.
  - apply bind_Fulfilled in H as (w2 & [] & H & (-> & _)%ret_inv).
    apply (forEach_log _ (fun item => [EvSign (tas_transaction item)
                                         (concat_signers payer (tas_signers item))])) in H.
    { rewrite H, Hlog. simpl. f_equal. f_equal. clear.
      induction items as [|x l IH]; [done|]. simpl. f_equal. apply IH. }
    clear. intros item w1 w2 u.
    intros (wa & [] & (-> & _)%emit_inv & (t & _ & ->)%method_Fulfilled)%bind_Fulfilled.
    done.
Qed.

Lemma signTransactions_log_witness :
  ∃ w' signed,
    signTransactions Demo.web3 Demo.connection
      [{| tas_transaction := 1%positive; tas_signers := Some [Demo.bob] |};
       {| tas_transaction := 2%positive; tas_signers := Some [] |}]
      (PAccount Demo.alice) (fresh Demo.heap0) = (w', Fulfilled signed) ∧
    length (calls w') = 8%nat.
Proof.
  destruct (signTransactions _ _ _ _ _) as [w' [signed|e]] eqn:E;
    [|vm_compute in E; discriminate].
  exists w', signed. split; [reflexivity|].
  destruct (signTransactions_log _ _ _ _ _ _ _ E) as (b & _ & ->). reflexivity.
Defined.

(** ** The operations that build a transaction and submit it *)

Lemma emits_eval {A} (P : Event → Prop) (x : A + JsValue) : emits P (eval x).
Proof. intros w w' o. destruct x; intros [= <- <-]; exists []; by rewrite app_nil_r. Qed.

Lemma emits_allocate (P : Event → Prop) init tx : emits P (allocate init tx).
Proof. intros w w' o [= <- <-]. exists []. by rewrite app_nil_r. Qed.

Ltac silent_step :=
  first
    [ apply emits_bind; [| intros ?]
    | apply emits_eval
    | apply emits_allocate
    | apply emits_await
    | apply emits_method
    | apply emits_ret ].

Lemma silent_fresh {A} (m : Task A) h w o :
  silent m → m (fresh h) = (w, o) → w = fresh (heap w).
Proof.
  intros Hm E. destruct (Hm _ _ _ E) as (evs & Hc & Hf). simpl in Hc.
  destruct evs as [|e evs]; [|by inversion Hf]. destruct w as [hw cw]. simpl in *.
  by subst.
Qed.

(** A call that builds its transaction and then submits it is the
    submission, started from the store that the builder left. *)
Lemma submit_after_build {A} (build : Task A) (prelude : A → Task Submission) schedule h :
  silent build →
  submit (build ≫= prelude) schedule h
  = match build (fresh h) with
    | (w, Rejected e) => Some (NotStarted w e)
    | (w, Fulfilled a) => submit (prelude a) schedule (heap w)
    end.
Proof.
  intros Hb. unfold submit. unfold mbind at 1, Task_bind at 1, bind at 1.
  destruct (build (fresh h)) as [w [a|e]] eqn:E; [|done].
  by rewrite (silent_fresh _ _ _ _ Hb E) at 1.
Qed.

Lemma getQuasarGroup_silent toolkit quasarGroup : silent (getQuasarGroup toolkit quasarGroup).
Proof. unfold silent, getQuasarGroup. repeat silent_step. Qed.

Lemma addBaseToken_transaction_silent toolkit programId group mint oracle admin tx :
  silent (addBaseToken_transaction toolkit programId group mint oracle admin tx).
Proof. unfold silent, addBaseToken_transaction. repeat silent_step. Qed.

Lemma eval_inv {A} (x : A + JsValue) w w' o :
  eval x w = (w', o) →
  w' = w ∧ o = match x with inl a => Fulfilled a | inr e => Rejected e end.
Proof. unfold eval. destruct x; by intros [= <- <-]. Qed.

Lemma method_frame tx (f : Transaction → Transaction + JsValue) w w' o l :
  method tx f w = (w', o) → l ≠ tx → heap w' l = heap w l.
Proof.
  unfold method. destruct (f (heap w tx)); intros [= <- <-] Hl; [|done].
  simpl. by apply fn_lookup_insert_ne.
Qed.

(** Without additional signers nothing asks for a partial signature. *)
Lemma no_partial_without_signers web3 connection clock tx payer timeout level cb schedule
    h r :
  sendTransaction web3 connection clock tx payer [] timeout level cb schedule h = Some r →
  Forall (fun e => is_partial_sign e = false) (run_calls r).
Proof.
  assert (emits (fun e => is_partial_sign e = false)
            (sendTransaction_prelude web3 connection clock tx payer [] timeout level cb))
    as Hprelude.
  { unfold sendTransaction_prelude, call_serialize, signTransaction, attach_signers.
    simpl. repeat emits_step.
    destruct (payer_connected payer); repeat emits_step. }
  unfold sendTransaction, submit.
  destruct (sendTransaction_prelude _ _ _ _ _ _ _ _ _ _) as [w [s|e]] eqn:E.
  2:{ intros [= <-]. simpl. destruct (Hprelude _ _ _ E) as (evs & Hc & ?).
      by rewrite Hc. }
  intros (st & Hrun & ->)%fmap_Some. simpl.
  destruct (run_activity_events _ _ _ _ Hrun) as (evs & -> & Hact).
  apply Forall_app. split.
  - destruct (Hprelude _ _ _ E) as (evs' & Hc & ?). by rewrite Hc.
  - eapply Forall_impl; [exact Hact|]. by intros [].
Qed.

(** The signers of a submission that got past its first send were asked
    for their partial signatures. *)
Lemma partial_sign_logged web3 connection clock tx payer signers timeout level cb schedule
    h s st :
  signers ≠ [] →
  sendTransaction web3 connection clock tx payer signers timeout level cb schedule h
  = Some (Started s st) →
  EvPartialSign tx signers ∈ calls (world st).
Proof.
  intros Hne. unfold sendTransaction, submit.
  destruct (sendTransaction_prelude _ _ _ _ _ _ _ _ _ _) as [w [s'|e]] eqn:E; [|done].
  intros (st' & Hrun & [= <- <-])%fmap_Some.
  destruct (run_appends _ _ _ _ Hrun) as (evs & Hevs). unfold appended in Hevs.
  rewrite Hevs. simpl. rewrite <- !app_assoc. apply elem_of_app. left.
  apply sendTransaction_prelude_inv in E as
    (w1 & signed & signing & callbacks & Hsign & _ & _ & Hc1 & -> & _).
  simpl in Hc1 |- *. rewrite <- Hc1. apply elem_of_app. left.
  apply signTransaction_paths in Hsign as [(b & ->) | (_ & e & ?)]; [|done].
  simpl. unfold attach_log. destruct signers as [|a l]; [done|]. simpl.
  do 3 apply list_elem_of_further. apply list_elem_of_here.
Qed.

Lemma addBaseToken_transaction_spec toolkit programId group mint oracle admin tx h :
  ∃ w o,
    addBaseToken_transaction toolkit programId group mint oracle admin tx (fresh h) = (w, o) ∧
    calls w = [] ∧ (∀ l, l ≠ tx → heap w l = h l) ∧
    ∀ u, o = Fulfilled u →
      ∃ instruction,
        makeAddBaseTokenInstruction toolkit programId group mint oracle
          (payer_publicKey admin) = inl instruction ∧
        add toolkit [instruction] (new_Transaction toolkit) = inl (heap w tx).
Proof.
  unfold addBaseToken_transaction, mbind, Task_bind, bind, eval, allocate, method. simpl.
  destruct (makeAddBaseTokenInstruction _ _ _ _ _ _) as [instruction|e].
  2:{ eexists _, _. split; [done|]. by repeat split. }
  change (<[tx:=new_Transaction toolkit]> (heap (fresh h)) tx)
    with (<[tx:=new_Transaction toolkit]> (h : loc → Transaction) tx).
  rewrite fn_lookup_insert.
  destruct (add toolkit [instruction] (new_Transaction toolkit)) as [t|e] eqn:Hadd.
  - eexists _, _. split; [done|]. simpl. split; [done|]. split.
    + intros l Hl.
      change ((<[tx:=t]> (<[tx:=new_Transaction toolkit]> (h : loc → Transaction))) l = h l).
      by rewrite !fn_lookup_insert_ne.
    + intros _ _. exists instruction. split; [done|]. rewrite Hadd. f_equal.
      symmetry. apply (fn_lookup_insert (<[tx:=new_Transaction toolkit]> h) tx t).
  - eexists _, _. split; [done|]. simpl. split; [done|]. split; [|done].
    intros l Hl. by apply fn_lookup_insert_ne.
Qed.

(** X10. [addBaseToken] is one submission of a new transaction.  If the
    instruction builder or [add] throws, the call rejects with that error
    and nothing has been signed or sent.  Otherwise the new object holds
    what [add] made of the one instruction, no other object has been
    touched, and the call is [sendTransaction] of that object with [admin]
    as payer, no additional signers, the default timeout and level and no
    callback: no partial signature is asked for, and the call resolves
    exactly when the watcher confirms, to the id answered to the first
    send. *)
Theorem addBaseToken_is_one_submission web3 connection toolkit programId clock group mint
    oracle admin tx schedule h :
  ∃ w o,
    addBaseToken_transaction toolkit programId group mint oracle admin tx (fresh h) = (w, o) ∧
    calls w = [] ∧ (∀ l, l ≠ tx → heap w l = h l) ∧
    match o with
    | Rejected e =>
        addBaseToken web3 connection toolkit programId clock group mint oracle admin tx
          schedule h = Some (NotStarted w e)
    | Fulfilled _ =>
        (∃ instruction,
           makeAddBaseTokenInstruction toolkit programId group mint oracle
             (payer_publicKey admin) = inl instruction ∧
           add toolkit [instruction] (new_Transaction toolkit) = inl (heap w tx)) ∧
        addBaseToken web3 connection toolkit programId clock group mint oracle admin tx
          schedule h
        = sendTransaction web3 connection clock tx admin [] None None None schedule
            (heap w) ∧
        ∀ r, addBaseToken web3 connection toolkit programId clock group mint oracle admin
               tx schedule h = Some r →
             Forall (fun e => is_partial_sign e = false) (run_calls r) ∧
             resolves_as_first_send connection schedule r
    end.
Proof.
  destruct (addBaseToken_transaction_spec toolkit programId group mint oracle admin tx h)
    as (w & o & Hbuild & Hcalls & Hframe & Hnew).
  exists w, o. do 3 (split; [done|]).
  unfold addBaseToken.
  rewrite submit_after_build by apply addBaseToken_transaction_silent. rewrite Hbuild.
  destruct o as [[]|e]; [|done].
  split; [by apply (Hnew tt)|]. split; [done|]. intros r Hr. split.
  - by eapply no_partial_without_signers.
  - by eapply sendTransaction_resolves.
Qed.

Lemma addBaseToken_is_one_submission_witness :
  addBaseToken Demo.web3 Demo.connection Demo.toolkit "program" 0 "group" "mint" "oracle"
    (PAccount Demo.alice) 1%positive Demo.schedule_success Demo.heap0 ≫= settled
  = Some (Fulfilled "txid28").
Proof.
  destruct (addBaseToken_is_one_submission Demo.web3 Demo.connection Demo.toolkit
              "program" 0 "group" "mint" "oracle" (PAccount Demo.alice) 1%positive
              Demo.schedule_success Demo.heap0) as (w & o & Hbuild & _ & _ & H).
  vm_compute in Hbuild. injection Hbuild as <- <-.
  destruct H as (_ & -> & _). vm_compute. reflexivity.
Defined.

Lemma silent_calls {A} (m : Task A) h w o :
  silent m → m (fresh h) = (w, o) → calls w = [].
Proof. intros Hm E. by rewrite (silent_fresh _ _ _ _ Hm E). Qed.

Lemma addLeverageToken_transaction_silent toolkit programId group base mangoProgram
    mangoGroup market admin leverage tx :
  silent (addLeverageToken_transaction toolkit programId group base mangoProgram
            mangoGroup market admin leverage tx).
Proof.
  unfold silent, addLeverageToken_transaction. apply emits_bind; [apply emits_await|].
  intros ?. apply emits_bind; [apply getQuasarGroup_silent|]. intros ?.
  repeat silent_step.
Qed.

Lemma eval_Fulfilled {A} (x : A + JsValue) w w' a :
  eval x w = (w', Fulfilled a) → w' = w ∧ x = inl a.
Proof. unfold eval. destruct x; by intros [= <- <-]. Qed.

Lemma addLeverageToken_transaction_inv toolkit programId group base mangoProgram
    mangoGroup market admin leverage tx w w' signers :
  addLeverageToken_transaction toolkit programId group base mangoProgram mangoGroup
    market admin leverage tx w = (w', Fulfilled signers) →
  ∃ mangoAccountInstruction mangoAccount mint,
    createAccountInstruction toolkit (payer_publicKey admin)
      (MangoAccountLayout_span toolkit) mangoProgram = Fulfilled mangoAccountInstruction ∧
    new_Account toolkit (kp_secretKey (ai_keypair mangoAccountInstruction))
    = inl mangoAccount ∧
    new_Account toolkit (kp_secretKey (new_Keypair toolkit)) = inl mint ∧
    signers = [mangoAccount; mint].
Proof.
  unfold addLeverageToken_transaction.
  intros (w1 & mai & (-> & Hmai)%await_inv & H)%bind_Fulfilled.
  apply bind_Fulfilled in H as (w2 & qg & _ & H).
  apply bind_Fulfilled in H as (w3 & instr & _ & H).
  apply bind_Fulfilled in H as (w4 & [] & _ & H).
  apply bind_Fulfilled in H as (w5 & [] & _ & H).
  apply bind_Fulfilled in H as (w6 & a1 & (-> & Ha1)%eval_Fulfilled & H).
  apply bind_Fulfilled in H as (w7 & a2 & (-> & Ha2)%eval_Fulfilled & H).
  apply ret_inv in H as (_ & [= ->]). by exists mai, a1, a2.
Qed.

(** X11. [addLeverageToken] is one submission of a new transaction.  If a
    preparatory step fails (the account instruction, fetching or decoding
    the group, the instruction builder, [add], an [Account] constructor),
    the call rejects with that error and nothing has been signed or sent.
    Otherwise the call is [sendTransaction] with [admin] as payer and two
    additional signers, the new mango account and the new mint, in this
    order; and when it resolves, it resolves to the public key of the mint
    keypair, the watcher has confirmed, and both have been asked for their
    partial signatures. *)
Theorem addLeverageToken_is_one_submission web3 connection toolkit programId clock group
    base mangoProgram mangoGroup market admin leverage tx schedule h :
  ∃ w o,
    addLeverageToken_transaction toolkit programId group base mangoProgram mangoGroup
      market admin leverage tx (fresh h) = (w, o) ∧
    calls w = [] ∧
    match o with
    | Rejected e =>
        addLeverageToken web3 connection toolkit programId clock group base mangoProgram
          mangoGroup market admin leverage tx schedule h = Some (NotStarted w e)
    | Fulfilled signers =>
        (∃ mangoAccountInstruction mangoAccount mint,
           createAccountInstruction toolkit (payer_publicKey admin)
             (MangoAccountLayout_span toolkit) mangoProgram
           = Fulfilled mangoAccountInstruction ∧
           new_Account toolkit (kp_secretKey (ai_keypair mangoAccountInstruction))
           = inl mangoAccount ∧
           new_Account toolkit (kp_secretKey (new_Keypair toolkit)) = inl mint ∧
           signers = [mangoAccount; mint]) ∧
        addLeverageToken web3 connection toolkit programId clock group base mangoProgram
          mangoGroup market admin leverage tx schedule h
        = sendTransaction web3 connection clock tx admin signers None None None schedule
            (heap w) ∧
        ∀ r pk,
          addLeverageToken web3 connection toolkit programId clock group base
            mangoProgram mangoGroup market admin leverage tx schedule h = Some r →
          addLeverageToken_outcome toolkit r = Some (Fulfilled pk) →
          pk = kp_publicKey (new_Keypair toolkit) ∧
          AConfirmation (Fulfilled tt) ∈ schedule ∧
          EvPartialSign tx signers ∈ run_calls r
    end.
Proof.
  pose proof (addLeverageToken_transaction_silent toolkit programId group base
                mangoProgram mangoGroup market admin leverage tx) as Hsilent.
  destruct (addLeverageToken_transaction toolkit programId group base mangoProgram
              mangoGroup market admin leverage tx (fresh h)) as [w o] eqn:Hbuild.
  exists w, o. split; [done|]. split; [by eapply silent_calls|].
  unfold addLeverageToken. rewrite submit_after_build by done. rewrite Hbuild.
  destruct o as [signers|e]; [|done].
  pose proof (addLeverageToken_transaction_inv _ _ _ _ _ _ _ _ _ _ _ _ _ Hbuild) as Hinv.
  split; [done|]. split; [done|]. intros r pk Hr Hout.
  unfold addLeverageToken_outcome in Hout.
  destruct (settled r) as [[txid|e]|] eqn:Hs; try done. injection Hout as Hpk.
  split; [done|].
  apply (sendTransaction_resolves _ _ _ _ _ _ _ _ _ _ _ _ Hr) in Hs
    as (s & st & -> & Hin & _).
  split; [done|]. simpl. eapply partial_sign_logged; [|exact Hr].
  destruct Hinv as (mai & a1 & a2 & _ & _ & _ & ->). done.
Qed.

Lemma addLeverageToken_is_one_submission_witness :
  addLeverageToken Demo.web3 Demo.connection Demo.toolkit "program" 0 "group" "base"
    "mango" "mango-group" "market" (PAccount Demo.alice) 2 1%positive
    Demo.schedule_success Demo.heap0 ≫= addLeverageToken_outcome Demo.toolkit
  = Some (Fulfilled "pk:mint").
Proof.
  destruct (addLeverageToken_is_one_submission Demo.web3 Demo.connection Demo.toolkit
              "program" 0 "group" "base" "mango" "mango-group" "market"
              (PAccount Demo.alice) 2 1%positive Demo.schedule_success Demo.heap0)
    as (w & o & Hbuild & _ & H).
  vm_compute in Hbuild. injection Hbuild as <- <-.
  destruct H as (_ & -> & _). vm_compute. reflexivity.
Defined.

Lemma initQuasarGroup_setup_silent toolkit programId payer tx :
  silent (initQuasarGroup_setup toolkit programId payer tx).
Proof. unfold silent, initQuasarGroup_setup. repeat silent_step. Qed.

Lemma initQuasarGroup_transaction_silent toolkit programId mangoProgram payer ai kn tx :
  silent (initQuasarGroup_transaction toolkit programId mangoProgram payer ai kn tx).
Proof. unfold silent, initQuasarGroup_transaction. repeat silent_step. Qed.

Lemma initQuasarGroup_setup_inv toolkit programId payer tx w w' ai kn signer :
  initQuasarGroup_setup toolkit programId payer tx w = (w', Fulfilled (ai, kn, signer)) →
  createAccountInstruction toolkit (payer_publicKey payer) (QuasarGroupLayout_span toolkit)
    programId = Fulfilled ai ∧
  createSignerKeyAndNonce toolkit programId (kp_publicKey (ai_keypair ai)) = Fulfilled kn ∧
  new_Account toolkit (kp_secretKey (ai_keypair ai)) = inl signer.
Proof.
  unfold initQuasarGroup_setup.
  intros (w1 & ai' & (-> & Hai)%await_inv & H)%bind_Fulfilled.
  apply bind_Fulfilled in H as (w2 & kn' & (-> & Hkn)%await_inv & H).
  apply bind_Fulfilled in H as (w3 & [] & _ & H).
  apply bind_Fulfilled in H as (w4 & [] & _ & H).
  apply bind_Fulfilled in H as (w5 & a & (-> & Ha)%eval_Fulfilled & H).
  apply ret_inv in H as (_ & [= -> -> ->]). done.
Qed.

(** A submission that follows a silent builder: the builder threw, or the
    call is the [sendTransaction] of what was built. *)
Lemma built_submission web3 connection clock tx payer signers (build : Task unit)
    schedule h r :
  silent build →
  submit (build ;; sendTransaction_prelude web3 connection clock tx payer signers
                     None None None) schedule h = Some r →
  (∃ w e, r = NotStarted w e ∧ calls w = []) ∨
  (∃ w, sendTransaction web3 connection clock tx payer signers None None None schedule
          (heap w) = Some r).
Proof.
  intros Hb. rewrite submit_after_build by done.
  destruct (build (fresh h)) as [w [[]|e]] eqn:E.
  - intros Hr. right. by exists w.
  - intros [= <-]. left. exists w, e. split; [done|]. by eapply silent_calls.
Qed.

(** X12. [initQuasarGroup] submits two transactions one after the other,
    and not as a unit.  The second transaction is built, signed and sent
    only once the first submission has resolved, that is once the watcher
    has confirmed the account creation; while the first one is pending, or
    when it rejects, nothing of the second exists.  The call resolves only
    when both have been confirmed.  When the second submission rejects, the
    call rejects with its error although the first transaction is
    confirmed.  The second submission has no additional signer. *)
Theorem initQuasarGroup_in_two_steps web3 connection toolkit programId mangoProgram payer
    clock1 clock2 tx1 tx2 schedule1 schedule2 h g :
  initQuasarGroup web3 connection toolkit programId mangoProgram payer clock1 clock2
    tx1 tx2 schedule1 schedule2 h = Some g →
  (∀ key first second,
     g = Both key first second →
     (∃ accountInstruction,
        createAccountInstruction toolkit (payer_publicKey payer)
          (QuasarGroupLayout_span toolkit) programId = Fulfilled accountInstruction ∧
        key = kp_publicKey (ai_keypair accountInstruction)) ∧
     (∃ txid, settled first = Some (Fulfilled txid)) ∧
     AConfirmation (Fulfilled tt) ∈ schedule1 ∧
     Forall (fun e => is_partial_sign e = false) (run_calls second) ∧
     (∀ e, settled second = Some (Rejected e) →
           initQuasarGroup_outcome g = Some (Rejected e))) ∧
  (∀ first,
     g = FirstOnly first →
     (∀ txid, settled first ≠ Some (Fulfilled txid)) ∧
     initQuasarGroup_outcome g
     = match settled first with
       | Some (Rejected e) => Some (Rejected e)
       | _ => None
       end) ∧
  (∀ pk,
     initQuasarGroup_outcome g = Some (Fulfilled pk) →
     ∃ first second,
       g = Both pk first second ∧
       AConfirmation (Fulfilled tt) ∈ schedule1 ∧
       AConfirmation (Fulfilled tt) ∈ schedule2).
Proof.
  unfold initQuasarGroup.
  destruct (initQuasarGroup_setup toolkit programId payer tx1 (fresh h))
    as [w [[[ai kn] signer]|e]] eqn:Hsetup.
  2:{ intros [= <-]. by repeat split. }
  apply initQuasarGroup_setup_inv in Hsetup as (Hai & _ & _).
  destruct (sendTransaction web3 connection clock1 tx1 payer [signer] None None None
              schedule1 (heap w)) as [first|] eqn:Hfirst; [|done].
  pose proof (sendTransaction_resolves _ _ _ _ _ _ _ _ _ _ _ _ Hfirst) as Hresolves.
  assert (∀ first' : Run,
            (∀ txid, settled first' ≠ Some (Fulfilled txid)) →
            (∀ key first second,
               FirstOnly first' = Both key first second →
               (∃ accountInstruction,
                  createAccountInstruction toolkit (payer_publicKey payer)
                    (QuasarGroupLayout_span toolkit) programId
                  = Fulfilled accountInstruction ∧
                  key = kp_publicKey (ai_keypair accountInstruction)) ∧
               (∃ txid, settled first = Some (Fulfilled txid)) ∧
               AConfirmation (Fulfilled tt) ∈ schedule1 ∧
               Forall (fun e => is_partial_sign e = false) (run_calls second) ∧
               (∀ e, settled second = Some (Rejected e) →
                     initQuasarGroup_outcome (FirstOnly first') = Some (Rejected e))) ∧
            (∀ first,
               FirstOnly first' = FirstOnly first →
               (∀ txid, settled first ≠ Some (Fulfilled txid)) ∧
               initQuasarGroup_outcome (FirstOnly first')
               = match settled first with
                 | Some (Rejected e) => Some (Rejected e)
                 | _ => None
                 end) ∧
            (∀ pk,
               initQuasarGroup_outcome (FirstOnly first') = Some (Fulfilled pk) →
               ∃ first second,
                 FirstOnly first' = Both pk first second ∧
                 AConfirmation (Fulfilled tt) ∈ schedule1 ∧
                 AConfirmation (Fulfilled tt) ∈ schedule2)) as Hfirst_only.
  { intros first' Hnot. split; [done|]. split.
    - by intros ? [= <-].
    - intros pk. simpl. by destruct (settled first') as [[?|?]|]. }
  destruct first as [w1 e1|s st]; simpl.
  { intros [= <-]. by apply Hfirst_only. }
  destruct (main st) as [| |[txid|e]] eqn:Hm.
  1,2,4: intros [= <-]; apply Hfirst_only; intros txid'; simpl; by rewrite Hm.
  destruct (Hresolves txid) as [(? & ? & _ & Hin1 & _) _]; [simpl; by rewrite Hm|].
  destruct (submit _ schedule2 (heap (world st))) as [second|] eqn:Hsecond; [|done].
  intros [= <-].
  assert (Forall (fun e => is_partial_sign e = false) (run_calls second) ∧
          (∀ txid2, settled second = Some (Fulfilled txid2) →
                    AConfirmation (Fulfilled tt) ∈ schedule2)) as [Hquiet Hin2].
  { apply built_submission in Hsecond; [|apply initQuasarGroup_transaction_silent].
    destruct Hsecond as [(w2 & e & -> & Hc) | (w2 & Hsend)].
    - simpl. rewrite Hc. by split.
    - split; [by eapply no_partial_without_signers|].
      intros txid2 (? & ? & _ & Hin & _)%(sendTransaction_resolves _ _ _ _ _ _ _ _ _ _
                                           _ _ Hsend). done. }
  split; [|split].
  - intros key first second' [= <- <- <-]. split; [by exists ai|].
    split; [exists txid; simpl; by rewrite Hm|]. split; [done|]. split; [done|].
    intros e He. simpl. by rewrite He.
  - by intros first.
  - intros pk. simpl. destruct (settled second) as [[txid2|e]|] eqn:Hs2; try done.
    intros [= <-]. exists (Started s st), second. split; [done|]. split; [done|].
    by eapply Hin2.
Qed.

Lemma initQuasarGroup_in_two_steps_witness :
  ∃ key first second,
    Demo.init_group Demo.schedule_failure = Some (Both key first second) ∧
    (∃ txid, settled first = Some (Fulfilled txid)) ∧
    initQuasarGroup_outcome (Both key first second)
    = Some (Rejected (JError "Transaction failed: insufficient funds")).
Proof.
  unfold Demo.init_group.
  destruct (initQuasarGroup _ _ _ _ _ _ _ _ _ _ _ _ _) as [[e|first|key first second]|]
    eqn:E; try (vm_compute in E; discriminate).
  exists key, first, second. split; [reflexivity|].
  destruct (initQuasarGroup_in_two_steps _ _ _ _ _ _ _ _ _ _ _ _ _ _ E) as (H & _).
  destruct (H key first second eq_refl) as (_ & Hfirst & _ & _ & Hreject).
  split; [exact Hfirst|]. apply Hreject.
  vm_compute in E. by injection E as <- <- <-.
Defined.

(** ** How often the endpoint is asked *)

Lemma omap_quiet {A} (f : Event → option A) (P : Event → Prop) evs :
  (∀ e, P e → f e = None) → Forall P evs → omap f evs = [].
Proof.
  intros Hf. induction 1 as [|e l He _ IH]; [done|].
  cbn [omap list_omap]. by rewrite (Hf e He).
Qed.

Lemma calls_invariant_step s st a st' :
  calls_invariant s st → step s st a = Some st' → calls_invariant s st'.
Proof.
  intros (Hw & Hser & Hsim) Hstep.
  destruct (step_appends _ _ _ _ Hstep) as
    (evs & Ha & [(_ & Hl & Hm)|(Hn & [(-> & Hs)|(-> & Hm & Hm')])]);
    unfold appended in Ha; unfold calls_invariant, watched, serialized, simulated in *;
    rewrite Ha, !omap_app.
  - rewrite (omap_quiet _ (loop_event s) evs), (omap_quiet _ (loop_event s) evs),
      (omap_quiet _ (loop_event s) evs), !app_nil_r, Hm; try done.
    all: by intros [].
  - simpl. rewrite !app_nil_r. repeat split; try done.
    destruct Hsim as [?|[? _]]; [by left|right]. split; [done|].
    intros Heq. by rewrite Heq in Hs.
  - simpl. rewrite !app_nil_r. repeat split; try done.
    destruct Hsim as [->|[_ ?]]; [|done]. right. split; [done|]. by rewrite Hm'.
Qed.

Lemma calls_invariant_start s w :
  prelude_log s (calls w) → calls_invariant s (start s w).
Proof.
  intros (signing & callbacks & Hc & Hs & Hcb).
  assert (∀ {A} (f : Event → option A),
            (∀ e, signing_event e → f e = None) → f EvCallback = None →
            omap f (calls w)
            = omap f [EvSerialize (sub_transaction s)] ++
              omap f [EvSendRawTransaction (sub_rawTransaction s) send_options])
    as Hproj.
  { intros A f Hf1 Hf2. rewrite Hc, !omap_app.
    rewrite (omap_quiet f signing_event signing Hf1 Hs).
    assert (omap f callbacks = []) as ->; [|by rewrite app_nil_l].
    apply (omap_quiet f (fun e => e = EvCallback)); [by intros ? ->|done]. }
  unfold calls_invariant, watched, serialized, simulated. simpl.
  rewrite !omap_app, !Hproj; try done; try by intros [].
  repeat split. by left.
Qed.

(** X13. In every call of [sendTransaction] and of [sendSignedTransaction]
    that got past its first send, whatever the schedule: [serialize] has
    been called once, on the transaction of the call; the confirmation
    watcher has been called once, with the id answered to the first send
    and the timeout and level of the call; and [simulateTransaction] has
    been called at most once, on the transaction of the call, and not at
    all while the watcher is still awaited. *)
Theorem endpoint_calls_are_single schedule s st :
  submission_run_under schedule (Started s st) →
  watched (calls (world st)) = [(sub_txid s, sub_timeout s, sub_confirmLevel s)] ∧
  serialized (calls (world st)) = [sub_transaction s] ∧
  (simulated (calls (world st)) = [] ∨
   simulated (calls (world st))
   = [(sub_transaction s, simulate_commitment (sub_kind s))] ∧
   main st ≠ MAwaitConfirmation).
Proof.
  intros (w & Hlog & Hrun)%submission_run_inv.
  exact (run_invariant s (calls_invariant s) (calls_invariant_step s) schedule _ _
           (calls_invariant_start s w Hlog) Hrun).
Qed.

Lemma endpoint_calls_are_single_witness :
  ∃ s st,
    Demo.send Demo.schedule_failure = Some (Started s st) ∧
    watched (calls (world st)) = [("txid32", 30000, processed)] ∧
    simulated (calls (world st)) = [(1%positive, "processed")].
Proof.
  unfold Demo.send.
  destruct (sendTransaction _ _ _ _ _ _ _ _ _ _ _) as [[w e|s st]|] eqn:E;
    [vm_compute in E; discriminate | | vm_compute in E; discriminate].
  exists s, st. split; [reflexivity|].
  assert (submission_run_under Demo.schedule_failure (Started s st)) as H.
  { left. unfold from_sendTransaction. do 10 eexists. exact E. }
  destruct (endpoint_calls_are_single _ s st H) as (Hw & _ & _).
  vm_compute in E. injection E as <- <-. split; [exact Hw | reflexivity].
Defined.

(** ** A submission of a signed transaction *)

Lemma step_keeps_heap s st a st' :
  is_simulation a = false → step s st a = Some st' →
  heap (world st') = heap (world st).
Proof.
  destruct a as [clock|o|o eff]; [| |done]; intros _; simpl.
  - destruct (loop st); intros; simplify_eq;
      by destruct (loop_wake_spec s clock st) as (_ & _ & ? & _).
  - destruct (main st); intros; simplify_eq. unfold on_confirmation.
    destruct o as [[]|err];
      [|destruct (get_prop err "timeout") as [t|]; [destruct (truthy t)|]]; done.
Qed.

Lemma run_keeps_heap s schedule st st' :
  Forall (fun a => is_simulation a = false) schedule → run s st schedule = Some st' →
  heap (world st') = heap (world st).
Proof.
  intros Hs. revert st. induction Hs as [|a rest Ha _ IH]; simpl; intros st.
  { by intros [= <-]. }
  destruct (step s st a) as [st1|] eqn:E; [|done]. intros Hrun.
  by rewrite (IH _ Hrun), (step_keeps_heap _ _ _ _ Ha E).
Qed.

(** X14. [sendSignedTransaction] only passes on what it is given: it
    fetches no blockhash, sets no signers, asks nobody to sign and calls no
    callback; and as long as the simulation has not settled, the store of
    transaction objects is as the call found it. *)
Theorem sendSignedTransaction_only_forwards web3 connection clock tx timeout level
    schedule h r :
  sendSignedTransaction web3 connection clock tx timeout level schedule h = Some r →
  Forall (fun e => ¬ signing_event e ∧ e ≠ EvCallback) (run_calls r) ∧
  (Forall (fun a => is_simulation a = false) schedule → run_heap r = h).
Proof.
  unfold sendSignedTransaction, submit.
  destruct (sendSignedTransaction_prelude _ _ _ _ _ _ _) as [w [s|e]] eqn:E.
  - intros (st & Hrun & ->)%fmap_Some. simpl.
    apply sendSignedTransaction_prelude_inv in E as Hinv.
    destruct Hinv as (_ & _ & Hc & _).
    assert (heap w = h) as Hheap.
    { unfold sendSignedTransaction_prelude, call_serialize, mbind, Task_bind, bind, emit,
        query, await, ret in E. simpl in E.
      destruct (serialize web3 (h tx)); [|done].
      destruct (sendRawTransaction connection _ _); [|done]. by injection E as <- _. }
    split.
    + destruct (run_activity_events _ _ _ _ Hrun) as (evs & -> & Hact).
      rewrite Hc. simpl. do 2 (constructor; [split; [simpl; tauto|discriminate]|]).
      eapply Forall_impl; [exact Hact|].
      intros e He. destruct e; simpl in *; try tauto; (split; [tauto|discriminate]).
    + intros Hs. by rewrite (run_keeps_heap _ _ _ _ Hs Hrun).
  - intros [= <-]. simpl.
    unfold sendSignedTransaction_prelude, call_serialize, mbind, Task_bind, bind, emit,
      query, await, ret in E. simpl in E.
    destruct (serialize web3 (h tx)).
    + destruct (sendRawTransaction connection _ _); [done|]. injection E as <- _.
      simpl. split; [|done].
      do 2 (constructor; [split; [simpl; tauto|discriminate]|]). constructor.
    + injection E as <- _. simpl. split; [|done].
      constructor; [split; [simpl; tauto|discriminate]|constructor].
Qed.

Lemma sendSignedTransaction_only_forwards_witness :
  ∃ r, Demo.send_signed Demo.schedule_success = Some r ∧ run_heap r = Demo.signed_heap.
Proof.
  unfold Demo.send_signed.
  destruct (sendSignedTransaction _ _ _ _ _ _ _ _) as [r|] eqn:E;
    [|vm_compute in E; discriminate].
  exists r. split; [reflexivity|].
  apply (sendSignedTransaction_only_forwards _ _ _ _ _ _ _ _ _ E).
  unfold Demo.schedule_success. by repeat constructor.
Defined.
